(** * lazyqmd: a shallow embedding of the terminal front-end for qmd

  The development follows the TypeScript sources:
  - [qmd-cli.ts] and [mcp-client.ts]: the [run] helpers around the qmd
    subprocess and the parsers of its text output;
  - [views/*.ts]: the form, search, file and document views;
  - [app.ts]: the controller, the live-preview server and watcher.

  JavaScript strings are sequences of UTF-16 code units; they are modelled
  as lists of [N].  A call that may throw returns a [Result].  What the
  host answers (the qmd process, the file system, the environment) and the
  library functions whose tables are not part of the repository
  ([String.prototype.toLowerCase], [JSON.parse], [YAML.parse],
  [marked.parse], [path.join], [decodeURIComponent]) are section variables.
  Time is a number of milliseconds; a pending [setTimeout] is an entry of a
  table of due times.  In [App] an asynchronous method runs to its end in
  one step, which is what it does when nothing else happens before it ends;
  [Loop] cuts the methods at their [await]s and lets the events of the
  application come in between. *)

From Stdlib Require Import ZArith NArith List String Ascii Bool Lia DecimalString.
From stdpp Require Import base option list gmap.

Local Open Scope N_scope.

(** ** JavaScript strings *)

Module JS.

Abbreviation jsstring := (list N).

(** A string literal of the source (ASCII only in this repository). *)
Definition lit (s : string) : jsstring :=
  map N_of_ascii (list_ascii_of_string s).

(** ECMAScript [WhiteSpace] and [LineTerminator] code units: what
    [String.prototype.trim] strips and what [\s] matches. *)
Definition isLineTerminator (c : N) : bool :=
  (c =? 10) || (c =? 13) || (c =? 8232) || (c =? 8233).

Definition isWhiteSpace (c : N) : bool :=
  (c =? 9) || (c =? 11) || (c =? 12) || (c =? 32) || (c =? 160)
  || (c =? 5760) || ((8192 <=? c) && (c <=? 8202))
  || (c =? 8239) || (c =? 8287) || (c =? 12288) || (c =? 65279)
  || isLineTerminator c.

Fixpoint trimStart (s : jsstring) : jsstring :=
  match s with
  | c :: s' => if isWhiteSpace c then trimStart s' else s
  | [] => []
  end.

Definition trimEnd (s : jsstring) : jsstring := rev (trimStart (rev s)).

Definition trim (s : jsstring) : jsstring := trimEnd (trimStart s).

Fixpoint startsWith (s p : jsstring) : bool :=
  match p, s with
  | [], _ => true
  | a :: p', b :: s' => (a =? b) && startsWith s' p'
  | _ :: _, [] => false
  end.

(** Truthiness of a string: the empty string is the only falsy one. *)
Definition truthy (s : jsstring) : bool :=
  match s with [] => false | _ :: _ => true end.

(** [a || b] on strings. *)
Definition or_else (a b : jsstring) : jsstring := if truthy a then a else b.

(** [String(n)] for an integer-valued number. *)
Definition String_of_Z (z : Z) : jsstring :=
  lit (NilZero.string_of_int (Z.to_int z)).

(** [Array.prototype.join]. *)
Fixpoint join (sep : jsstring) (l : list jsstring) : jsstring :=
  match l with
  | [] => []
  | [x] => x
  | x :: l' => x ++ sep ++ join sep l'
  end.

(** [s.split(c)] for a separator of one code unit. *)
Fixpoint splitOn (c : N) (s : jsstring) : list jsstring :=
  match s with
  | [] => [[]]
  | d :: s' =>
      if d =? c then [] :: splitOn c s'
      else
        match splitOn c s' with
        | piece :: rest => (d :: piece) :: rest
        | [] => [[d]]
        end
  end.

(** A line feed. *)
Definition nlx : jsstring := [10].

(** ASCII-only lowering, used to run the definitions on examples. *)
Definition asciiLower (s : jsstring) : jsstring :=
  map (fun c => if (65 <=? c) && (c <=? 90) then c + 32 else c) s.

End JS.
Import JS.

(** ** Exceptions *)

(** A thrown [Error] object: its [name] and [message]. *)
Record Error := mkError { ename : jsstring; emessage : jsstring }.

Definition newError (msg : jsstring) : Error :=
  {| ename := lit "Error"; emessage := msg |}.

(** [Error.prototype.toString], which [`${err}`] calls. *)
Definition Error_toString (e : Error) : jsstring :=
  match ename e, emessage e with
  | [], m => m
  | n, [] => n
  | n, m => n ++ lit ": " ++ m
  end.

(** The outcome of a call that may throw. *)
Inductive Result (A : Type) : Type :=
| Ok (a : A)
| Throw (e : Error).
Arguments Ok {A} a.
Arguments Throw {A} e.

Definition throws {A} (r : Result A) : bool :=
  match r with Ok _ => false | Throw _ => true end.

(** ** Styled text of the terminal UI *)

Record Chunk := mkChunk { bold : bool; color : option jsstring; text : jsstring }.
Abbreviation StyledText := (list Chunk).

Definition plain (s : jsstring) : StyledText :=
  if truthy s then [mkChunk false None s] else [].
Definition fg (c : string) (s : jsstring) : StyledText := [mkChunk false (Some (lit c)) s].
Definition boldfg (c : string) (s : jsstring) : StyledText := [mkChunk true (Some (lit c)) s].
Definition bold_ (s : jsstring) : StyledText := [mkChunk true None s].

(** The characters on screen, whatever their style. *)
Definition shownText (t : StyledText) : jsstring := concat (map text t).

(** ** views/files.ts *)

Module Files.
Section Files.

Variable toLowerCase : jsstring -> jsstring.

(** The body of the [for] loop of [fuzzyMatch]: [rest] is the part of
    [lower] from index [i] on, the result is the final [qi]. *)
Fixpoint fuzzyLoop (q rest : jsstring) (qi : nat) : nat :=
  match rest with
  | [] => qi
  | c :: rest' =>
      if (qi <? length q)%nat then
        if decide (Some c = q !! qi) then fuzzyLoop q rest' (S qi)
        else fuzzyLoop q rest' qi
      else qi
  end.

Definition fuzzyMatch (query text : jsstring) : bool :=
  let lower := toLowerCase text in
  let q := toLowerCase query in
  let qi := fuzzyLoop q lower 0 in
  (qi =? length q)%nat.

Record FileEntry := mkFileEntry {
  fe_size : jsstring; fe_date : jsstring; fe_uri : jsstring; fe_path : jsstring }.

Record SelectOption := mkSelectOption {
  so_name : jsstring; so_description : jsstring; so_value : jsstring }.

Record FilesView := mkFilesView {
  input_value : jsstring;
  allFiles : list FileEntry;
  statusText : StyledText;
  filesList_options : list SelectOption }.

Definition fileOption (f : FileEntry) : SelectOption :=
  {| so_name := fe_path f;
     so_description := fe_size f ++ lit "  " ++ fe_date f;
     so_value := fe_uri f |}.

Definition applyFilter (v : FilesView) : FilesView :=
  let query := trim (input_value v) in
  let filtered :=
    if truthy query then filter (fun f => fuzzyMatch query (fe_path f) = true) (allFiles v)
    else allFiles v in
  let count l := String_of_Z (Z.of_nat (length l)) in
  {| input_value := input_value v;
     allFiles := allFiles v;
     statusText :=
       if truthy query
       then fg "#7fd88f" (count filtered ++ lit "/" ++ count (allFiles v) ++ lit " files")
       else fg "#7fd88f" (count (allFiles v) ++ lit " files");
     filesList_options := map fileOption filtered |}.

End Files.
End Files.


(** ** Regular expressions

    The fragment of ECMAScript regular expressions the sources use, with the
    backtracking order of the language: a greedy quantifier tries the longest
    repetition first, a lazy one the shortest, and the first alternative that
    lets the rest of the pattern succeed wins.  Quantifiers apply to
    character classes only, which is all the sources need. *)

Module Regex.

Inductive re : Type :=
| Eps
| Chr (c : N)                          (* a literal code unit *)
| Cls (p : N -> bool)                  (* \s \S \d . [\s\S] *)
| Seq (r1 r2 : re)
| Star (greedy : bool) (p : N -> bool) (* c* and c*? *)
| Plus (greedy : bool) (p : N -> bool) (* c+ and c+? *)
| Opt (r : re)                         (* r? *)
| Group (i : nat) (r : re)             (* the i-th capturing group *)
| LookAhead (r : re)                   (* (?=r) *)
| Eol.                                 (* $ without the m flag *)

(** A literal string inside a pattern. *)
Fixpoint Str (s : jsstring) : re :=
  match s with
  | [] => Eps
  | c :: s' => Seq (Chr c) (Str s')
  end.

Fixpoint Seqs (rs : list re) : re :=
  match rs with
  | [] => Eps
  | r :: rs' => Seq r (Seqs rs')
  end.

Definition ws : N -> bool := isWhiteSpace.                          (* \s *)
Definition nonws (c : N) : bool := negb (isWhiteSpace c).           (* \S *)
Definition digit (c : N) : bool := (48 <=? c) && (c <=? 57).        (* \d *)
Definition dot (c : N) : bool := negb (isLineTerminator c).         (* .  *)
Definition any (c : N) : bool := true.                              (* [\s\S] *)

Abbreviation captures := (gmap nat jsstring).

Section Exec.
Context {R : Type}.

(** [c*] followed by the continuation [k]. *)
Fixpoint star (greedy : bool) (p : N -> bool) (s : jsstring)
    (k : jsstring -> option R) : option R :=
  if greedy then
    match s with
    | c :: s' =>
        if p c then
          match star greedy p s' k with
          | Some x => Some x
          | None => k s
          end
        else k s
    | [] => k s
    end
  else
    match k s with
    | Some x => Some x
    | None =>
        match s with
        | c :: s' => if p c then star greedy p s' k else None
        | [] => None
        end
    end.

End Exec.

(** [exec r s caps k]: match [r] at the head of [s], then run [k] on what is
    left; [None] when every alternative fails. *)
Fixpoint exec (r : re) {R : Type} (s : jsstring) (caps : captures)
    (k : jsstring -> captures -> option R) : option R :=
  match r with
  | Eps => k s caps
  | Chr c =>
      match s with
      | d :: s' => if c =? d then k s' caps else None
      | [] => None
      end
  | Cls p =>
      match s with
      | d :: s' => if p d then k s' caps else None
      | [] => None
      end
  | Seq r1 r2 => exec r1 s caps (fun s' caps' => exec r2 s' caps' k)
  | Star g p => star g p s (fun s' => k s' caps)
  | Plus g p =>
      match s with
      | d :: s' => if p d then star g p s' (fun s'' => k s'' caps) else None
      | [] => None
      end
  | Opt r1 =>
      match exec r1 s caps k with
      | Some x => Some x
      | None => k s caps
      end
  | Group i r1 =>
      exec r1 s caps
        (fun s' caps' => k s' (<[i := take (length s - length s') s]> caps'))
  | LookAhead r1 =>
      match exec r1 s caps (fun _ caps' => Some caps') with
      | Some caps' => k s caps'
      | None => None
      end
  | Eol =>
      match s with
      | [] => k s caps
      | _ :: _ => None
      end
  end.

(** The array [String.prototype.match] returns for a pattern without the
    [g] flag: the index, the matched text and the groups. *)
Record MatchResult := mkMatch {
  index : nat; matched : jsstring; groups : captures }.

(** [s.match(/^r/)]: only position 0 is tried. *)
Definition matchStart (r : re) (s : jsstring) : option MatchResult :=
  exec r s ∅ (fun s' caps => Some (mkMatch 0 (take (length s - length s') s) caps)).

(** [s.match(/r/)]: the leftmost position where [r] matches. *)
Fixpoint searchFrom (r : re) (s : jsstring) (idx : nat) : option MatchResult :=
  match exec r s ∅
          (fun s' caps => Some (mkMatch idx (take (length s - length s') s) caps)) with
  | Some m => Some m
  | None =>
      match s with
      | [] => None
      | _ :: s' => searchFrom r s' (S idx)
      end
  end.

Definition search (r : re) (s : jsstring) : option MatchResult := searchFrom r s 0.

(** [m?.[i]] *)
Definition group (i : nat) (m : option MatchResult) : option jsstring :=
  m ≫= fun m => groups m !! i.

(** The loop of [String.prototype.split] with a pattern that has no capturing
    group: [piece] is the text since the last separator, [skip] the number of
    code units of the current separator still to pass. *)
Fixpoint splitLoop (r : re) (s piece : jsstring) (skip : nat) : list jsstring :=
  match s with
  | [] => [piece]
  | c :: s' =>
      match skip with
      | S n => splitLoop r s' piece n
      | O =>
          match exec r s ∅ (fun s'' _ => Some (length s - length s'')%nat) with
          | Some (S n) => piece :: splitLoop r s' [] n
          | Some O =>
              match piece with
              | [] => splitLoop r s' [c] 0
              | _ :: _ => piece :: splitLoop r s' [c] 0
              end
          | None => splitLoop r s' (piece ++ [c]) 0
          end
      end
  end.

Definition split (r : re) (s : jsstring) : list jsstring :=
  match s with
  | [] =>
      match exec r s ∅ (fun _ _ => Some tt) with
      | Some _ => []
      | None => [[]]
      end
  | _ :: _ => splitLoop r s [] 0
  end.

(** [s.replace(/r/, "")]: the first match is cut out. *)
Definition removeFirst (r : re) (s : jsstring) : jsstring :=
  match search r s with
  | Some m => take (index m) s ++ drop (index m + length (matched m)) s
  | None => s
  end.

End Regex.

(** ** The qmd subprocess *)

(** What a finished subprocess leaves behind: the text of its two pipes and
    its exit code. *)
Record Proc := mkProc { stdout : jsstring; stderr : jsstring; exited : Z }.

(** ** qmd-cli.ts *)

Module QmdCli.

Record Collection := mkCollection {
  name : jsstring;
  uri : jsstring;
  path : jsstring;
  pattern : jsstring;
  files : N;
  updated : jsstring }.

(** The cast in [YAML.parse(content) as QmdConfig] checks nothing: what it
    declares present can be [undefined] or [null] all the same. *)
Inductive Nullish : Type := js_undefined | js_null.

Inductive Unchecked (A : Type) : Type :=
| absent (n : Nullish)
| present (a : A).
Arguments absent {A} n.
Arguments present {A} a.

(** An entry of [collections], as far as it is read: [None] is a field that
    is not there, or has no value. *)
Record ConfigEntry := mkConfigEntry {
  cfg_path : option jsstring;
  cfg_pattern : option jsstring }.

(** The parsed document, read the way [listCollections] reads it.  A
    document that is not a mapping, or has no key [collections], has
    [undefined] there; a key without a value has [null].  Under
    [collections] a name has an entry when it is a key with a value. *)
Record QmdConfig := mkQmdConfig {
  collections : Unchecked (gmap jsstring ConfigEntry) }.

(** [parseInt(s, 10)] on the digits that start [s].  Every call of the
    sources passes a non-empty string of decimal digits (a [\d+] group or the
    literal "0"); the value is exact as long as it stays below 2^53. *)
Fixpoint parseDigits (s : jsstring) (acc : N) : N :=
  match s with
  | c :: s' => if Regex.digit c then parseDigits s' (10 * acc + (c - 48)) else acc
  | [] => acc
  end.

Definition parseInt10 (s : jsstring) : N := parseDigits s 0.

Section QmdCli.

(** [Bun.spawn(argv)] and the outcome of the process; [Throw] when the
    program cannot be started. *)
Variable spawn : list jsstring -> Result Proc.
(** [Bun.file(p).text()]. *)
Variable readText : jsstring -> Result jsstring.
(** [YAML.parse(content) as QmdConfig]; an empty document is [null]. *)
Variable YAML_parse : jsstring -> Result (Unchecked QmdConfig).
(** The message of the [TypeError] that reading a property of [undefined]
    or [null] throws is the engine's; it is given the expression, the value
    and the property. *)
Variable nullishMessage : string -> Nullish -> jsstring -> jsstring.
(** [path.join]. *)
Variable path_join : list jsstring -> jsstring.
(** [process.env.XDG_CONFIG_HOME] and [process.env.HOME!]. *)
Variable XDG_CONFIG_HOME : option jsstring.
Variable HOME : jsstring.

Definition run (args : list jsstring) : Result jsstring :=
  match spawn (lit "qmd" :: args) with
  | Throw e => Throw e
  | Ok proc =>
      let text := stdout proc in
      let errText := stderr proc in
      let exitCode := exited proc in
      if negb (exitCode =? 0)%Z then
        Throw (newError (or_else (trim errText)
                           (lit "qmd exited with code " ++ String_of_Z exitCode)))
      else Ok text
  end.

Definition loadQmdConfig : Unchecked QmdConfig :=
  let configDir :=
    match XDG_CONFIG_HOME with
    | Some d => if truthy d then d else path_join [HOME; lit ".config"]
    | None => path_join [HOME; lit ".config"]
    end in
  let configPath := path_join [configDir; lit "qmd"; lit "index.yml"] in
  match readText configPath with
  | Ok content =>
      match YAML_parse content with
      | Ok c => c
      | Throw _ => present (mkQmdConfig (present ∅))
      end
  | Throw _ => present (mkQmdConfig (present ∅))
  end.

Definition typeError (expr : string) (n : Nullish) (key : jsstring) : Error :=
  {| ename := lit "TypeError"; emessage := nullishMessage expr n key |}.

(** [config.collections[name]] *)
Definition collConfigOf (config : Unchecked QmdConfig) (name : jsstring)
    : Result (option ConfigEntry) :=
  match config with
  | absent n => Throw (typeError "config.collections" n (lit "collections"))
  | present c =>
      match collections c with
      | absent n => Throw (typeError "config.collections[name]" n name)
      | present entries => Ok (entries !! name)
      end
  end.

(** [/\n(?=\S)/] *)
Definition blockSeparator : Regex.re :=
  Regex.Seq (Regex.Chr 10) (Regex.LookAhead (Regex.Cls Regex.nonws)).

(** [/^(\S+)\s+\(qmd:\/\/(\S+?)\/?\)/] without its anchor. *)
Definition headerPattern : Regex.re :=
  Regex.Seqs [Regex.Group 1 (Regex.Plus true Regex.nonws);
              Regex.Plus true Regex.ws;
              Regex.Str (lit "(qmd://");
              Regex.Group 2 (Regex.Plus false Regex.nonws);
              Regex.Opt (Regex.Chr 47);
              Regex.Chr 41].

(** [/Pattern:\s+(.+)/] and [/Updated:\s+(.+)/] *)
Definition fieldPattern (label : string) : Regex.re :=
  Regex.Seqs [Regex.Str (lit label); Regex.Plus true Regex.ws;
              Regex.Group 1 (Regex.Plus true Regex.dot)].

(** [/Files:\s+(\d+)/] *)
Definition filesPattern : Regex.re :=
  Regex.Seqs [Regex.Str (lit "Files:"); Regex.Plus true Regex.ws;
              Regex.Group 1 (Regex.Plus true Regex.digit)].

(** One turn of the [for (const block of blocks)] loop: [continue] leaves
    the array as it is, [push] appends to it. *)
Definition listCollections_step (config : Unchecked QmdConfig)
    (collections_ : list Collection) (block : jsstring) : Result (list Collection) :=
  let headerMatch := Regex.matchStart headerPattern block in
  match headerMatch with
  | None => Ok collections_
  | Some _ =>
      let name := default [] (Regex.group 1 headerMatch) in
      let uri := lit "qmd://" ++ default [] (Regex.group 2 headerMatch) ++ lit "/" in
      let patternMatch := Regex.search (fieldPattern "Pattern:") block in
      let filesMatch := Regex.search filesPattern block in
      let updatedMatch := Regex.search (fieldPattern "Updated:") block in
      match collConfigOf config name with
      | Throw e => Throw e
      | Ok collConfig =>
          Ok (collections_ ++
                [ {| name := name;
                     uri := uri;
                     path := default [] (collConfig ≫= cfg_path);
                     pattern :=
                       default (lit "**/*.md") (trim <$> Regex.group 1 patternMatch);
                     files := parseInt10 (default (lit "0") (Regex.group 1 filesMatch));
                     updated :=
                       default (lit "unknown") (trim <$> Regex.group 1 updatedMatch) |} ])
      end
  end.

(** The loop; an exception ends it. *)
Fixpoint listCollections_loop (config : Unchecked QmdConfig) (blocks : list jsstring)
    (collections_ : list Collection) : Result (list Collection) :=
  match blocks with
  | [] => Ok collections_
  | block :: blocks' =>
      match listCollections_step config collections_ block with
      | Throw e => Throw e
      | Ok collections_ => listCollections_loop config blocks' collections_
      end
  end.

Definition listCollections : Result (list Collection) :=
  match run [lit "collection"; lit "list"] with
  | Throw e => Throw e
  | Ok output =>
      let config := loadQmdConfig in
      let blocks := Regex.split blockSeparator output in
      listCollections_loop config blocks []
  end.

Definition expandHome (p : jsstring) : jsstring :=
  if startsWith p (lit "~/") || bool_decide (p = lit "~")
  then path_join [HOME; drop 1 p]
  else p.

(** [mask] is [None] for [undefined]. *)
Definition addCollection (path name : jsstring) (mask : option jsstring) : Result unit :=
  let resolved := expandHome path in
  let args := [lit "collection"; lit "add"; resolved; lit "--name"; name] in
  let args :=
    match mask with
    | Some m => if truthy m then args ++ [lit "--mask"; m] else args
    | None => args
    end in
  match run args with Ok _ => Ok tt | Throw e => Throw e end.

Definition removeCollection (name : jsstring) : Result unit :=
  match run [lit "collection"; lit "remove"; name] with
  | Ok _ => Ok tt | Throw e => Throw e end.

Definition renameCollection (oldName newName : jsstring) : Result unit :=
  match run [lit "collection"; lit "rename"; oldName; newName] with
  | Ok _ => Ok tt | Throw e => Throw e end.

Definition embed : Result unit :=
  match run [lit "embed"] with Ok _ => Ok tt | Throw e => Throw e end.

(** [Bun.file(p).exists()], [readdir(p)] and [String.prototype.toLowerCase]. *)
Variable exists_ : jsstring -> bool.
Variable readdir : jsstring -> Result (list jsstring).
Variable toLowerCase : jsstring -> jsstring.

(** The loop of [resolveCaseInsensitive]; a failing [readdir] is caught and
    gives [null]. *)
Fixpoint resolveParts (current : jsstring) (parts : list jsstring) : option jsstring :=
  match parts with
  | [] => Some current
  | part :: parts' =>
      match readdir current with
      | Throw _ => None
      | Ok entries =>
          match List.find (fun e => bool_decide (toLowerCase e = toLowerCase part)) entries with
          | None => None
          | Some found =>
              if truthy found then resolveParts (path_join [current; found]) parts'
              else None
          end
      end
  end.

Definition resolveCaseInsensitive (basePath relativePath : jsstring) : option jsstring :=
  resolveParts basePath (splitOn 47 relativePath).

(** [/^qmd:\/\/([^/]+)\/(.+)$/] without its first anchor. *)
Definition uriPattern : Regex.re :=
  Regex.Seqs [Regex.Str (lit "qmd://");
              Regex.Group 1 (Regex.Plus true (fun c => negb (c =? 47)));
              Regex.Chr 47;
              Regex.Group 2 (Regex.Plus true Regex.dot);
              Regex.Eol].

Definition resolveQmdUri (uri : jsstring) (cols : list Collection) : option jsstring :=
  let match_ := Regex.matchStart uriPattern uri in
  match match_ with
  | None => None
  | Some _ =>
      let collName := default [] (Regex.group 1 match_) in
      let relativePath := default [] (Regex.group 2 match_) in
      match List.find (fun c => bool_decide (name c = collName)) cols with
      | None => None
      | Some col =>
          if negb (truthy (path col)) then None
          else
            let candidate := path_join [path col; relativePath] in
            if exists_ candidate then Some candidate
            else resolveCaseInsensitive (path col) relativePath
      end
  end.

End QmdCli.
End QmdCli.

(** ** mcp-client.ts *)

Module Mcp.

Section Mcp.

(** The type of JavaScript numbers for relevance scores. *)
Variable number : Type.

Record SearchResult := mkSearchResult {
  docid : jsstring;
  file : jsstring;
  title : jsstring;
  score : number;
  context : option jsstring;
  snippet : jsstring }.

Variable spawn : list jsstring -> Result Proc.
(** [JSON.parse(text) as SearchResult[]]; [Throw] is its [SyntaxError]. *)
Variable JSON_parse : jsstring -> Result (list SearchResult).

Definition run (args : list jsstring) : Result jsstring :=
  match spawn (lit "qmd" :: args) with
  | Throw e => Throw e
  | Ok proc =>
      let text := stdout proc in
      let code := exited proc in
      if negb (code =? 0)%Z then
        let stderr := stderr proc in
        Throw (newError (lit "qmd " ++ join (lit " ") args ++ lit " failed ("
                           ++ String_of_Z code ++ lit "): " ++ stderr))
      else Ok text
  end.

Record StatusCollection := mkStatusCollection {
  sc_name : jsstring;
  sc_path : jsstring;
  sc_pattern : jsstring;
  sc_documents : N;
  sc_lastUpdated : jsstring }.

Record StatusResult := mkStatusResult {
  totalDocuments : N;
  needsEmbedding : N;
  hasVectorIndex : bool;
  st_collections : list StatusCollection }.

(** [/Total:\s+(\d+)/], [/Vectors:\s+(\d+)/], [/Pending:\s+(\d+)/] *)
Definition countPattern (label : string) : Regex.re :=
  Regex.Seqs [Regex.Str (lit label); Regex.Plus true Regex.ws;
              Regex.Group 1 (Regex.Plus true Regex.digit)].

(** [/\n(?=  \S+\s+\(qmd:\/\/)/] *)
Definition statusSeparator : Regex.re :=
  Regex.Seq (Regex.Chr 10)
    (Regex.LookAhead
       (Regex.Seqs [Regex.Str (lit "  "); Regex.Plus true Regex.nonws;
                    Regex.Plus true Regex.ws; Regex.Str (lit "(qmd://")])).

(** [/^\s+(\S+)\s+\(qmd:\/\/(\S+?)\/?\)/] without its anchor. *)
Definition statusHeader : Regex.re :=
  Regex.Seqs [Regex.Plus true Regex.ws;
              Regex.Group 1 (Regex.Plus true Regex.nonws);
              Regex.Plus true Regex.ws;
              Regex.Str (lit "(qmd://");
              Regex.Group 2 (Regex.Plus false Regex.nonws);
              Regex.Opt (Regex.Chr 47);
              Regex.Chr 41].

(** [/Files:\s+(\d+)\s+\(updated\s+(.+?)\)/] *)
Definition statusFiles : Regex.re :=
  Regex.Seqs [Regex.Str (lit "Files:"); Regex.Plus true Regex.ws;
              Regex.Group 1 (Regex.Plus true Regex.digit);
              Regex.Plus true Regex.ws; Regex.Str (lit "(updated");
              Regex.Plus true Regex.ws;
              Regex.Group 2 (Regex.Plus false Regex.dot);
              Regex.Chr 41].

Definition parseStatus_step (collections_ : list StatusCollection) (block : jsstring)
    : list StatusCollection :=
  let headerMatch := Regex.matchStart statusHeader block in
  match headerMatch with
  | None => collections_
  | Some _ =>
      let name := default [] (Regex.group 1 headerMatch) in
      let patternMatch := Regex.search (QmdCli.fieldPattern "Pattern:") block in
      let filesMatch := Regex.search statusFiles block in
      collections_ ++
        [ {| sc_name := name;
             sc_path := name;
             sc_pattern := default (lit "**/*.md") (trim <$> Regex.group 1 patternMatch);
             sc_documents := QmdCli.parseInt10 (default (lit "0") (Regex.group 1 filesMatch));
             sc_lastUpdated := default (lit "unknown") (trim <$> Regex.group 2 filesMatch) |} ]
  end.

Definition parseStatus (output : jsstring) : StatusResult :=
  let totalMatch := Regex.search (countPattern "Total:") output in
  let vectorsMatch := Regex.search (countPattern "Vectors:") output in
  let pendingMatch := Regex.search (countPattern "Pending:") output in
  let collBlocks := Regex.split statusSeparator output in
  let collections_ := fold_left parseStatus_step collBlocks [] in
  {| totalDocuments := QmdCli.parseInt10 (default (lit "0") (Regex.group 1 totalMatch));
     needsEmbedding := QmdCli.parseInt10 (default (lit "0") (Regex.group 1 pendingMatch));
     hasVectorIndex :=
       0 <? QmdCli.parseInt10 (default (lit "0") (Regex.group 1 vectorsMatch));
     st_collections := collections_ |}.

Definition parseSearchOutput (output : jsstring) : Result (list SearchResult) :=
  let trimmed := trim output in
  if negb (truthy trimmed) || negb (startsWith trimmed (lit "["))
  then Ok []
  else JSON_parse trimmed.

Record SearchOpts := mkSearchOpts {
  limit : option Z; collection : option jsstring }.

Definition searchArgs (cmd : string) (query : jsstring) (opts : option SearchOpts)
    : list jsstring :=
  let args := [lit cmd; query; lit "--json"; lit "-n";
               String_of_Z (default 20%Z (opts ≫= limit))] in
  match opts ≫= collection with
  | Some c => if truthy c then args ++ [lit "-c"; c] else args
  | None => args
  end.

Definition search (query : jsstring) (opts : option SearchOpts) :=
  match run (searchArgs "search" query opts) with
  | Throw e => Throw e
  | Ok output => parseSearchOutput output
  end.

Definition vectorSearch (query : jsstring) (opts : option SearchOpts) :=
  match run (searchArgs "vsearch" query opts) with
  | Throw e => Throw e
  | Ok output => parseSearchOutput output
  end.

Definition deepSearch (query : jsstring) (opts : option SearchOpts) :=
  match run (searchArgs "query" query opts) with
  | Throw e => Throw e
  | Ok output => parseSearchOutput output
  end.

Record DocOpts := mkDocOpts { maxLines : option Z; lineNumbers : option bool }.

Definition getDocument (file : jsstring) (opts : option DocOpts) : Result jsstring :=
  let args := [lit "get"; file] in
  let args :=
    match opts ≫= maxLines with
    | Some n => if negb (n =? 0)%Z then args ++ [lit "-l"; String_of_Z n] else args
    | None => args
    end in
  let args :=
    match opts ≫= lineNumbers with
    | Some true => args ++ [lit "--line-numbers"]
    | _ => args
    end in
  run args.

Definition status : Result StatusResult :=
  match run [lit "status"] with
  | Throw e => Throw e
  | Ok output => Ok (parseStatus output)
  end.

(** The methods of [QmdMcpClient] as the views see them. *)
Record QmdMcpClient := mkClient {
  mcp_status : Result StatusResult;
  mcp_search : jsstring -> option SearchOpts -> Result (list SearchResult);
  mcp_vectorSearch : jsstring -> option SearchOpts -> Result (list SearchResult);
  mcp_deepSearch : jsstring -> option SearchOpts -> Result (list SearchResult);
  mcp_getDocument : jsstring -> option DocOpts -> Result jsstring }.

(** [new QmdMcpClient(port)] *)
Definition client : QmdMcpClient :=
  {| mcp_status := status;
     mcp_search := search;
     mcp_vectorSearch := vectorSearch;
     mcp_deepSearch := deepSearch;
     mcp_getDocument := getDocument |}.

End Mcp.

Arguments mkSearchResult {number}.
Arguments docid {number}.
Arguments file {number}.
Arguments title {number}.
Arguments score {number}.
Arguments context {number}.
Arguments snippet {number}.
Arguments mkClient {number}.
Arguments mcp_status {number}.
Arguments mcp_search {number}.
Arguments mcp_vectorSearch {number}.
Arguments mcp_deepSearch {number}.
Arguments mcp_getDocument {number}.

End Mcp.

(** ** Front matter

    [/^---\r?\n([\s\S]*?)\r?\n---\r?\n?/] is shared by the document view and
    the preview page; so is the reading of the [title] key. *)

Module Frontmatter.

Definition pattern : Regex.re :=
  Regex.Seqs [Regex.Str (lit "---"); Regex.Opt (Regex.Chr 13); Regex.Chr 10;
              Regex.Group 1 (Regex.Star false Regex.any);
              Regex.Opt (Regex.Chr 13); Regex.Chr 10;
              Regex.Str (lit "---"); Regex.Opt (Regex.Chr 13);
              Regex.Opt (Regex.Chr 10)].

(** What the sources use of a value parsed by the yaml package. *)
Record Yaml := mkYaml {
  value : Type;
  (** [YAML.parse(text)] *)
  parse : jsstring -> Result value;
  (** [null] and [undefined]: reading a property of them throws. *)
  nullish : value -> bool;
  (** [fm.title] when it is a non-empty string. *)
  titleOf : value -> option jsstring;
  (** [Object.entries(fm)] *)
  entries : value -> list (jsstring * value);
  (** [String(v)] *)
  toString : value -> jsstring }.

End Frontmatter.

(** ** The render context

    Every view is built on the renderer; what the views use of it is the
    keyboard focus, which one renderable holds at a time, and what the
    controller uses of it is [destroy]. *)

Inductive Widget : Type :=
| collections_select
| search_input
| search_results
| document_scroll
| add_path_input
| add_name_input
| add_pattern_input
| add_path_completion
| rename_new_input
| confirm_delete_select.

#[global] Instance Widget_eq_dec : EqDecision Widget.
Proof. solve_decision. Defined.

Record RenderContext := mkCtx {
  focusedWidget : option Widget;
  destroyed : bool }.

(** [w.focus()] *)
Definition focus (w : Widget) (ctx : RenderContext) : RenderContext :=
  {| focusedWidget := Some w; destroyed := destroyed ctx |}.

(** [w.focused] *)
Definition isFocused (w : Widget) (ctx : RenderContext) : bool :=
  bool_decide (focusedWidget ctx = Some w).

Definition destroy (ctx : RenderContext) : RenderContext :=
  {| focusedWidget := focusedWidget ctx; destroyed := true |}.

(** [showStatus(message, error)] of the views. *)
Definition statusContent (message : jsstring) (error : bool) : StyledText :=
  if error then fg "#e06c75" message else fg "#808080" message.

(** ** views/add-collection.ts *)

Module AddCollectionView.

Record t := mk {
  pathInput : jsstring;
  nameInput : jsstring;
  patternInput : jsstring;
  statusText : StyledText;
  focusedField : nat;
  completionVisible : bool;
  completionDir : jsstring;
  completionOptions : list Files.SelectOption }.

Definition initial : t :=
  {| pathInput := []; nameInput := []; patternInput := []; statusText := [];
     focusedField := 0; completionVisible := false; completionDir := [];
     completionOptions := [] |}.

Definition set_status (st : StyledText) (v : t) : t :=
  {| pathInput := pathInput v; nameInput := nameInput v;
     patternInput := patternInput v; statusText := st;
     focusedField := focusedField v; completionVisible := completionVisible v;
     completionDir := completionDir v; completionOptions := completionOptions v |}.

Definition set_focusedField (f : nat) (v : t) : t :=
  {| pathInput := pathInput v; nameInput := nameInput v;
     patternInput := patternInput v; statusText := statusText v;
     focusedField := f; completionVisible := completionVisible v;
     completionDir := completionDir v; completionOptions := completionOptions v |}.

Definition inputs : list Widget := [add_path_input; add_name_input; add_pattern_input].

Definition hideCompletions (v : t) : t :=
  let v :=
    if completionVisible v then
      {| pathInput := pathInput v; nameInput := nameInput v;
         patternInput := patternInput v; statusText := statusText v;
         focusedField := focusedField v; completionVisible := false;
         completionDir := completionDir v; completionOptions := [] |}
    else v in
  set_status [] v.

Definition focusFirst (ctx : RenderContext) (v : t) : RenderContext * t :=
  (focus add_path_input ctx, set_focusedField 0 v).

Definition focusNext (ctx : RenderContext) (v : t) : RenderContext * t :=
  let f := ((focusedField v + 1) mod 3)%nat in
  (match inputs !! f with Some w => focus w ctx | None => ctx end,
   set_focusedField f v).

(** The part of [handleTab] that runs before its first [await]; the boolean
    tells whether [completePath], which reads the file system, is started. *)
Definition handleTab (ctx : RenderContext) (v : t) : RenderContext * t * bool :=
  if completionVisible v then
    (focusNext ctx (hideCompletions v), false)
  else if (focusedField v =? 0)%nat && isFocused add_path_input ctx then
    (ctx, v, true)
  else (focusNext ctx v, false).

Definition handleEscape (ctx : RenderContext) (v : t) : RenderContext * t * bool :=
  if completionVisible v then
    (focus add_path_input ctx, hideCompletions v, true)
  else (ctx, v, false).

Definition reset (v : t) : t :=
  hideCompletions
    {| pathInput := []; nameInput := []; patternInput := []; statusText := [];
       focusedField := 0; completionVisible := completionVisible v;
       completionDir := completionDir v; completionOptions := completionOptions v |}.

(** [submit]: the third component is the call [onComplete(path, name,
    pattern)], when it is made. *)
Definition submit (ctx : RenderContext) (v : t)
    : RenderContext * t * option (jsstring * jsstring * jsstring) :=
  let path := trim (pathInput v) in
  let name := trim (nameInput v) in
  let pattern := or_else (trim (patternInput v)) (lit "**/*.md") in
  if negb (truthy path) then
    (focus add_path_input ctx, set_status (fg "#e06c75" (lit "Path is required.")) v, None)
  else if negb (truthy name) then
    (focus add_name_input ctx, set_status (fg "#e06c75" (lit "Name is required.")) v, None)
  else (ctx, v, Some (path, name, pattern)).

(** The [ENTER] listener of the three inputs. *)
Definition onEnter (ctx : RenderContext) (v : t)
    : RenderContext * t * option (jsstring * jsstring * jsstring) :=
  if completionVisible v then (ctx, v, None) else submit ctx v.

Definition showStatus (message : jsstring) (error : bool) (v : t) : t :=
  set_status (statusContent message error) v.

End AddCollectionView.

(** ** views/rename-collection.ts *)

Module RenameCollectionView.

Record t := mk {
  currentNameText : StyledText;
  newNameInput : jsstring;
  statusText : StyledText;
  currentCollection : option QmdCli.Collection }.

Definition initial : t :=
  {| currentNameText := []; newNameInput := []; statusText := [];
     currentCollection := None |}.

Definition set_status (st : StyledText) (v : t) : t :=
  {| currentNameText := currentNameText v; newNameInput := newNameInput v;
     statusText := st; currentCollection := currentCollection v |}.

Definition show (collection : QmdCli.Collection) (v : t) : t :=
  {| currentNameText := plain (lit "  ") ++ bold_ (QmdCli.name collection);
     newNameInput := []; statusText := [];
     currentCollection := Some collection |}.

Definition focusInput (ctx : RenderContext) : RenderContext := focus rename_new_input ctx.

Definition reset (v : t) : t := initial.

(** [submit]: the second component is the call [onComplete(oldName,
    newName)], when it is made. *)
Definition submit (v : t) : t * option (jsstring * jsstring) :=
  let newName := trim (newNameInput v) in
  if negb (truthy newName) then
    (set_status (fg "#e06c75" (lit "Name is required.")) v, None)
  else
    match currentCollection v with
    | None => (v, None)
    | Some c => (v, Some (QmdCli.name c, newName))
    end.

Definition showStatus (message : jsstring) (error : bool) (v : t) : t :=
  set_status (statusContent message error) v.

End RenameCollectionView.

(** ** views/confirm-delete.ts *)

Module ConfirmDeleteView.

Record t := mk {
  messageText : StyledText;
  currentCollection : option QmdCli.Collection }.

Definition initial : t := {| messageText := []; currentCollection := None |}.

Definition show (collection : QmdCli.Collection) (v : t) : t :=
  {| messageText :=
       plain (lit "Delete collection ")
       ++ boldfg "#e06c75" ([34] ++ QmdCli.name collection ++ [34])
       ++ plain (lit "?");
     currentCollection := Some collection |}.

Definition focusSelect (ctx : RenderContext) : RenderContext :=
  focus confirm_delete_select ctx.

Definition reset (v : t) : t := initial.

(** What the [ITEM_SELECTED] listener calls. *)
Inductive Choice : Type :=
| onConfirm (name : jsstring)
| onCancel.

Definition onItemSelected (value : jsstring) (v : t) : Choice :=
  match currentCollection v with
  | Some c => if bool_decide (value = lit "yes") then onConfirm (QmdCli.name c) else onCancel
  | None => onCancel
  end.

End ConfirmDeleteView.

(** ** views/collections.ts *)

Module CollectionsView.

Record t := mk {
  collections : list QmdCli.Collection;
  options : list Files.SelectOption;
  selectedIndex : nat }.

Definition initial : t := {| collections := []; options := []; selectedIndex := 0 |}.

Definition find (name : jsstring) (cols : list QmdCli.Collection)
    : option QmdCli.Collection :=
  List.find (fun c => bool_decide (QmdCli.name c = name)) cols.

Definition getSelectedOption (v : t) : option Files.SelectOption :=
  options v !! selectedIndex v.

Definition getSelectedCollection (v : t) : option QmdCli.Collection :=
  match getSelectedOption v with
  | None => None
  | Some opt =>
      if bool_decide (Files.so_value opt = lit "__all__") then None
      else find (Files.so_value opt) (collections v)
  end.

Definition isAllSelected (v : t) : bool :=
  match getSelectedOption v with
  | None => true
  | Some opt => bool_decide (Files.so_value opt = lit "__all__")
  end.

Definition totalFiles (cols : list QmdCli.Collection) : N :=
  fold_left (fun sum c => sum + QmdCli.files c) cols 0.

Definition update (cols : list QmdCli.Collection) (v : t) : t :=
  {| collections := cols;
     options :=
       {| Files.so_name := lit "All (" ++ String_of_Z (Z.of_N (totalFiles cols)) ++ lit ")";
          Files.so_description :=
            String_of_Z (Z.of_nat (length cols)) ++ lit " collections";
          Files.so_value := lit "__all__" |}
       :: map (fun c =>
                 {| Files.so_name :=
                      QmdCli.name c ++ lit " ("
                      ++ String_of_Z (Z.of_N (QmdCli.files c)) ++ lit ")";
                    Files.so_description := lit "Updated: " ++ QmdCli.updated c;
                    Files.so_value := QmdCli.name c |}) cols;
     selectedIndex := selectedIndex v |}.

Definition focusSelect (ctx : RenderContext) : RenderContext :=
  focus collections_select ctx.

End CollectionsView.

(** ** views/detail.ts *)

Module DetailView.

Record t := mk {
  titleText : StyledText;
  patternText : StyledText;
  filesText : StyledText;
  updatedText : StyledText;
  statusText : StyledText }.

Definition initial : t :=
  {| titleText := []; patternText := []; filesText := []; updatedText := [];
     statusText := [] |}.

Definition show (collection : QmdCli.Collection) (v : t) : t :=
  {| titleText :=
       boldfg "#fab283" (QmdCli.name collection) ++ plain (lit " ")
       ++ fg "#808080" (lit "(" ++ QmdCli.uri collection ++ lit ")");
     patternText :=
       fg "#808080" (lit "Pattern:") ++ plain (lit "  " ++ QmdCli.pattern collection);
     filesText :=
       fg "#808080" (lit "Files:")
       ++ plain (lit "    " ++ String_of_Z (Z.of_N (QmdCli.files collection)));
     updatedText :=
       fg "#808080" (lit "Updated:") ++ plain (lit "  " ++ QmdCli.updated collection);
     statusText := statusText v |}.

Definition showAll (cols : list QmdCli.Collection) (v : t) : t :=
  {| titleText := boldfg "#fab283" (lit "All Collections");
     patternText :=
       fg "#808080" (lit "Collections:")
       ++ plain (lit "  " ++ String_of_Z (Z.of_nat (length cols)));
     filesText :=
       fg "#808080" (lit "Total files:")
       ++ plain (lit "  " ++ String_of_Z (Z.of_N (CollectionsView.totalFiles cols)));
     updatedText := [];
     statusText := statusText v |}.

Definition showStatus (message : jsstring) (error : bool) (v : t) : t :=
  {| titleText := titleText v; patternText := patternText v;
     filesText := filesText v; updatedText := updatedText v;
     statusText := statusContent message error |}.

Definition clear (v : t) : t := initial.

End DetailView.

(** ** views/search.ts *)

Module SearchView.

Inductive SearchMode : Type := mode_search | mode_vsearch | mode_query.

Definition SEARCH_MODES : list (SearchMode * string) :=
  [(mode_search, "Search"%string); (mode_vsearch, "Vector"%string);
   (mode_query, "Query"%string)].

Section SearchView.

Variable number : Type.
(** [`${Math.round(score * 100)}`] *)
Variable percent : number -> jsstring.

Record t := mk {
  input : jsstring;
  results : list (Mcp.SearchResult number);
  resultsList_options : list Files.SelectOption;
  label : StyledText;
  statusText : StyledText;
  modeIndex : nat;
  selectedCollection : option jsstring }.

Definition mode (v : t) : SearchMode :=
  default mode_search (fst <$> SEARCH_MODES !! modeIndex v).

Definition modeLabel (v : t) : jsstring :=
  lit (default ""%string (snd <$> SEARCH_MODES !! modeIndex v)).

Definition scopeLabel (v : t) : jsstring :=
  default (lit "All") (selectedCollection v).

Definition makeLabelContent (v : t) : StyledText :=
  boldfg "#fab283" (modeLabel v) ++ plain (lit " ")
  ++ fg "#808080" (lit "[" ++ scopeLabel v ++ lit "]")
  ++ boldfg "#fab283" (lit ":").

Definition set_label (v : t) : t :=
  {| input := input v; results := results v;
     resultsList_options := resultsList_options v;
     label := makeLabelContent v; statusText := statusText v;
     modeIndex := modeIndex v; selectedCollection := selectedCollection v |}.

Definition initial : t :=
  set_label
    {| input := []; results := []; resultsList_options := []; label := [];
       statusText := []; modeIndex := 0; selectedCollection := None |}.

Definition cycleMode (v : t) : t :=
  set_label
    {| input := input v; results := results v;
       resultsList_options := resultsList_options v;
       label := label v; statusText := statusText v;
       modeIndex := ((modeIndex v + 1) mod length SEARCH_MODES)%nat;
       selectedCollection := selectedCollection v |}.

Definition setCollection (name : option jsstring) (v : t) : t :=
  set_label
    {| input := input v; results := results v;
       resultsList_options := resultsList_options v;
       label := label v; statusText := statusText v;
       modeIndex := modeIndex v; selectedCollection := name |}.

Definition set_status (st : StyledText) (v : t) : t :=
  {| input := input v; results := results v;
     resultsList_options := resultsList_options v;
     label := label v; statusText := st;
     modeIndex := modeIndex v; selectedCollection := selectedCollection v |}.

Definition set_results (rs : list (Mcp.SearchResult number))
    (opts : list Files.SelectOption) (v : t) : t :=
  {| input := input v; results := rs; resultsList_options := opts;
     label := label v; statusText := statusText v;
     modeIndex := modeIndex v; selectedCollection := selectedCollection v |}.

Definition resultOption (r : Mcp.SearchResult number) : Files.SelectOption :=
  {| Files.so_name := Mcp.title r;
     Files.so_description := percent (Mcp.score r) ++ lit "% | " ++ Mcp.file r;
     Files.so_value := Mcp.file r |}.

(** [performSearch]: [Throw] in the second component is an exception that
    leaves the method, that is a rejection of the promise it returns. *)
Definition performSearch (mcp : Mcp.QmdMcpClient number) (query : jsstring) (v : t)
    : t * Result unit :=
  if negb (truthy (trim query)) then (v, Ok tt)
  else
    let continue (v : t) : t * Result unit :=
      let statusMsg :=
        match mode v with
        | mode_query => lit "Querying (LLM)..."
        | _ => lit "Searching..."
        end in
      let v := set_status (fg "#808080" statusMsg) v in
      let v := set_results [] [] v in
      let opts := Some (Mcp.mkSearchOpts None (selectedCollection v)) in
      let outcome :=
        match mode v with
        | mode_search => Mcp.mcp_search mcp query opts
        | mode_vsearch => Mcp.mcp_vectorSearch mcp query opts
        | mode_query => Mcp.mcp_deepSearch mcp query opts
        end in
      match outcome with
      | Ok rs =>
          let v := set_results rs [] v in
          match rs with
          | [] => (set_status (fg "#f5a742" (lit "No results found.")) v, Ok tt)
          | _ :: _ =>
              let v :=
                set_status
                  (fg "#7fd88f" (String_of_Z (Z.of_nat (length rs)) ++ lit " results")) v in
              (set_results rs (map resultOption rs) v, Ok tt)
          end
      | Throw err =>
          (set_status (fg "#e06c75" (lit "Error: " ++ Error_toString err)) v, Ok tt)
      end in
    match mode v with
    | mode_search => continue v
    | _ =>
        match Mcp.mcp_status mcp with
        | Throw e => (v, Throw e)
        | Ok status =>
            if (0 <? Mcp.needsEmbedding status) && negb (Mcp.hasVectorIndex status) then
              (set_status
                 (fg "#f5a742" (lit "No embeddings yet. Run 'qmd embed' first.")) v,
               Ok tt)
            else continue v
        end
    end.

Definition clear (v : t) : t :=
  {| input := []; results := []; resultsList_options := [];
     label := label v; statusText := [];
     modeIndex := modeIndex v; selectedCollection := selectedCollection v |}.

End SearchView.

Arguments input {number}.
Arguments results {number}.
Arguments resultsList_options {number}.
Arguments label {number}.
Arguments statusText {number}.
Arguments modeIndex {number}.
Arguments selectedCollection {number}.
Arguments mode {number}.
Arguments modeLabel {number}.
Arguments scopeLabel {number}.
Arguments initial {number}.
Arguments cycleMode {number}.
Arguments setCollection {number}.
Arguments clear {number}.
Arguments performSearch {number}.

Definition focusInput (ctx : RenderContext) : RenderContext := focus search_input ctx.
Definition focusResults (ctx : RenderContext) : RenderContext := focus search_results ctx.

End SearchView.

(** ** views/document.ts *)

Module DocumentView.

Section DocumentView.

Variable number : Type.
Variable yaml : Frontmatter.Yaml.

Record t := mk {
  currentFile : option jsstring;
  currentTitle : option jsstring;
  currentContent : option jsstring;
  headerText : StyledText;
  contentMarkdown : jsstring;
  scrollTop : nat }.

Definition initial : t :=
  {| currentFile := None; currentTitle := None; currentContent := None;
     headerText := []; contentMarkdown := []; scrollTop := 0 |}.

Definition header (title file : jsstring) : StyledText :=
  boldfg "#fab283" title ++ plain (lit " ")
  ++ fg "#808080" (lit "(" ++ file ++ lit ")").

(** The title found in the front matter of [text], if any: the inner
    [try] of [load], whose [catch] is empty. *)
Definition frontmatterTitle (text : jsstring) : option jsstring :=
  let fmMatch := Regex.matchStart Frontmatter.pattern text in
  match fmMatch with
  | None => None
  | Some _ =>
      match Frontmatter.parse yaml (default [] (Regex.group 1 fmMatch)) with
      | Throw _ => None
      | Ok fm =>
          if Frontmatter.nullish yaml fm then None
          else Frontmatter.titleOf yaml fm
      end
  end.

(** [load]: like [performSearch], with the exception that leaves the
    method, if any. *)
Definition load (mcp : Mcp.QmdMcpClient number) (file title : jsstring) (v : t)
    : t * Result unit :=
  let v :=
    {| currentFile := Some file; currentTitle := Some title;
       currentContent := None; headerText := header title file;
       contentMarkdown := lit "*Loading...*"; scrollTop := scrollTop v |} in
  match Mcp.mcp_getDocument mcp file (Some (Mcp.mkDocOpts None (Some false))) with
  | Ok text =>
      let v :=
        {| currentFile := currentFile v; currentTitle := currentTitle v;
           currentContent := Some text; headerText := headerText v;
           contentMarkdown := contentMarkdown v; scrollTop := scrollTop v |} in
      let v :=
        match frontmatterTitle text with
        | Some fmTitle =>
            {| currentFile := currentFile v; currentTitle := Some fmTitle;
               currentContent := currentContent v;
               headerText := header fmTitle file;
               contentMarkdown := contentMarkdown v; scrollTop := scrollTop v |}
        | None => v
        end in
      ({| currentFile := currentFile v; currentTitle := currentTitle v;
          currentContent := currentContent v; headerText := headerText v;
          contentMarkdown := text; scrollTop := 0 |}, Ok tt)
  | Throw err =>
      ({| currentFile := currentFile v; currentTitle := currentTitle v;
          currentContent := currentContent v; headerText := headerText v;
          contentMarkdown := lit "**Error:** " ++ Error_toString err;
          scrollTop := scrollTop v |}, Ok tt)
  end.

Definition clear (v : t) : t := initial.

End DocumentView.

Definition focusContainer (ctx : RenderContext) : RenderContext := focus document_scroll ctx.

End DocumentView.

(** ** app.ts: the preview page *)

Module PreviewPage.

(** The page of [buildPreviewHtml], cut at its four interpolations. *)
Definition dq : jsstring := [34].
Definition nl : jsstring := [10].

Definition page_head : jsstring :=
  lit "<!DOCTYPE html>" ++ nl
  ++ lit "<html><head>" ++ nl
  ++ lit "<meta charset=" ++ dq ++ lit "utf-8" ++ dq ++ lit ">" ++ nl
  ++ lit "<meta name=" ++ dq ++ lit "viewport" ++ dq ++ lit " content=" ++ dq ++ lit "width=device-width, initial-scale=1" ++ dq ++ lit ">" ++ nl
  ++ lit "<title>".

Definition page_title_end : jsstring :=
  lit "</title>" ++ nl
  ++ lit "<style>" ++ nl
  ++ lit "  body { font-family: -apple-system, BlinkMacSystemFont, " ++ dq ++ lit "Segoe UI" ++ dq ++ lit ", Helvetica, Arial, sans-serif; max-width: 800px; margin: 0 auto; padding: 2rem; line-height: 1.6; color: #24292f; }" ++ nl
  ++ lit "  h1 { border-bottom: 1px solid #d0d7de; padding-bottom: 0.3em; }" ++ nl
  ++ lit "  .frontmatter { background: #f6f8fa; border: 1px solid #d0d7de; border-radius: 6px; padding: 1rem; margin-bottom: 1.5rem; }" ++ nl
  ++ lit "  .frontmatter dl { margin: 0; display: grid; grid-template-columns: auto 1fr; gap: 0.25rem 1rem; }" ++ nl
  ++ lit "  .frontmatter dt { font-weight: 600; color: #57606a; }" ++ nl
  ++ lit "  .frontmatter dd { margin: 0; }" ++ nl
  ++ lit "  img { max-width: 100%; }" ++ nl
  ++ lit "  pre { background: #f6f8fa; border-radius: 6px; padding: 1rem; overflow-x: auto; }" ++ nl
  ++ lit "  code { background: #f6f8fa; border-radius: 3px; padding: 0.2em 0.4em; font-size: 85%; }" ++ nl
  ++ lit "  pre code { background: none; padding: 0; }" ++ nl
  ++ lit "  blockquote { border-left: 4px solid #d0d7de; margin: 0; padding: 0 1rem; color: #57606a; }" ++ nl
  ++ lit "  table { border-collapse: collapse; width: 100%; }" ++ nl
  ++ lit "  th, td { border: 1px solid #d0d7de; padding: 0.5rem; text-align: left; }" ++ nl
  ++ lit "  th { background: #f6f8fa; }" ++ nl
  ++ lit "</style>" ++ nl
  ++ lit "</head><body>" ++ nl
  ++ lit "<h1>".

Definition page_h1_end : jsstring :=
  lit "</h1>" ++ nl.

Definition page_sep : jsstring :=
  nl.

Definition page_tail : jsstring :=
  nl
  ++ lit "<script>" ++ nl
  ++ lit "  let lastVersion = '';" ++ nl
  ++ lit "  setInterval(async () => {" ++ nl
  ++ lit "    try {" ++ nl
  ++ lit "      const res = await fetch('/version');" ++ nl
  ++ lit "      const v = await res.text();" ++ nl
  ++ lit "      if (lastVersion && v !== lastVersion) location.reload();" ++ nl
  ++ lit "      lastVersion = v;" ++ nl
  ++ lit "    } catch {}" ++ nl
  ++ lit "  }, 500);" ++ nl
  ++ lit "</script>" ++ nl
  ++ lit "</body></html>".

(** [s.replace(/c/g, by_)] for a pattern of one code unit. *)
Definition replaceAll (c : N) (by_ : jsstring) (s : jsstring) : jsstring :=
  d ← s; if d =? c then by_ else [d].

Definition escapeHtml (s : jsstring) : jsstring :=
  replaceAll 34 (lit "&quot;")
    (replaceAll 62 (lit "&gt;")
       (replaceAll 60 (lit "&lt;")
          (replaceAll 38 (lit "&amp;") s))).

(** [/\.md$/i] *)
Definition mdSuffix : Regex.re :=
  Regex.Seqs [Regex.Chr 46;
              Regex.Cls (fun c => (c =? 109) || (c =? 77));
              Regex.Cls (fun c => (c =? 100) || (c =? 68));
              Regex.Eol].

Section PreviewPage.

Variable yaml : Frontmatter.Yaml.
(** [marked.parse(body, { async: false })] *)
Variable marked_parse : jsstring -> Result jsstring.

(** [filePath.split("/").pop()?.replace(/\.md$/i, "") ?? "Preview"] *)
Definition defaultTitle (filePath : jsstring) : jsstring :=
  default (lit "Preview") (Regex.removeFirst mdSuffix <$> last (splitOn 47 filePath)).

Definition frontmatterEntry (kv : jsstring * Frontmatter.value yaml) : jsstring :=
  lit "<dt>" ++ escapeHtml kv.1 ++ lit "</dt><dd>"
  ++ escapeHtml (Frontmatter.toString yaml kv.2) ++ lit "</dd>".

(** The entries the page lists: all but [title]. *)
Definition listedEntries (fm : Frontmatter.value yaml)
    : list (jsstring * Frontmatter.value yaml) :=
  filter (fun kv => kv.1 ≠ lit "title") (Frontmatter.entries yaml fm).

Definition renderFrontmatter (entries : list (jsstring * Frontmatter.value yaml))
    : jsstring :=
  match entries with
  | [] => []
  | _ :: _ =>
      lit "<div class=" ++ dq ++ lit "frontmatter" ++ dq ++ lit "><dl>"
      ++ JS.join [] (map frontmatterEntry entries) ++ lit "</dl></div>"
  end.

(** The first half of [buildPreviewHtml]: the body without its front
    matter, the title and the rendered front matter. *)
Definition readFrontmatter (rawContent filePath : jsstring)
    : jsstring * jsstring * jsstring :=
  let title := defaultTitle filePath in
  let fmMatch := Regex.matchStart Frontmatter.pattern rawContent in
  match fmMatch with
  | None => (rawContent, title, [])
  | Some m =>
      let body := drop (length (Regex.matched m)) rawContent in
      match Frontmatter.parse yaml (default [] (Regex.group 1 fmMatch)) with
      | Throw _ => (body, title, [])
      | Ok fm =>
          if Frontmatter.nullish yaml fm then (body, title, [])
          else
            let title := default title (Frontmatter.titleOf yaml fm) in
            (body, title, renderFrontmatter (listedEntries fm))
      end
  end.

Definition buildPreviewHtml (rawContent filePath : jsstring) : Result jsstring :=
  let '(body, title, frontmatterHtml) := readFrontmatter rawContent filePath in
  match marked_parse body with
  | Throw e => Throw e
  | Ok htmlBody =>
      Ok (page_head ++ escapeHtml title ++ page_title_end ++ escapeHtml title
          ++ page_h1_end ++ frontmatterHtml ++ page_sep ++ htmlBody ++ page_tail)
  end.

End PreviewPage.
End PreviewPage.

(** ** app.ts *)

Module App.

Inductive AppState : Type :=
| st_collections
| st_detail
| st_search
| st_document
| st_add_collection
| st_rename_collection
| st_delete_collection.

#[global] Instance AppState_eq_dec : EqDecision AppState.
Proof. solve_decision. Defined.

Inductive FocusArea : Type := sidebar | main.

#[global] Instance FocusArea_eq_dec : EqDecision FocusArea.
Proof. solve_decision. Defined.

(** *** The runtime under the preview

    [setTimeout] and [clearTimeout] work on a table of pending timeouts; the
    only callback the application ever schedules is [previewVersion++], so a
    pending timeout is its due time.  [fs.watch] returns a watcher whose
    listener closes over [watchedName] and [debounce]; [Bun.serve] returns a
    server listening on a port. *)

Record WatchClosure := mkWatch {
  watchedDir : jsstring;
  watchedName : jsstring;
  debounce : option nat }.

Record Runtime := mkRuntime {
  now : Z;
  timers : gmap nat Z;
  nextTimer : nat;
  watchers : gmap nat WatchClosure;
  nextWatcher : nat;
  listening : gset Z;
  spawned : list (list jsstring) }.

Definition bootRuntime : Runtime :=
  {| now := 0; timers := ∅; nextTimer := 0; watchers := ∅; nextWatcher := 0;
     listening := ∅; spawned := [] |}.

Definition set_timers (ts : gmap nat Z) (next : nat) (rt : Runtime) : Runtime :=
  {| now := now rt; timers := ts; nextTimer := next; watchers := watchers rt;
     nextWatcher := nextWatcher rt; listening := listening rt; spawned := spawned rt |}.

Definition set_watchers (ws : gmap nat WatchClosure) (next : nat) (rt : Runtime) : Runtime :=
  {| now := now rt; timers := timers rt; nextTimer := nextTimer rt; watchers := ws;
     nextWatcher := next; listening := listening rt; spawned := spawned rt |}.

Definition set_listening (ps : gset Z) (rt : Runtime) : Runtime :=
  {| now := now rt; timers := timers rt; nextTimer := nextTimer rt;
     watchers := watchers rt; nextWatcher := nextWatcher rt; listening := ps;
     spawned := spawned rt |}.

Definition add_spawned (argv : list jsstring) (rt : Runtime) : Runtime :=
  {| now := now rt; timers := timers rt; nextTimer := nextTimer rt;
     watchers := watchers rt; nextWatcher := nextWatcher rt;
     listening := listening rt; spawned := spawned rt ++ [argv] |}.

(** [watcher.close()] *)
Definition closeWatcher (w : nat) (rt : Runtime) : Runtime :=
  set_watchers (delete w (watchers rt)) (nextWatcher rt) rt.

(** [server.stop()] *)
Definition stopServer (port : Z) (rt : Runtime) : Runtime :=
  set_listening (listening rt ∖ {[port]}) rt.

(** *** The fields of [App] *)

Record Navigation := mkNav {
  state : AppState;
  previousState : AppState;
  focusArea : FocusArea;
  mainPanel_title : jsstring;
  (** the view whose container is the child of the main panel *)
  mainPanel_child : AppState }.

(** [previewServer] is the port of the server, [previewWatcher] the
    watcher; [None] is [null].  [previewVersion] counts in [N]: a number of
    JavaScript counts exactly up to 2^53. *)
Record Preview := mkPreview {
  previewServer : option Z;
  previewWatcher : option nat;
  previewVersion : N;
  previewFilePath : option jsstring;
  previewBaseDir : option jsstring }.

Section App.

Variable number : Type.
Variable percent : number -> jsstring.
Variable yaml : Frontmatter.Yaml.

Record Views := mkViews {
  collectionsView : CollectionsView.t;
  detailView : DetailView.t;
  searchView : SearchView.t number;
  documentView : DocumentView.t;
  addCollectionView : AddCollectionView.t;
  renameCollectionView : RenameCollectionView.t;
  confirmDeleteView : ConfirmDeleteView.t }.

(** The class keeps these fields side by side; they are grouped here by
    what they are for.  The footer is left out: its text is a function of
    [state] and of the mode and scope of the search view. *)
Record App := mkApp {
  renderer : RenderContext;
  runtime : Runtime;
  nav : Navigation;
  views : Views;
  collections : list QmdCli.Collection;
  preview : Preview }.

Definition set_renderer (x : RenderContext) (a : App) : App :=
  mkApp x (runtime a) (nav a) (views a) (collections a) (preview a).
Definition set_runtime (x : Runtime) (a : App) : App :=
  mkApp (renderer a) x (nav a) (views a) (collections a) (preview a).
Definition set_nav (x : Navigation) (a : App) : App :=
  mkApp (renderer a) (runtime a) x (views a) (collections a) (preview a).
Definition set_views (x : Views) (a : App) : App :=
  mkApp (renderer a) (runtime a) (nav a) x (collections a) (preview a).
Definition set_collections (x : list QmdCli.Collection) (a : App) : App :=
  mkApp (renderer a) (runtime a) (nav a) (views a) x (preview a).
Definition set_preview (x : Preview) (a : App) : App :=
  mkApp (renderer a) (runtime a) (nav a) (views a) (collections a) x.

Definition set_state (x : AppState) (a : App) : App :=
  let n := nav a in
  set_nav (mkNav x (previousState n) (focusArea n) (mainPanel_title n) (mainPanel_child n)) a.
Definition set_previousState (x : AppState) (a : App) : App :=
  let n := nav a in
  set_nav (mkNav (state n) x (focusArea n) (mainPanel_title n) (mainPanel_child n)) a.
Definition set_focusArea (x : FocusArea) (a : App) : App :=
  let n := nav a in
  set_nav (mkNav (state n) (previousState n) x (mainPanel_title n) (mainPanel_child n)) a.
Definition set_title (x : jsstring) (a : App) : App :=
  let n := nav a in
  set_nav (mkNav (state n) (previousState n) (focusArea n) x (mainPanel_child n)) a.
Definition set_child (x : AppState) (a : App) : App :=
  let n := nav a in
  set_nav (mkNav (state n) (previousState n) (focusArea n) (mainPanel_title n) x) a.

Definition set_collectionsView (x : CollectionsView.t) (a : App) : App :=
  let v := views a in
  set_views (mkViews x (detailView v) (searchView v) (documentView v)
               (addCollectionView v) (renameCollectionView v) (confirmDeleteView v)) a.
Definition set_detailView (x : DetailView.t) (a : App) : App :=
  let v := views a in
  set_views (mkViews (collectionsView v) x (searchView v) (documentView v)
               (addCollectionView v) (renameCollectionView v) (confirmDeleteView v)) a.
Definition set_searchView (x : SearchView.t number) (a : App) : App :=
  let v := views a in
  set_views (mkViews (collectionsView v) (detailView v) x (documentView v)
               (addCollectionView v) (renameCollectionView v) (confirmDeleteView v)) a.
Definition set_documentView (x : DocumentView.t) (a : App) : App :=
  let v := views a in
  set_views (mkViews (collectionsView v) (detailView v) (searchView v) x
               (addCollectionView v) (renameCollectionView v) (confirmDeleteView v)) a.
Definition set_addCollectionView (x : AddCollectionView.t) (a : App) : App :=
  let v := views a in
  set_views (mkViews (collectionsView v) (detailView v) (searchView v) (documentView v)
               x (renameCollectionView v) (confirmDeleteView v)) a.
Definition set_renameCollectionView (x : RenameCollectionView.t) (a : App) : App :=
  let v := views a in
  set_views (mkViews (collectionsView v) (detailView v) (searchView v) (documentView v)
               (addCollectionView v) x (confirmDeleteView v)) a.
Definition set_confirmDeleteView (x : ConfirmDeleteView.t) (a : App) : App :=
  let v := views a in
  set_views (mkViews (collectionsView v) (detailView v) (searchView v) (documentView v)
               (addCollectionView v) (renameCollectionView v) x) a.

Definition set_previewServer (x : option Z) (a : App) : App :=
  let p := preview a in
  set_preview (mkPreview x (previewWatcher p) (previewVersion p)
                 (previewFilePath p) (previewBaseDir p)) a.
Definition set_previewWatcher (x : option nat) (a : App) : App :=
  let p := preview a in
  set_preview (mkPreview (previewServer p) x (previewVersion p)
                 (previewFilePath p) (previewBaseDir p)) a.
Definition set_previewVersion (x : N) (a : App) : App :=
  let p := preview a in
  set_preview (mkPreview (previewServer p) (previewWatcher p) x
                 (previewFilePath p) (previewBaseDir p)) a.
Definition set_previewTarget (file dir : jsstring) (a : App) : App :=
  let p := preview a in
  set_preview (mkPreview (previewServer p) (previewWatcher p) (previewVersion p)
                 (Some file) (Some dir)) a.

(** The constructor. *)
Definition new : App :=
  {| renderer := mkCtx None false;
     runtime := bootRuntime;
     nav := mkNav st_collections st_detail sidebar (lit "Collection") st_detail;
     views :=
       mkViews CollectionsView.initial DetailView.initial SearchView.initial
         DocumentView.initial AddCollectionView.initial
         RenameCollectionView.initial ConfirmDeleteView.initial;
     collections := [];
     preview := mkPreview None None 0 None None |}.

Definition switchMainView (target : AppState) (a : App) : App :=
  let a :=
    if bool_decide (target ≠ state (nav a))
    then set_previousState (state (nav a)) a
    else a in
  let a := set_state target a in
  let a := set_child target a in
  match target with
  | st_add_collection => set_title (lit "Add Collection") a
  | st_rename_collection => set_title (lit "Rename Collection") a
  | st_delete_collection => set_title (lit "Delete Collection") a
  | _ => a
  end.

Definition showDetail (collection : QmdCli.Collection) (a : App) : App :=
  let a := switchMainView st_detail a in
  let a := set_detailView (DetailView.show collection (detailView (views a))) a in
  set_title (lit "Collection") a.

Definition showSelected (a : App) : App :=
  match CollectionsView.getSelectedCollection (collectionsView (views a)) with
  | Some col => set_detailView (DetailView.show col (detailView (views a))) a
  | None => a
  end.

Definition enterSearch (a : App) : App :=
  let a := switchMainView st_search a in
  let a := set_state st_search a in
  let selectedCol := CollectionsView.getSelectedCollection (collectionsView (views a)) in
  let a :=
    set_searchView
      (SearchView.setCollection (QmdCli.name <$> selectedCol) (searchView (views a))) a in
  let a := set_renderer (SearchView.focusInput (renderer a)) a in
  set_title (lit "Search") a.

Definition leaveSearch (a : App) : App :=
  let a := set_state st_detail a in
  let a := switchMainView st_detail a in
  let a := showSelected a in
  let a := set_title (lit "Collection") a in
  let a := set_renderer (CollectionsView.focusSelect (renderer a)) a in
  set_focusArea sidebar a.

(** [stopPreview] *)
Definition stopPreview (a : App) : App :=
  match previewWatcher (preview a) with
  | Some w =>
      let a := set_runtime (closeWatcher w (runtime a)) a in
      set_previewWatcher None a
  | None => a
  end.

(** [cleanup] *)
Definition cleanup (a : App) : App :=
  let a := stopPreview a in
  match previewServer (preview a) with
  | Some port =>
      let a := set_runtime (stopServer port (runtime a)) a in
      set_previewServer None a
  | None => a
  end.

Definition leaveDocument (a : App) : App :=
  let a := stopPreview a in
  if bool_decide (previousState (nav a) = st_search) then
    let a := switchMainView st_search a in
    let a := set_state st_search a in
    let a := set_title (lit "Search") a in
    set_renderer (SearchView.focusResults (renderer a)) a
  else
    let a := switchMainView st_detail a in
    let a := set_state st_detail a in
    let a := set_title (lit "Collection") a in
    let a := set_renderer (CollectionsView.focusSelect (renderer a)) a in
    set_focusArea sidebar a.

Definition enterAddCollection (a : App) : App :=
  let a := set_addCollectionView (AddCollectionView.reset (addCollectionView (views a))) a in
  let a := switchMainView st_add_collection a in
  let '(ctx, v) := AddCollectionView.focusFirst (renderer a) (addCollectionView (views a)) in
  set_addCollectionView v (set_renderer ctx a).

Definition enterRenameCollection (a : App) : App :=
  match CollectionsView.getSelectedCollection (collectionsView (views a)) with
  | None => a
  | Some col =>
      let v := RenameCollectionView.reset (renameCollectionView (views a)) in
      let v := RenameCollectionView.show col v in
      let a := set_renameCollectionView v a in
      let a := switchMainView st_rename_collection a in
      set_renderer (RenameCollectionView.focusInput (renderer a)) a
  end.

Definition enterDeleteCollection (a : App) : App :=
  match CollectionsView.getSelectedCollection (collectionsView (views a)) with
  | None => a
  | Some col =>
      let a :=
        set_confirmDeleteView
          (ConfirmDeleteView.show col (confirmDeleteView (views a))) a in
      let a := switchMainView st_delete_collection a in
      set_renderer (ConfirmDeleteView.focusSelect (renderer a)) a
  end.

Definition leaveManagement (a : App) : App :=
  let a := switchMainView st_detail a in
  let a := set_state st_detail a in
  let a := showSelected a in
  let a := set_title (lit "Collection") a in
  let a := set_renderer (CollectionsView.focusSelect (renderer a)) a in
  set_focusArea sidebar a.

Definition handleTab (a : App) : App :=
  if bool_decide (state (nav a) = st_search) then
    if isFocused search_input (renderer a)
    then set_renderer (SearchView.focusResults (renderer a)) a
    else set_renderer (SearchView.focusInput (renderer a)) a
  else
    match focusArea (nav a) with
    | sidebar =>
        let a := set_focusArea main a in
        if bool_decide (state (nav a) = st_document)
        then set_renderer (DocumentView.focusContainer (renderer a)) a
        else a
    | main =>
        let a := set_focusArea sidebar a in
        set_renderer (CollectionsView.focusSelect (renderer a)) a
    end.

Definition handleEscape (a : App) : App :=
  match state (nav a) with
  | st_document => leaveDocument a
  | st_search => leaveSearch a
  | _ => a
  end.


(** *** The qmd operations and the host, as the controller sees them *)

Variable mcp : Mcp.QmdMcpClient number.
Variable spawn : list jsstring -> Result Proc.
Variable readText : jsstring -> Result jsstring.
Variable YAML_parse_config : jsstring -> Result (QmdCli.Unchecked QmdCli.QmdConfig).
Variable nullishMessage : string -> QmdCli.Nullish -> jsstring -> jsstring.
Variable path_join : list jsstring -> jsstring.
Variable XDG_CONFIG_HOME : option jsstring.
Variable HOME : jsstring.
Variable exists_ : jsstring -> bool.
Variable readdir : jsstring -> Result (list jsstring).
Variable toLowerCase : jsstring -> jsstring.

Let listCollections :=
  QmdCli.listCollections spawn readText YAML_parse_config nullishMessage path_join
    XDG_CONFIG_HOME HOME.
Let addCollection := QmdCli.addCollection spawn path_join HOME.
Let removeCollection := QmdCli.removeCollection spawn.
Let renameCollection := QmdCli.renameCollection spawn.
Let embed := QmdCli.embed spawn.
Let resolveQmdUri := QmdCli.resolveQmdUri path_join exists_ readdir toLowerCase.

(** The asynchronous methods run to their end in one step; the [Result]
    next to the new state is [Throw] when the promise is rejected, that is
    when an exception leaves the method. *)

Definition refreshCollections (a : App) : App * Result unit :=
  match listCollections with
  | Throw e => (a, Throw e)
  | Ok cols =>
      let a := set_collections cols a in
      (set_collectionsView (CollectionsView.update cols (collectionsView (views a))) a,
       Ok tt)
  end.

Definition showDocument (file title : jsstring) (a : App) : App * Result unit :=
  let a := switchMainView st_document a in
  let a := set_state st_document a in
  let a := set_title title a in
  let a := set_renderer (DocumentView.focusContainer (renderer a)) a in
  let '(v, r) := DocumentView.load number yaml mcp file title (documentView (views a)) in
  let a := set_documentView v a in
  match r with
  | Throw e => (a, Throw e)
  | Ok _ =>
      match DocumentView.currentTitle (documentView (views a)) with
      | Some fmTitle =>
          if truthy fmTitle && bool_decide (fmTitle ≠ title)
          then (set_title fmTitle a, Ok tt)
          else (a, Ok tt)
      | None => (a, Ok tt)
      end
  end.

(** [addCollectionView.onComplete] *)
Definition addOnComplete (path name pattern : jsstring) (a : App) : App * Result unit :=
  let a :=
    set_addCollectionView
      (AddCollectionView.showStatus (lit "Indexing...") false (addCollectionView (views a))) a in
  let caught (err : Error) (a : App) : App * Result unit :=
    (set_addCollectionView
       (AddCollectionView.showStatus (lit "Error: " ++ Error_toString err) true
          (addCollectionView (views a))) a, Ok tt) in
  match addCollection path name
          (if bool_decide (pattern ≠ lit "**/*.md") then Some pattern else None) with
  | Throw err => caught err a
  | Ok _ =>
      match refreshCollections a with
      | (a, Throw err) => caught err a
      | (a, Ok _) => (leaveManagement a, Ok tt)
      end
  end.

(** [renameCollectionView.onComplete] *)
Definition renameOnComplete (oldName newName : jsstring) (a : App) : App * Result unit :=
  let a :=
    set_renameCollectionView
      (RenameCollectionView.showStatus (lit "Renaming...") false
         (renameCollectionView (views a))) a in
  let caught (err : Error) (a : App) : App * Result unit :=
    (set_renameCollectionView
       (RenameCollectionView.showStatus (lit "Error: " ++ Error_toString err) true
          (renameCollectionView (views a))) a, Ok tt) in
  match renameCollection oldName newName with
  | Throw err => caught err a
  | Ok _ =>
      match refreshCollections a with
      | (a, Throw err) => caught err a
      | (a, Ok _) => (leaveManagement a, Ok tt)
      end
  end.

(** [confirmDeleteView.onConfirm]; its [catch] block is empty: "Stay in
    delete view on error". *)
Definition deleteOnConfirm (name : jsstring) (a : App) : App * Result unit :=
  match removeCollection name with
  | Throw err => (a, Ok tt)
  | Ok _ =>
      match refreshCollections a with
      | (a, Throw err) => (a, Ok tt)
      | (a, Ok _) => (leaveManagement a, Ok tt)
      end
  end.

Definition runEmbed (a : App) : App * Result unit :=
  let prevTitle := mainPanel_title (nav a) in
  let a := set_title (lit "Embedding...") a in
  let a :=
    set_detailView
      (DetailView.showStatus (lit "Creating embeddings, this may take a while...") false
         (detailView (views a))) a in
  let a :=
    match embed with
    | Ok _ =>
        set_detailView
          (DetailView.showStatus (lit "Embeddings created.") false (detailView (views a))) a
    | Throw err =>
        set_detailView
          (DetailView.showStatus (lit "Error: " ++ Error_toString err) true
             (detailView (views a))) a
    end in
  (set_title prevTitle a, Ok tt).

(** *** The live preview *)

Variable marked_parse : jsstring -> Result jsstring.
Variable dirname : jsstring -> jsstring.
Variable basename : jsstring -> jsstring.
(** [decodeURIComponent]; [Throw] is its [URIError]. *)
Variable decodeURIComponent : jsstring -> Result jsstring.
(** The port the system gives to [Bun.serve({ port: 0 })]. *)
Variable pickPort : gset Z -> Z.
(** [fs.watch(dir, listener)] throws when it cannot watch [dir]. *)
Variable watchError : jsstring -> option Error.
(** [process.env.EDITOR] *)
Variable EDITOR : option jsstring.

Inductive Body : Type :=
| text_body (s : jsstring)
| file_body (path : jsstring).

Record Response := mkResponse {
  body : Body;
  status : Z;
  headers : list (jsstring * jsstring) }.

(** The [fetch] handler of the server; it reads the fields of the
    application at the time of the request. *)
Definition fetch (a : App) (pathname : jsstring) : Result Response :=
  if bool_decide (pathname = lit "/version") then
    Ok (mkResponse (text_body (String_of_Z (Z.of_N (previewVersion (preview a))))) 200
          [(lit "Cache-Control", lit "no-cache")])
  else if bool_decide (pathname = lit "/") then
    match previewFilePath (preview a) with
    | Some filePath =>
        if truthy filePath then
          match readText filePath with
          | Throw err =>
              Ok (mkResponse (text_body (lit "Error: " ++ Error_toString err)) 500 [])
          | Ok content =>
              match PreviewPage.buildPreviewHtml yaml marked_parse content filePath with
              | Throw err =>
                  Ok (mkResponse (text_body (lit "Error: " ++ Error_toString err)) 500 [])
              | Ok html =>
                  Ok (mkResponse (text_body html) 200
                        [(lit "Content-Type", lit "text/html; charset=utf-8")])
              end
          end
        else Ok (mkResponse (text_body (lit "No file selected")) 404 [])
    | None => Ok (mkResponse (text_body (lit "No file selected")) 404 [])
    end
  else
    let notFound := Ok (mkResponse (text_body (lit "Not found")) 404 []) in
    match previewBaseDir (preview a) with
    | Some baseDir =>
        if truthy baseDir then
          match decodeURIComponent pathname with
          | Throw e => Throw e
          | Ok reqPath =>
              let filePath := path_join [baseDir; reqPath] in
              if exists_ filePath then Ok (mkResponse (file_body filePath) 200 [])
              else notFound
          end
        else notFound
    | None => notFound
    end.

Definition ensurePreviewServer (a : App) : App * Z :=
  match previewServer (preview a) with
  | Some port => (a, port)
  | None =>
      let port := pickPort (listening (runtime a)) in
      let a := set_runtime (set_listening (listening (runtime a) ∪ {[port]}) (runtime a)) a in
      (set_previewServer (Some port) a, port)
  end.

(** [setTimeout(() => { this.previewVersion++ }, delay)] *)
Definition setTimeout (delay : Z) (rt : Runtime) : nat * Runtime :=
  (nextTimer rt,
   set_timers (<[nextTimer rt := (now rt + delay)%Z]> (timers rt)) (S (nextTimer rt)) rt).

Definition clearTimeout (id : nat) (rt : Runtime) : Runtime :=
  set_timers (delete id (timers rt)) (nextTimer rt) rt.

(** The listener given to [watch] in [openPreview], for the watcher [w];
    [filename] is [None] for [null]. *)
Definition watchListener (w : nat) (filename : option jsstring) (a : App) : App :=
  match watchers (runtime a) !! w with
  | None => a
  | Some closure =>
      let skip :=
        match filename with
        | Some f => truthy f && bool_decide (f ≠ watchedName closure)
        | None => false
        end in
      if skip then a
      else
        let rt := runtime a in
        let rt :=
          match debounce closure with
          | Some id => clearTimeout id rt
          | None => rt
          end in
        let '(id, rt) := setTimeout 100 rt in
        let closure :=
          mkWatch (watchedDir closure) (watchedName closure) (Some id) in
        set_runtime (set_watchers (<[w := closure]> (watchers rt)) (nextWatcher rt) rt) a
  end.

(** The event loop reaches time [t]: every timeout due by then has run. *)
Definition elapse (t : Z) (a : App) : App :=
  let rt := runtime a in
  let fired := filter (fun kv => (kv.2 <=? t)%Z = true) (timers rt) in
  let pending := filter (fun kv => (kv.2 <=? t)%Z = false) (timers rt) in
  let rt :=
    {| now := Z.max (now rt) t; timers := pending; nextTimer := nextTimer rt;
       watchers := watchers rt; nextWatcher := nextWatcher rt;
       listening := listening rt; spawned := spawned rt |} in
  set_previewVersion (previewVersion (preview a) + N.of_nat (size fired))
    (set_runtime rt a).

(** What happens to a running preview: time passes, or the watcher [w]
    reports a change. *)
Inductive PreviewEvent : Type :=
| Elapsed (t : Z)
| Changed (w : nat) (filename : option jsstring).

Definition previewStep (a : App) (ev : PreviewEvent) : App :=
  match ev with
  | Elapsed t => elapse t a
  | Changed w filename => watchListener w filename a
  end.

Definition previewRun (evs : list PreviewEvent) (a : App) : App :=
  fold_left previewStep evs a.

(** Changes reported by [w] at the given times, one after the other. *)
Definition timed (w : nat) (evs : list (Z * option jsstring)) : list PreviewEvent :=
  tv ← evs; [Elapsed tv.1; Changed w tv.2].

Definition openPreview (a : App) : App * Result unit :=
  match DocumentView.currentFile (documentView (views a)) with
  | None => (set_title (lit "Preview: no file") a, Ok tt)
  | Some qmdUri =>
      if negb (truthy qmdUri) then (set_title (lit "Preview: no file") a, Ok tt)
      else
        let caught (err : Error) (a : App) : App * Result unit :=
          (set_title (lit "Preview error: " ++ Error_toString err) a, Ok tt) in
        match resolveQmdUri qmdUri (collections a) with
        | None => (set_title (lit "Preview: file not found") a, Ok tt)
        | Some filePath =>
            if negb (truthy filePath)
            then (set_title (lit "Preview: file not found") a, Ok tt)
            else
              let a := stopPreview a in
              let a := set_previewTarget filePath (dirname filePath) a in
              let '(a, port) := ensurePreviewServer a in
              let watchedName := basename filePath in
              match watchError (dirname filePath) with
              | Some err => caught err a
              | None =>
                  let rt := runtime a in
                  let w := nextWatcher rt in
                  let rt :=
                    set_watchers
                      (<[w := mkWatch (dirname filePath) watchedName None]> (watchers rt))
                      (S w) rt in
                  let a := set_previewWatcher (Some w) (set_runtime rt a) in
                  let argv :=
                    [lit "google-chrome";
                     lit "--app=http://localhost:" ++ String_of_Z port] in
                  match spawn argv with
                  | Throw err => caught err a
                  | Ok _ =>
                      let a := set_runtime (add_spawned argv (runtime a)) a in
                      (set_title
                         (default (lit "Preview")
                            (DocumentView.currentTitle (documentView (views a)))) a,
                       Ok tt)
                  end
              end
        end
  end.

Definition spawnEditor (filePath : jsstring) (a : App) : App * Result unit :=
  let editor :=
    match EDITOR with
    | Some e => or_else e (lit "vi")
    | None => lit "vi"
    end in
  match spawn [editor; filePath] with
  | Throw e => (a, Throw e)
  | Ok _ => (set_runtime (add_spawned [editor; filePath] (runtime a)) a, Ok tt)
  end.

Definition openInEditor (a : App) : App * Result unit :=
  match DocumentView.currentFile (documentView (views a)) with
  | None => (a, Ok tt)
  | Some qmdUri =>
      if negb (truthy qmdUri) then (a, Ok tt)
      else
        let fallback :=
          if negb (startsWith qmdUri (lit "qmd://")) then spawnEditor qmdUri a
          else (a, Ok tt) in
        match resolveQmdUri qmdUri (collections a) with
        | None => fallback
        | Some filePath =>
            if negb (truthy filePath) then fallback else spawnEditor filePath a
        end
  end.

(** *** The keyboard *)

Record KeyEvent := mkKey { key_name : jsstring; ctrl : bool; meta : bool }.

(** What a key press leaves behind: the application, whether
    [key.preventDefault()] was called, whether the path completion of the
    add form, which lists directories, was started, and the rejection of
    the method that was started and not awaited, if any. *)
Record Handled := mkHandled {
  app : App;
  defaultPrevented : bool;
  completionStarted : bool;
  rejection : Result unit }.

Definition handled (a : App) : Handled := mkHandled a true false (Ok tt).
Definition passed (a : App) : Handled := mkHandled a false false (Ok tt).
Definition started (r : App * Result unit) : Handled := mkHandled r.1 true false r.2.

Definition isManagement (s : AppState) : bool :=
  match s with
  | st_add_collection | st_rename_collection | st_delete_collection => true
  | _ => false
  end.

Definition named (key : KeyEvent) (n : string) : bool :=
  bool_decide (key_name key = lit n).

(** The [keypress] listener of [setupKeyboard]. *)
Definition keypress (key : KeyEvent) (a : App) : Handled :=
  let st := state (nav a) in
  if bool_decide (st = st_search) && named key "t" && ctrl key then
    handled (set_searchView (SearchView.cycleMode (searchView (views a))) a)
  else if bool_decide (st = st_search) && isFocused search_input (renderer a) then
    if named key "escape" then handled (leaveSearch a)
    else if named key "tab" then
      handled (set_renderer (SearchView.focusResults (renderer a)) a)
    else passed a
  else if isManagement st then
    if named key "escape" then
      let '(ctx, v, dismissed) :=
        if bool_decide (st = st_add_collection)
        then AddCollectionView.handleEscape (renderer a) (addCollectionView (views a))
        else (renderer a, addCollectionView (views a), false) in
      let a := set_addCollectionView v (set_renderer ctx a) in
      if dismissed then handled a else handled (leaveManagement a)
    else if named key "tab" && bool_decide (st = st_add_collection) then
      let '(ctx, v, completing) :=
        AddCollectionView.handleTab (renderer a) (addCollectionView (views a)) in
      mkHandled (set_addCollectionView v (set_renderer ctx a)) true completing (Ok tt)
    else passed a
  else if bool_decide (st = st_document) && named key "e" then
    started (openInEditor a)
  else if bool_decide (st = st_document) && named key "p" then
    started (openPreview (set_title (lit "Preview...") a))
  else if named key "q" && negb (ctrl key) && negb (meta key) then
    let a := cleanup a in
    handled (set_renderer (destroy (renderer a)) a)
  else if named key "escape" then handled (handleEscape a)
  else if named key "tab" then handled (handleTab a)
  else if named key "/" || named key "s" then handled (enterSearch a)
  else
    match focusArea (nav a) with
    | sidebar =>
        if named key "a" then handled (enterAddCollection a)
        else if named key "d" then handled (enterDeleteCollection a)
        else if named key "r" then handled (enterRenameCollection a)
        else if named key "e" then started (runEmbed a)
        else passed a
    | main => passed a
    end.

(** [start] *)
Definition start (a : App) : App :=
  let a :=
    match listCollections with
    | Ok cols =>
        let a := set_collections cols a in
        let a :=
          set_collectionsView (CollectionsView.update cols (collectionsView (views a))) a in
        let a := set_detailView (DetailView.showAll cols (detailView (views a))) a in
        set_title (lit "All Collections") a
    | Throw _ => set_detailView (DetailView.clear (detailView (views a))) a
    end in
  let a := set_renderer (CollectionsView.focusSelect (renderer a)) a in
  set_focusArea sidebar a.

End App.

Arguments App : clear implicits.
Arguments Views : clear implicits.
Arguments set_renderer {number}.
Arguments set_runtime {number}.
Arguments set_nav {number}.
Arguments set_views {number}.
Arguments set_collections {number}.
Arguments set_preview {number}.
Arguments set_state {number}.
Arguments set_previousState {number}.
Arguments set_focusArea {number}.
Arguments set_title {number}.
Arguments set_child {number}.
Arguments set_collectionsView {number}.
Arguments set_detailView {number}.
Arguments set_searchView {number}.
Arguments set_documentView {number}.
Arguments set_addCollectionView {number}.
Arguments set_renameCollectionView {number}.
Arguments set_confirmDeleteView {number}.
Arguments set_previewServer {number}.
Arguments set_previewWatcher {number}.
Arguments set_previewVersion {number}.
Arguments set_previewTarget {number}.
Arguments new {number}.
Arguments switchMainView {number}.
Arguments showDetail {number}.
Arguments showSelected {number}.
Arguments enterSearch {number}.
Arguments leaveSearch {number}.
Arguments stopPreview {number}.
Arguments cleanup {number}.
Arguments leaveDocument {number}.
Arguments enterAddCollection {number}.
Arguments enterRenameCollection {number}.
Arguments enterDeleteCollection {number}.
Arguments leaveManagement {number}.
Arguments handleTab {number}.
Arguments handleEscape {number}.
Arguments refreshCollections {number}.
Arguments showDocument {number}.
Arguments addOnComplete {number}.
Arguments renameOnComplete {number}.
Arguments deleteOnConfirm {number}.
Arguments runEmbed {number}.
Arguments fetch {number}.
Arguments ensurePreviewServer {number}.
Arguments watchListener {number}.
Arguments elapse {number}.
Arguments previewStep {number}.
Arguments previewRun {number}.
Arguments openPreview {number}.
Arguments spawnEditor {number}.
Arguments openInEditor {number}.
Arguments handled {number}.
Arguments passed {number}.
Arguments started {number}.
Arguments keypress {number}.
Arguments start {number}.
Arguments mkViews {number}.
Arguments collectionsView {number}.
Arguments detailView {number}.
Arguments searchView {number}.
Arguments documentView {number}.
Arguments addCollectionView {number}.
Arguments renameCollectionView {number}.
Arguments confirmDeleteView {number}.
Arguments mkApp {number}.
Arguments renderer {number}.
Arguments runtime {number}.
Arguments nav {number}.
Arguments views {number}.
Arguments collections {number}.
Arguments preview {number}.
Arguments mkHandled {number}.
Arguments app {number}.
Arguments defaultPrevented {number}.
Arguments completionStarted {number}.
Arguments rejection {number}.

End App.

(** ** Vocabulary of the statements *)

(** The message [msg] has the text [part] in it. *)
Definition carries (msg part : jsstring) : Prop :=
  exists pre post, msg = pre ++ part ++ post.

(** A text without a raw [<], [>] or double quote. *)
Definition markupFree (s : jsstring) : Prop :=
  Forall (fun c => c ≠ 60 ∧ c ≠ 62 ∧ c ≠ 34) s.

(** The HTML entity that stands for a code unit. *)
Definition entity (c : N) : jsstring :=
  if c =? 38 then lit "&amp;"
  else if c =? 60 then lit "&lt;"
  else if c =? 62 then lit "&gt;"
  else if c =? 34 then lit "&quot;"
  else [c].

(** What a pattern can match, whatever the order in which the alternatives
    are tried: [Matches r s caps s' caps'] when [r] matches a prefix of [s],
    [s'] is what follows it, and the groups go from [caps] to [caps']. *)
Inductive Matches : Regex.re -> jsstring -> Regex.captures -> jsstring -> Regex.captures -> Prop :=
| M_Eps s caps : Matches Regex.Eps s caps s caps
| M_Chr c s caps : Matches (Regex.Chr c) (c :: s) caps s caps
| M_Cls (p : N -> bool) c s caps :
    p c = true -> Matches (Regex.Cls p) (c :: s) caps s caps
| M_Seq r1 r2 s caps s1 caps1 s2 caps2 :
    Matches r1 s caps s1 caps1 -> Matches r2 s1 caps1 s2 caps2 ->
    Matches (Regex.Seq r1 r2) s caps s2 caps2
| M_Star g (p : N -> bool) s1 s2 caps :
    Forall (fun c => p c = true) s1 ->
    Matches (Regex.Star g p) (s1 ++ s2) caps s2 caps
| M_Plus g (p : N -> bool) c s1 s2 caps :
    p c = true -> Forall (fun c => p c = true) s1 ->
    Matches (Regex.Plus g p) (c :: s1 ++ s2) caps s2 caps
| M_Opt_some r s caps s' caps' :
    Matches r s caps s' caps' -> Matches (Regex.Opt r) s caps s' caps'
| M_Opt_none r s caps : Matches (Regex.Opt r) s caps s caps
| M_Group i r s caps s' caps' :
    Matches r s caps s' caps' ->
    Matches (Regex.Group i r) s caps s' (<[i := take (length s - length s') s]> caps')
| M_LookAhead r s caps s' caps' :
    Matches r s caps s' caps' -> Matches (Regex.LookAhead r) s caps s caps'
| M_Eol caps : Matches Regex.Eol [] caps [] caps.

(** The shape of a block with a header: a name without white space, white
    space, and a qmd address in parentheses, with or without a final slash. *)
Definition headerShape (block name u : jsstring) : Prop :=
  exists w slash rest,
    block = name ++ w ++ lit "(qmd://" ++ u ++ slash ++ lit ")" ++ rest
    /\ name ≠ [] /\ Forall (fun c => isWhiteSpace c = false) name
    /\ w ≠ [] /\ Forall (fun c => isWhiteSpace c = true) w
    /\ u ≠ [] /\ Forall (fun c => isWhiteSpace c = false) u
    /\ (slash = [] \/ slash = lit "/").


(** The configuration file: [index.yml] in the directory [qmd] of
    [XDG_CONFIG_HOME], or of [.config] under [HOME] without it. *)
Definition configFile (path_join : list jsstring -> jsstring)
    (XDG_CONFIG_HOME : option jsstring) (HOME : jsstring) : jsstring :=
  path_join [match XDG_CONFIG_HOME with
             | Some d => or_else d (path_join [HOME; lit ".config"])
             | None => path_join [HOME; lit ".config"]
             end;
             lit "qmd"; lit "index.yml"].

(** A configuration without a table of collections: the document is
    [null], or what is under [collections] is [undefined] or [null]. *)
Definition withoutCollections (config : QmdCli.Unchecked QmdCli.QmdConfig) : Prop :=
  match config with
  | QmdCli.absent _ => True
  | QmdCli.present c =>
      match QmdCli.collections c with
      | QmdCli.absent _ => True
      | QmdCli.present _ => False
      end
  end.

(** Whether the rest of a pattern succeeds never depends on the groups:
    the fragment has no back-reference. *)
Definition capsBlind {R} (k : jsstring -> Regex.captures -> option R) : Prop :=
  forall s caps caps', k s caps = None -> k s caps' = None.




(** A change the listener of a watcher does not skip: it names the watched
    file, or no file at all. *)
Definition matching (name : jsstring) (filename : option jsstring) : Prop :=
  match filename with
  | Some f => f = [] \/ f = name
  | None => True
  end.

(** Changes that follow one another within the debounce delay: each comes
    no earlier than the one before and less than 100 ms after it. *)
Fixpoint paced (t : Z) (evs : list (Z * option jsstring)) : Prop :=
  match evs with
  | [] => True
  | tf :: evs' => (t <= tf.1 < t + 100)%Z /\ paced tf.1 evs'
  end.

(** The time of the last change. *)
Fixpoint lastTime (t : Z) (evs : list (Z * option jsstring)) : Z :=
  match evs with
  | [] => t
  | tf :: evs' => lastTime tf.1 evs'
  end.

(** While a burst lasts: one timeout is pending, the one the last change
    has set, and the version is what it was. *)
Definition armed {number} (a : App.App number) (w : nat) (name : jsstring) (t : Z) (v : N)
    : Prop :=
  exists cl id,
    App.watchers (App.runtime a) !! w = Some cl
    /\ App.watchedName cl = name
    /\ App.debounce cl = Some id
    /\ App.timers (App.runtime a) = {[id := (t + 100)%Z]}
    /\ App.now (App.runtime a) = t
    /\ App.previewVersion (App.preview a) = v.

(** The check of [performSearch] before a vector search or a query lets
    the search go on. *)
Definition embeddingsReady (st : Mcp.StatusResult) : bool :=
  negb ((0 <? Mcp.needsEmbedding st) && negb (Mcp.hasVectorIndex st)).

(** The status line of a form after a failure. *)
Definition errorStatus (e : Error) : StyledText :=
  statusContent (lit "Error: " ++ Error_toString e) true.

(** The call [performSearch] makes in a mode. *)
Definition searchCall {number} (mcp : Mcp.QmdMcpClient number)
    (mode : SearchView.SearchMode) (query : jsstring) (scope : option jsstring)
    : Result (list (Mcp.SearchResult number)) :=
  let opts := Some (Mcp.mkSearchOpts None scope) in
  match mode with
  | SearchView.mode_search => Mcp.mcp_search mcp query opts
  | SearchView.mode_vsearch => Mcp.mcp_vectorSearch mcp query opts
  | SearchView.mode_query => Mcp.mcp_deepSearch mcp query opts
  end.

(** ** Sample hosts, to run the definitions *)

Module Sample.

(** The output of [qmd collection list] for two collections. *)
Definition listing : jsstring :=
  lit "Collections (2):" ++ nlx
  ++ nlx
  ++ lit "notes (qmd://notes/)" ++ nlx
  ++ lit "  Pattern:  **/*.md" ++ nlx
  ++ lit "  Files:    12" ++ nlx
  ++ lit "  Updated:  2d ago" ++ nlx
  ++ nlx
  ++ lit "wiki (qmd://wiki/)" ++ nlx
  ++ lit "  Files:    3" ++ nlx.

(** A qmd that lists them, whatever it is asked. *)
Definition spawn (argv : list jsstring) : Result Proc := Ok (mkProc listing [] 0).

(** A qmd that fails, whatever it is asked. *)
Definition failing (argv : list jsstring) : Result Proc :=
  Ok (mkProc [] (lit "database is locked" ++ nlx) 1).

Definition noFile (p : jsstring) : Result jsstring :=
  Throw (mkError (lit "Error") (lit "ENOENT")).

Definition noConfig (content : jsstring) : Result (QmdCli.Unchecked QmdCli.QmdConfig) :=
  Ok (QmdCli.present (QmdCli.mkQmdConfig (QmdCli.present ∅))).

(** A configuration file that is there and empty: [YAML.parse] gives
    [null]. *)
Definition emptyFile (p : jsstring) : Result jsstring := Ok [].

Definition emptyDocument (content : jsstring)
    : Result (QmdCli.Unchecked QmdCli.QmdConfig) :=
  Ok (QmdCli.absent QmdCli.js_null).




(** The words of an engine for the error. *)
Definition nullishMessage (expr : string) (n : QmdCli.Nullish) (key : jsstring)
    : jsstring :=
  lit (match n with QmdCli.js_undefined => "undefined" | QmdCli.js_null => "null" end)
  ++ lit " is not an object (evaluating '" ++ lit expr ++ lit "')".

(** Path functions for absolute paths without [.] and [..]. *)
Fixpoint collapse (s : jsstring) : jsstring :=
  match s with
  | a :: s' =>
      match s' with
      | b :: _ => if (a =? 47) && (b =? 47) then collapse s' else a :: collapse s'
      | [] => [a]
      end
  | [] => []
  end.

Definition path_join (parts : list jsstring) : jsstring :=
  collapse (JS.join (lit "/") parts).

Definition basename (p : jsstring) : jsstring := default [] (last (splitOn 47 p)).

Definition dirname (p : jsstring) : jsstring :=
  take (length p - length (basename p) - 1) p.

(** A yaml package that reads every text as an empty mapping. *)
Definition yaml : Frontmatter.Yaml :=
  Frontmatter.mkYaml unit (fun _ => Ok tt) (fun _ => false) (fun _ => None)
    (fun _ => []) (fun _ => []).

(** A markdown renderer that leaves the text as it is. *)
Definition marked_parse (body : jsstring) : Result jsstring := Ok body.

(** A source directory with one document and one image. *)
Definition exists_ (p : jsstring) : bool :=
  bool_decide (p = lit "/docs/a.md") || bool_decide (p = lit "/docs/img.png").

Definition readText (p : jsstring) : Result jsstring :=
  if bool_decide (p = lit "/docs/a.md") then Ok (lit "# A") else noFile p.

Definition readdir (p : jsstring) : Result (list jsstring) :=
  if bool_decide (p = lit "/docs") then Ok [lit "a.md"; lit "img.png"]
  else Throw (mkError (lit "Error") (lit "ENOENT")).

Definition decodeURIComponent (s : jsstring) : Result jsstring := Ok s.

Definition pickPort (used : gset Z) : Z := 40000.

Definition watchError (dir : jsstring) : option Error := None.

Definition notes : QmdCli.Collection :=
  QmdCli.mkCollection (lit "notes") (lit "qmd://notes/") (lit "/docs") (lit "**/*.md")
    1 (lit "2d ago").

(** The application with the document [qmd://notes/a.md] open and [notes]
    selected in the sidebar. *)
Definition reading : App.App unit :=
  let a : App.App unit := App.new in
  let a := App.set_collections [notes] a in
  let cv := CollectionsView.update [notes] (App.collectionsView (App.views a)) in
  let cv := CollectionsView.mk (CollectionsView.collections cv) (CollectionsView.options cv) 1 in
  let a := App.set_collectionsView cv a in
  let a := App.switchMainView App.st_document a in
  App.set_documentView
    (DocumentView.mk (Some (lit "qmd://notes/a.md")) (Some (lit "a.md")) (Some (lit "# A"))
       (DocumentView.header (lit "a.md") (lit "qmd://notes/a.md")) (lit "# A") 0) a.

(** The same after [p]: the preview is open. *)
Definition previewing : App.App unit :=
  (App.openPreview spawn path_join exists_ readdir asciiLower dirname basename
     pickPort watchError reading).1.

(** The same before the document was opened, with the confirmation of the
    removal of [notes] on screen. *)
Definition deleting : App.App unit :=
  let a : App.App unit := App.new in
  let a := App.set_collections [notes] a in
  let cv := CollectionsView.update [notes] (App.collectionsView (App.views a)) in
  let cv := CollectionsView.mk (CollectionsView.collections cv) (CollectionsView.options cv) 1 in
  App.enterDeleteCollection (App.set_collectionsView cv a).

Definition JSON_parse (text : jsstring) : Result (list (Mcp.SearchResult unit)) :=
  Throw (mkError (lit "SyntaxError") (lit "Unexpected token")).

End Sample.

(** ** views/add-collection.ts: the functions beside the class *)

Module Completion.

(** The [while] loop of [commonPrefix] for one string [s]: [rprefix] is the
    prefix read backwards, so that [prefix.slice(0, -1)] is its tail.  [None]
    is the [return ""] inside the loop. *)
Fixpoint shrinkTo (s rprefix : jsstring) : option jsstring :=
  if startsWith s (rev rprefix) then Some (rev rprefix)
  else
    match rprefix with
    | [] => None
    | _ :: rest => if truthy rest then shrinkTo s rest else None
    end.

(** The [for] loop of [commonPrefix] over the strings after the first. *)
Fixpoint commonLoop (strings : list jsstring) (prefix : jsstring) : jsstring :=
  match strings with
  | [] => prefix
  | s :: strings' =>
      match shrinkTo s (rev prefix) with
      | Some prefix' => commonLoop strings' prefix'
      | None => []
      end
  end.

Definition commonPrefix (strings : list jsstring) : jsstring :=
  match strings with
  | [] => []
  | first :: rest => commonLoop rest first
  end.

End Completion.

(** ** More vocabulary *)

(** A way down from [current] along [parts] that differs from them by case
    at most: every step is an entry that [readdir] lists. *)
Inductive Walk (readdir : jsstring -> Result (list jsstring))
    (toLowerCase : jsstring -> jsstring) (path_join : list jsstring -> jsstring)
    : jsstring -> list jsstring -> jsstring -> Prop :=
| Walk_nil current : Walk readdir toLowerCase path_join current [] current
| Walk_cons current part parts entries found p :
    readdir current = Ok entries ->
    found ∈ entries ->
    toLowerCase found = toLowerCase part ->
    Walk readdir toLowerCase path_join (path_join [current; found]) parts p ->
    Walk readdir toLowerCase path_join current (part :: parts) p.

(** The number of changes among the events of a preview. *)
Fixpoint changes (evs : list App.PreviewEvent) : nat :=
  match evs with
  | [] => 0
  | App.Changed _ _ :: evs' => S (changes evs')
  | App.Elapsed _ :: evs' => changes evs'
  end.

(** ** app.ts: the listeners and the methods that wait

    What the constructor and [start] wire up, one event at a time: a key,
    the sidebar moving to another line or choosing a collection, a search
    result opened, a form completed or cancelled, and what happens to a
    running preview.  No listener awaits the asynchronous method it starts:
    the method runs up to its first [await] and goes on when the promise it
    waits for is settled, after any number of other events.  What it goes
    on with are its local variables and the application as it is by then.
    A promise that settles without the host (an asynchronous function that
    returns) lets no event pass before the method that awaits it goes on.
    A rejected promise is dropped, as the event loop does with a method
    that is not awaited. *)

Module Loop.
Section Loop.
Import App.

Variable number : Type.
Variable yaml : Frontmatter.Yaml.
Variable mcp : Mcp.QmdMcpClient number.
Variable spawn : list jsstring -> Result Proc.
Variable readText : jsstring -> Result jsstring.
Variable YAML_parse_config : jsstring -> Result (QmdCli.Unchecked QmdCli.QmdConfig).
Variable nullishMessage : string -> QmdCli.Nullish -> jsstring -> jsstring.
Variable path_join : list jsstring -> jsstring.
Variable XDG_CONFIG_HOME : option jsstring.
Variable HOME : jsstring.
Variable exists_ : jsstring -> bool.
Variable readdir : jsstring -> Result (list jsstring).
Variable toLowerCase : jsstring -> jsstring.
Variable dirname : jsstring -> jsstring.
Variable basename : jsstring -> jsstring.
Variable pickPort : gset Z -> Z.
Variable watchError : jsstring -> option Error.
Variable EDITOR : option jsstring.

Let listCollections :=
  QmdCli.listCollections spawn readText YAML_parse_config nullishMessage path_join
    XDG_CONFIG_HOME HOME.
Let addCollection := QmdCli.addCollection spawn path_join HOME.
Let removeCollection := QmdCli.removeCollection spawn.
Let renameCollection := QmdCli.renameCollection spawn.
Let embed := QmdCli.embed spawn.
Let resolveQmdUri := QmdCli.resolveQmdUri path_join exists_ readdir toLowerCase.

(** The [SELECTION_CHANGED] listener that [start] puts on the sidebar;
    [value] is [option.value]. *)
Definition selectionChanged (value : jsstring) (a : App number) : App number :=
  if bool_decide (state (nav a) = st_detail) || bool_decide (state (nav a) = st_collections)
  then
    if bool_decide (value = lit "__all__") then
      let a := set_detailView (DetailView.showAll (collections a) (detailView (views a))) a in
      set_title (lit "All Collections") a
    else
      match List.find (fun c => bool_decide (QmdCli.name c = value)) (collections a) with
      | Some col =>
          let a := set_detailView (DetailView.show col (detailView (views a))) a in
          set_title (lit "Collection") a
      | None => a
      end
  else a.

(** A method at an [await], with what the promise is settled with and the
    local variables the method still reads. *)
Inductive Waiting : Type :=
| EditorResolved (qmdUri : jsstring) (filePath : option jsstring)
| PreviewResolved (filePath : option jsstring)
| Embedded (prevTitle : jsstring) (r : Result unit)
| DocumentFetched (file title : jsstring) (r : Result jsstring)
| Added (r : Result unit)
| AddListed (r : Result (list QmdCli.Collection))
| Renamed (r : Result unit)
| RenameListed (r : Result (list QmdCli.Collection))
| Removed (r : Result unit)
| RemoveListed (r : Result (list QmdCli.Collection)).

(** *** [openInEditor]: before and after [await resolveQmdUri(...)].
    Once the editor is spawned only [renderer.resume()] is left, which the
    model of the renderer follows no more than [suspend()]. *)

Definition openInEditor_start (a : App number) : App number * option Waiting :=
  match DocumentView.currentFile (documentView (views a)) with
  | None => (a, None)
  | Some qmdUri =>
      if negb (truthy qmdUri) then (a, None)
      else (a, Some (EditorResolved qmdUri (resolveQmdUri qmdUri (collections a))))
  end.

Definition openInEditor_resume (qmdUri : jsstring) (filePath : option jsstring)
    (a : App number) : App number :=
  let fallback :=
    if negb (startsWith qmdUri (lit "qmd://")) then (spawnEditor spawn EDITOR qmdUri a).1
    else a in
  match filePath with
  | None => fallback
  | Some filePath =>
      if negb (truthy filePath) then fallback
      else (spawnEditor spawn EDITOR filePath a).1
  end.

(** *** [openPreview]: before and after [await resolveQmdUri(...)] *)

Definition openPreview_start (a : App number) : App number * option Waiting :=
  match DocumentView.currentFile (documentView (views a)) with
  | None => (set_title (lit "Preview: no file") a, None)
  | Some qmdUri =>
      if negb (truthy qmdUri) then (set_title (lit "Preview: no file") a, None)
      else (a, Some (PreviewResolved (resolveQmdUri qmdUri (collections a))))
  end.

Definition openPreview_resume (filePath : option jsstring) (a : App number) : App number :=
  let caught (err : Error) (a : App number) : App number :=
    set_title (lit "Preview error: " ++ Error_toString err) a in
  match filePath with
  | None => set_title (lit "Preview: file not found") a
  | Some filePath =>
      if negb (truthy filePath) then set_title (lit "Preview: file not found") a
      else
        let a := stopPreview a in
        let a := set_previewTarget filePath (dirname filePath) a in
        let '(a, port) := ensurePreviewServer pickPort a in
        let watchedName := basename filePath in
        match watchError (dirname filePath) with
        | Some err => caught err a
        | None =>
            let rt := runtime a in
            let w := nextWatcher rt in
            let rt :=
              set_watchers
                (<[w := mkWatch (dirname filePath) watchedName None]> (watchers rt))
                (S w) rt in
            let a := set_previewWatcher (Some w) (set_runtime rt a) in
            let argv :=
              [lit "google-chrome";
               lit "--app=http://localhost:" ++ String_of_Z port] in
            match spawn argv with
            | Throw err => caught err a
            | Ok _ =>
                let a := set_runtime (add_spawned argv (runtime a)) a in
                set_title
                  (default (lit "Preview")
                     (DocumentView.currentTitle (documentView (views a)))) a
            end
        end
  end.

(** *** [runEmbed]: before and after [await embed()] *)

Definition runEmbed_start (a : App number) : App number * option Waiting :=
  let prevTitle := mainPanel_title (nav a) in
  let a := set_title (lit "Embedding...") a in
  let a :=
    set_detailView
      (DetailView.showStatus (lit "Creating embeddings, this may take a while...") false
         (detailView (views a))) a in
  (a, Some (Embedded prevTitle embed)).

Definition runEmbed_resume (prevTitle : jsstring) (r : Result unit) (a : App number)
    : App number :=
  let a :=
    match r with
    | Ok _ =>
        set_detailView
          (DetailView.showStatus (lit "Embeddings created.") false (detailView (views a))) a
    | Throw err =>
        set_detailView
          (DetailView.showStatus (lit "Error: " ++ Error_toString err) true
             (detailView (views a))) a
    end in
  set_title prevTitle a.

(** *** [showDocument] and the [load] it awaits: before and after
    [await this.mcp.getDocument(...)] *)

Definition load_start (file title : jsstring) (v : DocumentView.t) : DocumentView.t :=
  {| DocumentView.currentFile := Some file;
     DocumentView.currentTitle := Some title;
     DocumentView.currentContent := None;
     DocumentView.headerText := DocumentView.header title file;
     DocumentView.contentMarkdown := lit "*Loading...*";
     DocumentView.scrollTop := DocumentView.scrollTop v |}.

Definition load_resume (file : jsstring) (r : Result jsstring) (v : DocumentView.t)
    : DocumentView.t :=
  match r with
  | Ok text =>
      let v :=
        {| DocumentView.currentFile := DocumentView.currentFile v;
           DocumentView.currentTitle := DocumentView.currentTitle v;
           DocumentView.currentContent := Some text;
           DocumentView.headerText := DocumentView.headerText v;
           DocumentView.contentMarkdown := DocumentView.contentMarkdown v;
           DocumentView.scrollTop := DocumentView.scrollTop v |} in
      let v :=
        match DocumentView.frontmatterTitle yaml text with
        | Some fmTitle =>
            {| DocumentView.currentFile := DocumentView.currentFile v;
               DocumentView.currentTitle := Some fmTitle;
               DocumentView.currentContent := DocumentView.currentContent v;
               DocumentView.headerText := DocumentView.header fmTitle file;
               DocumentView.contentMarkdown := DocumentView.contentMarkdown v;
               DocumentView.scrollTop := DocumentView.scrollTop v |}
        | None => v
        end in
      {| DocumentView.currentFile := DocumentView.currentFile v;
         DocumentView.currentTitle := DocumentView.currentTitle v;
         DocumentView.currentContent := DocumentView.currentContent v;
         DocumentView.headerText := DocumentView.headerText v;
         DocumentView.contentMarkdown := text;
         DocumentView.scrollTop := 0 |}
  | Throw err =>
      {| DocumentView.currentFile := DocumentView.currentFile v;
         DocumentView.currentTitle := DocumentView.currentTitle v;
         DocumentView.currentContent := DocumentView.currentContent v;
         DocumentView.headerText := DocumentView.headerText v;
         DocumentView.contentMarkdown := lit "**Error:** " ++ Error_toString err;
         DocumentView.scrollTop := DocumentView.scrollTop v |}
  end.

Definition showDocument_start (file title : jsstring) (a : App number)
    : App number * option Waiting :=
  let a := switchMainView st_document a in
  let a := set_state st_document a in
  let a := set_title title a in
  let a := set_renderer (DocumentView.focusContainer (renderer a)) a in
  let a := set_documentView (load_start file title (documentView (views a))) a in
  (a, Some (DocumentFetched file title
              (Mcp.mcp_getDocument mcp file (Some (Mcp.mkDocOpts None (Some false)))))).

Definition showDocument_resume (file title : jsstring) (r : Result jsstring)
    (a : App number) : App number :=
  let a := set_documentView (load_resume file r (documentView (views a))) a in
  match DocumentView.currentTitle (documentView (views a)) with
  | Some fmTitle =>
      if truthy fmTitle && bool_decide (fmTitle ≠ title) then set_title fmTitle a else a
  | None => a
  end.

(** *** The callbacks of the forms: before [await addCollection(...)] (or
    [renameCollection], [removeCollection]), between it and
    [await this.refreshCollections()], and after *)

(** [refreshCollections] after [await listCollections()] *)
Definition refreshCollections_resume (cols : list QmdCli.Collection) (a : App number)
    : App number :=
  let a := set_collections cols a in
  set_collectionsView (CollectionsView.update cols (collectionsView (views a))) a.

Definition add_caught (err : Error) (a : App number) : App number :=
  set_addCollectionView
    (AddCollectionView.showStatus (lit "Error: " ++ Error_toString err) true
       (addCollectionView (views a))) a.

Definition addOnComplete_start (path name pattern : jsstring) (a : App number)
    : App number * option Waiting :=
  let a :=
    set_addCollectionView
      (AddCollectionView.showStatus (lit "Indexing...") false (addCollectionView (views a))) a in
  (a, Some (Added (addCollection path name
                     (if bool_decide (pattern ≠ lit "**/*.md") then Some pattern
                      else None)))).

Definition rename_caught (err : Error) (a : App number) : App number :=
  set_renameCollectionView
    (RenameCollectionView.showStatus (lit "Error: " ++ Error_toString err) true
       (renameCollectionView (views a))) a.

Definition renameOnComplete_start (oldName newName : jsstring) (a : App number)
    : App number * option Waiting :=
  let a :=
    set_renameCollectionView
      (RenameCollectionView.showStatus (lit "Renaming...") false
         (renameCollectionView (views a))) a in
  (a, Some (Renamed (renameCollection oldName newName))).

Definition deleteOnConfirm_start (name : jsstring) (a : App number)
    : App number * option Waiting :=
  (a, Some (Removed (removeCollection name))).

(** *** A method goes on *)

Definition resume (w : Waiting) (a : App number) : App number * option Waiting :=
  match w with
  | EditorResolved qmdUri filePath => (openInEditor_resume qmdUri filePath a, None)
  | PreviewResolved filePath => (openPreview_resume filePath a, None)
  | Embedded prevTitle r => (runEmbed_resume prevTitle r a, None)
  | DocumentFetched file title r => (showDocument_resume file title r a, None)
  | Added (Ok _) => (a, Some (AddListed listCollections))
  | Added (Throw err) => (add_caught err a, None)
  | AddListed (Ok cols) => (leaveManagement (refreshCollections_resume cols a), None)
  | AddListed (Throw err) => (add_caught err a, None)
  | Renamed (Ok _) => (a, Some (RenameListed listCollections))
  | Renamed (Throw err) => (rename_caught err a, None)
  | RenameListed (Ok cols) => (leaveManagement (refreshCollections_resume cols a), None)
  | RenameListed (Throw err) => (rename_caught err a, None)
  | Removed (Ok _) => (a, Some (RemoveListed listCollections))
  | Removed (Throw _) => (a, None)
  | RemoveListed (Ok cols) => (leaveManagement (refreshCollections_resume cols a), None)
  | RemoveListed (Throw _) => (a, None)
  end.

(** *** The keyboard: the [keypress] listener of [setupKeyboard], with the
    method it starts left at its first [await] *)

Definition keypress (key : KeyEvent) (a : App number) : App number * option Waiting :=
  let st := state (nav a) in
  if bool_decide (st = st_search) && named key "t" && ctrl key then
    (set_searchView (SearchView.cycleMode (searchView (views a))) a, None)
  else if bool_decide (st = st_search) && isFocused search_input (renderer a) then
    if named key "escape" then (leaveSearch a, None)
    else if named key "tab" then
      (set_renderer (SearchView.focusResults (renderer a)) a, None)
    else (a, None)
  else if isManagement st then
    if named key "escape" then
      let '(ctx, v, dismissed) :=
        if bool_decide (st = st_add_collection)
        then AddCollectionView.handleEscape (renderer a) (addCollectionView (views a))
        else (renderer a, addCollectionView (views a), false) in
      let a := set_addCollectionView v (set_renderer ctx a) in
      if dismissed then (a, None) else (leaveManagement a, None)
    else if named key "tab" && bool_decide (st = st_add_collection) then
      let '(ctx, v, completing) :=
        AddCollectionView.handleTab (renderer a) (addCollectionView (views a)) in
      (set_addCollectionView v (set_renderer ctx a), None)
    else (a, None)
  else if bool_decide (st = st_document) && named key "e" then openInEditor_start a
  else if bool_decide (st = st_document) && named key "p" then
    openPreview_start (set_title (lit "Preview...") a)
  else if named key "q" && negb (ctrl key) && negb (meta key) then
    let a := cleanup a in
    (set_renderer (destroy (renderer a)) a, None)
  else if named key "escape" then (handleEscape a, None)
  else if named key "tab" then (handleTab a, None)
  else if named key "/" || named key "s" then (enterSearch a, None)
  else
    match focusArea (nav a) with
    | sidebar =>
        if named key "a" then (enterAddCollection a, None)
        else if named key "d" then (enterDeleteCollection a, None)
        else if named key "r" then (enterRenameCollection a, None)
        else if named key "e" then runEmbed_start a
        else (a, None)
    | main => (a, None)
    end.

(** *** The loop *)

(** The application and the methods that wait, oldest first. *)
Record Session : Type := mkSession {
  app : App number;
  waiting : list Waiting }.

Inductive Event : Type :=
| Keypress (key : KeyEvent)
| SelectionChanged (value : jsstring)
| CollectionSelected (col : QmdCli.Collection)
| DocumentOpen (file title : jsstring)
| AddComplete (path name pattern : jsstring)
| RenameComplete (oldName newName : jsstring)
| DeleteConfirm (name : jsstring)
| Cancel
| Preview (ev : PreviewEvent)
(** the promise that the [i]-th waiting method awaits is settled *)
| Settled (i : nat).

Definition began (s : Session) (r : App number * option Waiting) : Session :=
  mkSession r.1 (waiting s ++ match r.2 with Some w => [w] | None => [] end).

Definition dispatch (s : Session) (ev : Event) : Session :=
  match ev with
  | Keypress key => began s (keypress key (app s))
  | SelectionChanged value => mkSession (selectionChanged value (app s)) (waiting s)
  | CollectionSelected col => mkSession (showDetail col (app s)) (waiting s)
  | DocumentOpen file title => began s (showDocument_start file title (app s))
  | AddComplete path name pattern =>
      began s (addOnComplete_start path name pattern (app s))
  | RenameComplete oldName newName =>
      began s (renameOnComplete_start oldName newName (app s))
  | DeleteConfirm name => began s (deleteOnConfirm_start name (app s))
  | Cancel => mkSession (leaveManagement (app s)) (waiting s)
  | Preview ev => mkSession (previewStep (app s) ev) (waiting s)
  | Settled i =>
      match waiting s !! i with
      | Some w => began (mkSession (app s) (delete i (waiting s))) (resume w (app s))
      | None => s
      end
  end.

Definition run (evs : list Event) (s : Session) : Session :=
  fold_left dispatch evs s.

(** A method that nothing interrupts: it goes on until it ends.  No method
    of the application has more than two [await]s in a row. *)
Definition uninterrupted (r : App number * option Waiting) : App number :=
  match r.2 with
  | None => r.1
  | Some w =>
      let r := resume w r.1 in
      match r.2 with
      | None => r.1
      | Some w => (resume w r.1).1
      end
  end.

End Loop.

Arguments selectionChanged {number}.
Arguments mkSession {number}.
Arguments app {number}.
Arguments waiting {number}.

End Loop.

(** The watchers that are open and the ports that are listened on are the
    ones the application refers to. *)
Definition tidy {number} (a : App.App number) : Prop :=
  (dom (App.watchers (App.runtime a)) : gset nat)
  = match App.previewWatcher (App.preview a) with Some w => {[w]} | None => ∅ end
  /\ App.listening (App.runtime a)
     = match App.previewServer (App.preview a) with Some port => {[port]} | None => ∅ end.

(** The container [switchMainView] puts on the main panel for a state: the
    one of the detail view stands for [collections] too. *)
Definition container (s : App.AppState) : App.AppState :=
  match s with
  | App.st_collections => App.st_detail
  | s => s
  end.

(** The view on the main panel is the one of the state. *)
Definition mounted {number} (a : App.App number) : Prop :=
  container (App.mainPanel_child (App.nav a)) = container (App.state (App.nav a)).

(** ** qmd-cli.ts and views/files.ts: the files of a collection *)

Module FilesLoad.
Import Files.

(** [/(qmd:\/\/\S+)/] *)
Definition uriInLine : Regex.re :=
  Regex.Group 1 (Regex.Seq (Regex.Str (lit "qmd://")) (Regex.Plus true Regex.nonws)).

(** [/\s{2,}/] *)
Definition gap : Regex.re :=
  Regex.Seq (Regex.Cls Regex.ws) (Regex.Plus true Regex.ws).

(** [s.replace(pattern, "")] for a pattern that is a string: its first
    occurrence is cut out. *)
Fixpoint removeFirstString (pattern s : jsstring) : jsstring :=
  if startsWith s pattern then drop (length pattern) s
  else match s with
       | [] => []
       | c :: s' => c :: removeFirstString pattern s'
       end.

(** The function given to [lines.map]; [None] is [null]. *)
Definition parseLine (collection line : jsstring) : option FileEntry :=
  let uriMatch := Regex.search uriInLine line in
  match uriMatch with
  | None => None
  | Some m =>
      let uri := default [] (Regex.group 1 uriMatch) in
      let relPath := removeFirstString (lit "qmd://" ++ collection ++ lit "/") uri in
      let meta := trim (take (Regex.index m) line) in
      let parts := Regex.split gap meta in
      Some {| fe_size := default [] (parts !! 0%nat);
              fe_date := default [] (parts !! 1%nat);
              fe_uri := uri;
              fe_path := relPath |}
  end.

Section FilesLoad.

Variable spawn : list jsstring -> Result Proc.
Variable toLowerCase : jsstring -> jsstring.

Definition listFiles (collection : jsstring) : Result (list FileEntry) :=
  match QmdCli.run spawn [lit "ls"; collection] with
  | Throw e => Throw e
  | Ok output =>
      let lines := List.filter truthy (splitOn 10 output) in
      Ok (omap (parseLine collection) lines)
  end.

(** [FilesView.load]; the field [collectionName], which nothing reads, is
    left out. *)
Definition load (collectionName : jsstring) (v : FilesView) : FilesView :=
  let v :=
    {| input_value := []; allFiles := [];
       statusText := fg "#808080" (lit "Loading files...");
       filesList_options := [] |} in
  match listFiles collectionName with
  | Ok files =>
      let v :=
        {| input_value := input_value v; allFiles := files;
           statusText := statusText v; filesList_options := filesList_options v |} in
      if (length files =? 0)%nat then
        {| input_value := input_value v; allFiles := allFiles v;
           statusText := fg "#f5a742" (lit "No files found.");
           filesList_options := filesList_options v |}
      else applyFilter toLowerCase v
  | Throw err =>
      {| input_value := input_value v; allFiles := allFiles v;
         statusText := fg "#e06c75" (lit "Error: " ++ Error_toString err);
         filesList_options := filesList_options v |}
  end.

Definition clear (v : FilesView) : FilesView :=
  {| input_value := []; allFiles := []; statusText := []; filesList_options := [] |}.

End FilesLoad.
End FilesLoad.

(** A line of [qmd ls], as the comment in [listFiles] gives it: a size and
    a date, each made of words with one white space between them, then the
    address; at least two white spaces come before the date and before the
    address, and any number before the size. *)
Record FileRow := mkFileRow {
  row_pad : jsstring;
  row_size : jsstring;
  row_sep1 : jsstring;
  row_date : jsstring;
  row_sep2 : jsstring;
  row_rel : jsstring }.

Definition formatRow (collection : jsstring) (r : FileRow) : jsstring :=
  row_pad r ++ row_size r ++ row_sep1 r ++ row_date r ++ row_sep2 r
  ++ lit "qmd://" ++ collection ++ lit "/" ++ row_rel r.

(** Every white space of [s] has another character than white space after
    it. *)
Fixpoint tight (s : jsstring) : bool :=
  match s with
  | [] => true
  | c :: s' =>
      (if isWhiteSpace c
       then match s' with d :: _ => negb (isWhiteSpace d) | [] => false end
       else true)
      && tight s'
  end.

(** A size or a date: it begins with another character than white space,
    and has no slash. *)
Definition metaField (s : jsstring) : Prop :=
  (exists c s', s = c :: s' /\ isWhiteSpace c = false)
  /\ tight s = true /\ (47 ∉ s).

(** White space other than a line feed. *)
Definition blank (s : jsstring) : Prop :=
  Forall (fun c => isWhiteSpace c = true /\ c ≠ 10) s.

Definition wellFormedRow (r : FileRow) : Prop :=
  blank (row_pad r)
  /\ metaField (row_size r) /\ (10 ∉ row_size r)
  /\ blank (row_sep1 r) /\ (2 <= length (row_sep1 r))%nat
  /\ metaField (row_date r) /\ (10 ∉ row_date r)
  /\ blank (row_sep2 r) /\ (2 <= length (row_sep2 r))%nat
  /\ Forall (fun c => isWhiteSpace c = false) (row_rel r).

Definition rowEntry (collection : jsstring) (r : FileRow) : Files.FileEntry :=
  {| Files.fe_size := row_size r;
     Files.fe_date := row_date r;
     Files.fe_uri := lit "qmd://" ++ collection ++ lit "/" ++ row_rel r;
     Files.fe_path := row_rel r |}.

(** ** qmd-cli.ts: the records of [listCollections], in words of their own *)




(** The text begins with [)] or with [/)]. *)
Definition closing (s : jsstring) : bool :=
  startsWith s (lit ")") || startsWith s (lit "/)").

(** The header of a block: a name without white space, white space, and a
    qmd address in parentheses, with or without a final slash.  The address
    is the shortest one: it ends at the first place, after its first
    character, where [)] or [/)] comes. *)
Definition header (block name u : jsstring) : Prop :=
  exists w slash rest,
    block = name ++ w ++ lit "(qmd://" ++ u ++ slash ++ lit ")" ++ rest
    /\ name ≠ [] /\ Forall (fun c => isWhiteSpace c = false) name
    /\ w ≠ [] /\ Forall (fun c => isWhiteSpace c = true) w
    /\ u ≠ [] /\ Forall (fun c => isWhiteSpace c = false) u
    /\ (slash = [] \/ slash = lit "/")
    /\ forall u1 u2, u = u1 ++ u2 -> u1 ≠ [] -> u2 ≠ [] ->
         closing (u2 ++ slash ++ lit ")" ++ rest) = false.

(** White space, and then a character that [p] accepts. *)
Definition follows (p : N -> bool) (rest : jsstring) : Prop :=
  exists w c post,
    rest = w ++ c :: post
    /\ w ≠ [] /\ Forall (fun c => isWhiteSpace c = true) w /\ p c = true.







(** * Properties *)

(** ** Strings *)

Lemma truthy_false (s : jsstring) : truthy s = false <-> s = [].
Proof. destruct s; simpl; split; congruence. Qed.

Lemma truthy_true (s : jsstring) : truthy s = true <-> s ≠ [].
Proof. destruct s; simpl; split; congruence. Qed.


(** ** views/files.ts: the fuzzy filter *)

Section FilesFacts.
Import Files.
Variable toLowerCase : jsstring -> jsstring.
Hypothesis toLowerCase_empty : toLowerCase [] = [].

Lemma fuzzyLoop_sublist (q rest : jsstring) (qi : nat) :
  (qi <= length q)%nat ->
  fuzzyLoop q rest qi = length q <-> drop qi q `sublist_of` rest.
Proof.
  revert qi. induction rest as [|c rest IH]; intros qi Hqi; simpl.
  - rewrite sublist_nil_r. split.
    + intros ->. apply drop_all.
    + intros H. apply (f_equal length) in H. rewrite length_drop in H.
      simpl in H. lia.
  - destruct (Nat.ltb_spec qi (length q)) as [Hlt|Hge].
    + destruct (lookup_lt_is_Some_2 q qi Hlt) as [d Hd].
      rewrite (drop_S _ _ _ Hd). rewrite Hd.
      destruct (decide (Some c = Some d)) as [Heq|Hne].
      * injection Heq as ->. rewrite IH by lia.
        split; intros H.
        -- by apply sublist_skip.
        -- apply sublist_cons_r in H as [H|(l' & [= <-] & H)]; [|done].
           etrans; [|exact H]. by apply sublist_cons.
      * rewrite IH by lia. rewrite (drop_S _ _ _ Hd).
        split; intros H.
        -- by apply sublist_cons.
        -- apply sublist_cons_r in H as [H|(l' & [= <- <-] & H)]; [done|].
           congruence.
    + assert (qi = length q) as -> by lia.
      rewrite drop_all. split; [intros _; apply sublist_nil_l | done].
Qed.

Lemma fuzzyMatch_sublist (query text : jsstring) :
  fuzzyMatch toLowerCase query text = true
  <-> toLowerCase query `sublist_of` toLowerCase text.
Proof.
  unfold fuzzyMatch. rewrite Nat.eqb_eq.
  rewrite fuzzyLoop_sublist by lia. by rewrite drop_0.
Qed.

(** C8. [fuzzyMatch query text] holds exactly when the lowered query is a
    subsequence of the lowered text; the empty query matches every text, and
    a filter that is blank after trimming leaves every file in the list. *)
Theorem fuzzyMatch_subsequence (query text : jsstring) (v : FilesView) :
  (fuzzyMatch toLowerCase query text = true
   <-> toLowerCase query `sublist_of` toLowerCase text)
  /\ fuzzyMatch toLowerCase [] text = true
  /\ (trim (input_value v) = [] ->
      filesList_options (applyFilter toLowerCase v) = map fileOption (allFiles v)).
Proof.
  split; [apply fuzzyMatch_sublist|]. split.
  - apply fuzzyMatch_sublist. rewrite toLowerCase_empty. apply sublist_nil_l.
  - intros Hblank. unfold applyFilter. simpl. by rewrite Hblank.
Qed.

End FilesFacts.

Lemma fuzzyMatch_subsequence_witness :
  let v := Files.mkFilesView (lit "  ")
             [Files.mkFileEntry (lit "3.2 KB") (lit "Sep 24") (lit "qmd://n/README.md")
                (lit "README.md")] [] [] in
  (Files.fuzzyMatch asciiLower (lit "RDM") (lit "readme.md") = true
   <-> asciiLower (lit "RDM") `sublist_of` asciiLower (lit "readme.md"))
  /\ Files.fuzzyMatch asciiLower [] (lit "readme.md") = true
  /\ Files.filesList_options (Files.applyFilter asciiLower v)
     = map Files.fileOption (Files.allFiles v).
Proof.
  intros v.
  destruct (fuzzyMatch_subsequence asciiLower eq_refl (lit "RDM") (lit "readme.md") v)
    as (H1 & H2 & H3).
  split; [exact H1|]. split; [exact H2|]. apply H3. reflexivity.
Defined.

(** ** app.ts: escaping *)

Section EscapeFacts.
Import PreviewPage.

Lemma replaceAll_nil c by_ : replaceAll c by_ [] = [].
Proof. reflexivity. Qed.

Lemma replaceAll_cons c by_ d s :
  replaceAll c by_ (d :: s) = (if d =? c then by_ else [d]) ++ replaceAll c by_ s.
Proof. reflexivity. Qed.

Lemma replaceAll_app c by_ s t :
  replaceAll c by_ (s ++ t) = replaceAll c by_ s ++ replaceAll c by_ t.
Proof. unfold replaceAll. apply bind_app. Qed.

Lemma replaceAll_single c by_ d :
  replaceAll c by_ [d] = if d =? c then by_ else [d].
Proof. rewrite replaceAll_cons, replaceAll_nil. apply app_nil_r. Qed.

(** One pass over the text: every code unit becomes its entity.  The [&]
    of the entities is not escaped again, since [&] goes first. *)
Lemma escapeHtml_entities (s : jsstring) : escapeHtml s = c ← s; entity c.
Proof.
  unfold escapeHtml. induction s as [|c s IH]; [reflexivity|].
  rewrite (replaceAll_cons 38). rewrite !replaceAll_app, IH.
  rewrite bind_cons. f_equal. unfold entity.
  destruct (N.eqb_spec c 38) as [->|H38]; [reflexivity|].
  rewrite replaceAll_single.
  destruct (N.eqb_spec c 60) as [->|H60]; [reflexivity|].
  rewrite replaceAll_single.
  destruct (N.eqb_spec c 62) as [->|H62]; [reflexivity|].
  rewrite replaceAll_single.
  destruct (N.eqb_spec c 34) as [->|H34]; reflexivity.
Qed.

Lemma entity_markupFree (c : N) : markupFree (entity c).
Proof.
  unfold entity, markupFree.
  destruct (N.eqb_spec c 38); [repeat constructor; done|].
  destruct (N.eqb_spec c 60); [repeat constructor; done|].
  destruct (N.eqb_spec c 62); [repeat constructor; done|].
  destruct (N.eqb_spec c 34); [repeat constructor; done|].
  repeat constructor; done.
Qed.

Lemma escapeHtml_markupFree (s : jsstring) : markupFree (escapeHtml s).
Proof.
  rewrite escapeHtml_entities. unfold markupFree.
  induction s as [|c s IH]; [constructor|].
  rewrite bind_cons. apply Forall_app. split; [apply entity_markupFree | exact IH].
Qed.

End EscapeFacts.

Section PreviewPageFacts.
Import PreviewPage.
Variable yaml : Frontmatter.Yaml.
Variable marked_parse : jsstring -> Result jsstring.

Lemma renderFrontmatter_shape (entries : list (jsstring * Frontmatter.value yaml)) :
  renderFrontmatter yaml entries = []
  \/ renderFrontmatter yaml entries
     = lit "<div class=" ++ dq ++ lit "frontmatter" ++ dq ++ lit "><dl>"
       ++ JS.join [] (map (frontmatterEntry yaml) entries) ++ lit "</dl></div>".
Proof. destruct entries; [by left | by right]. Qed.

Lemma readFrontmatter_html (rawContent filePath : jsstring) :
  (readFrontmatter yaml rawContent filePath).2 = []
  \/ exists entries,
       (readFrontmatter yaml rawContent filePath).2 = renderFrontmatter yaml entries.
Proof.
  unfold readFrontmatter.
  destruct (Regex.matchStart Frontmatter.pattern rawContent) as [m|]; [|by left].
  destruct (Frontmatter.parse yaml _) as [fm|e]; [|by left].
  destruct (Frontmatter.nullish yaml fm); [by left|].
  right. by eexists.
Qed.

(** C9. [escapeHtml s] has no raw [<], [>] or double quote: it is [s] with
    every [&], [<], [>] and double quote replaced by its entity, in one pass.
    In the page [buildPreviewHtml] builds, the title, in both places, and
    every key and value of the front matter go through [escapeHtml]. *)
Theorem escapeHtml_no_markup (s rawContent filePath : jsstring) :
  markupFree (escapeHtml s)
  /\ escapeHtml s = (c ← s; entity c)
  /\ let '(body, title, frontmatterHtml) := readFrontmatter yaml rawContent filePath in
     buildPreviewHtml yaml marked_parse rawContent filePath
     = match marked_parse body with
       | Throw e => Throw e
       | Ok htmlBody =>
           Ok (page_head ++ escapeHtml title ++ page_title_end ++ escapeHtml title
               ++ page_h1_end ++ frontmatterHtml ++ page_sep ++ htmlBody ++ page_tail)
       end
     /\ markupFree (escapeHtml title)
     /\ (frontmatterHtml = []
         \/ exists entries,
              frontmatterHtml
              = lit "<div class=" ++ dq ++ lit "frontmatter" ++ dq ++ lit "><dl>"
                ++ JS.join []
                     (map (fun kv =>
                             lit "<dt>" ++ escapeHtml kv.1 ++ lit "</dt><dd>"
                             ++ escapeHtml (Frontmatter.toString yaml kv.2)
                             ++ lit "</dd>") entries)
                ++ lit "</dl></div>"
              /\ Forall (fun kv =>
                           markupFree (escapeHtml kv.1)
                           /\ markupFree (escapeHtml (Frontmatter.toString yaml kv.2)))
                        entries).
Proof.
  split; [apply escapeHtml_markupFree|]. split; [apply escapeHtml_entities|].
  pose proof (readFrontmatter_html rawContent filePath) as Hfm.
  unfold buildPreviewHtml.
  destruct (readFrontmatter yaml rawContent filePath) as [[body title] fmHtml].
  simpl in Hfm. split; [reflexivity|]. split; [apply escapeHtml_markupFree|].
  destruct Hfm as [-> | [entries ->]]; [by left|].
  destruct (renderFrontmatter_shape entries) as [-> | ->]; [by left|].
  right. exists entries. split; [reflexivity|].
  apply Forall_forall. intros kv _. split; apply escapeHtml_markupFree.
Qed.

End PreviewPageFacts.

(** ** The [run] helpers *)

Section RunFacts.
Variable number : Type.
Variable spawn : list jsstring -> Result Proc.
Variable JSON_parse : jsstring -> Result (list (Mcp.SearchResult number)).

Lemma trimStart_suffix (s : jsstring) : exists pre, s = pre ++ trimStart s.
Proof.
  induction s as [|c s [pre IH]]; [by exists []|]. simpl.
  destruct (isWhiteSpace c); [|by exists []].
  exists (c :: pre). simpl. by rewrite <- IH.
Qed.

Lemma trim_infix (s : jsstring) : carries s (trim s).
Proof.
  unfold carries, trim, trimEnd.
  destruct (trimStart_suffix s) as [pre Hpre].
  destruct (trimStart_suffix (rev (trimStart s))) as [post Hpost].
  exists pre, (rev post). rewrite Hpre at 1. f_equal.
  rewrite <- (rev_involutive (trimStart s)) at 1. rewrite Hpost at 1.
  by rewrite rev_app_distr.
Qed.

(** C5. When the qmd process exits with code 0, both [run] helpers return
    its output as it is; when it exits with another code they throw, the
    helper of qmd-cli.ts with the trimmed error text, or with the exit code
    when that text is empty, the helper of mcp-client.ts with the command,
    the exit code and the error text.  They throw exactly when the code is
    not 0. *)
Theorem run_exit_code (args : list jsstring) (proc : Proc) :
  spawn (lit "qmd" :: args) = Ok proc ->
  let cliMessage :=
    if truthy (trim (stderr proc)) then trim (stderr proc)
    else lit "qmd exited with code " ++ String_of_Z (exited proc) in
  let mcpMessage :=
    lit "qmd " ++ JS.join (lit " ") args ++ lit " failed ("
    ++ String_of_Z (exited proc) ++ lit "): " ++ stderr proc in
  (exited proc = 0%Z ->
     QmdCli.run spawn args = Ok (stdout proc)
     /\ Mcp.run spawn args = Ok (stdout proc))
  /\ (exited proc ≠ 0%Z ->
        QmdCli.run spawn args = Throw (newError cliMessage)
        /\ Mcp.run spawn args = Throw (newError mcpMessage))
  /\ (carries cliMessage (trim (stderr proc))
      /\ (trim (stderr proc) = [] -> carries cliMessage (String_of_Z (exited proc))))
  /\ (carries mcpMessage (stderr proc)
      /\ carries mcpMessage (String_of_Z (exited proc)))
  /\ (throws (QmdCli.run spawn args) = true <-> exited proc ≠ 0%Z)
  /\ (throws (Mcp.run spawn args) = true <-> exited proc ≠ 0%Z).
Proof.
  intros Hspawn cliMessage mcpMessage.
  assert (carries cliMessage (trim (stderr proc))
          /\ (trim (stderr proc) = [] ->
              carries cliMessage (String_of_Z (exited proc)))) as Hcli.
  { subst cliMessage. destruct (trim (stderr proc)) as [|c t] eqn:Ht; simpl.
    - split; [by exists [], (lit "qmd exited with code " ++ String_of_Z (exited proc))|].
      intros _. exists (lit "qmd exited with code "), []. by rewrite app_nil_r.
    - split; [|done]. exists [], []. by rewrite app_nil_r. }
  assert (carries mcpMessage (stderr proc)
          /\ carries mcpMessage (String_of_Z (exited proc))) as Hmcp.
  { subst mcpMessage. split.
    - exists (lit "qmd " ++ JS.join (lit " ") args ++ lit " failed ("
              ++ String_of_Z (exited proc) ++ lit "): "), [].
      by rewrite app_nil_r, <- !app_assoc.
    - exists (lit "qmd " ++ JS.join (lit " ") args ++ lit " failed ("),
        (lit "): " ++ stderr proc).
      by rewrite <- !app_assoc. }
  unfold QmdCli.run, Mcp.run. rewrite Hspawn.
  destruct (Z.eqb_spec (exited proc) 0) as [H0|H0]; simpl.
  - split; [done|]. split; [done|]. split; [exact Hcli|]. split; [exact Hmcp|].
    split; (split; [discriminate | done]).
  - split; [done|]. split; [done|]. split; [exact Hcli|]. split; [exact Hmcp|].
    split; done.
Qed.

(** C10. Output that is empty after trimming, or that does not start with
    an opening bracket, is parsed to the empty list without a call of
    [JSON.parse]; so a search of any of the three kinds whose process exits
    with code 0 and prints such output has no result. *)
Theorem parseSearchOutput_not_json (output : jsstring) :
  trim output = [] \/ startsWith (trim output) (lit "[") = false ->
  Mcp.parseSearchOutput number JSON_parse output = Ok []
  /\ forall (query : jsstring) (opts : option Mcp.SearchOpts) (errText : jsstring),
       (spawn (lit "qmd" :: Mcp.searchArgs "search" query opts)
        = Ok (mkProc output errText 0) ->
        Mcp.search number spawn JSON_parse query opts = Ok [])
       /\ (spawn (lit "qmd" :: Mcp.searchArgs "vsearch" query opts)
           = Ok (mkProc output errText 0) ->
           Mcp.vectorSearch number spawn JSON_parse query opts = Ok [])
       /\ (spawn (lit "qmd" :: Mcp.searchArgs "query" query opts)
           = Ok (mkProc output errText 0) ->
           Mcp.deepSearch number spawn JSON_parse query opts = Ok []).
Proof.
  intros Hout.
  assert (Mcp.parseSearchOutput number JSON_parse output = Ok []) as Hparse.
  { unfold Mcp.parseSearchOutput.
    destruct Hout as [-> | ->]; [reflexivity|].
    by rewrite orb_true_r. }
  split; [exact Hparse|].
  intros query opts errText.
  unfold Mcp.search, Mcp.vectorSearch, Mcp.deepSearch, Mcp.run.
  repeat split; intros ->; simpl; exact Hparse.
Qed.

End RunFacts.

(** A qmd that fails with a message, and one that prints a notice. *)
Lemma run_exit_code_witness :
  let spawn := fun _ : list jsstring =>
                 Ok (mkProc [] (lit "collection not found" ++ nlx) 1) in
  QmdCli.run spawn [lit "ls"; lit "notes"]
  = Throw (newError (lit "collection not found"))
  /\ Mcp.run spawn [lit "ls"; lit "notes"]
     = Throw (newError (lit "qmd ls notes failed (1): collection not found" ++ nlx)).
Proof.
  intros spawn.
  destruct (run_exit_code spawn [lit "ls"; lit "notes"]
              (mkProc [] (lit "collection not found" ++ nlx) 1) eq_refl)
    as (_ & Hne & _).
  apply Hne. simpl. lia.
Defined.

Lemma parseSearchOutput_not_json_witness :
  let spawn := fun _ : list jsstring => Ok (mkProc (lit "No results found.") [] 0) in
  let JSON_parse := fun _ : jsstring =>
                      @Throw (list (Mcp.SearchResult unit)) (mkError (lit "SyntaxError") []) in
  Mcp.search unit spawn JSON_parse (lit "tea") None = Ok [].
Proof.
  intros spawn JSON_parse.
  destruct (parseSearchOutput_not_json unit spawn JSON_parse (lit "No results found."))
    as (_ & H).
  - right. reflexivity.
  - destruct (H (lit "tea") None []) as (Hs & _). apply Hs. reflexivity.
Defined.

(** ** The management forms *)

Section FormFacts.

(** C4. The add form calls [onComplete] only with a path and a name that
    are not empty after trimming, and shows an error status instead when one
    of them is; the rename form calls it only with a new name that is not
    empty after trimming. *)
Theorem forms_reject_empty
    (ctx : RenderContext) (add : AddCollectionView.t) (ren : RenameCollectionView.t) :
  (trim (AddCollectionView.pathInput add) = [] ->
     (AddCollectionView.submit ctx add).2 = None
     /\ AddCollectionView.statusText (AddCollectionView.submit ctx add).1.2
        = statusContent (lit "Path is required.") true)
  /\ (trim (AddCollectionView.pathInput add) ≠ [] ->
      trim (AddCollectionView.nameInput add) = [] ->
        (AddCollectionView.submit ctx add).2 = None
        /\ AddCollectionView.statusText (AddCollectionView.submit ctx add).1.2
           = statusContent (lit "Name is required.") true)
  /\ (trim (RenameCollectionView.newNameInput ren) = [] ->
        (RenameCollectionView.submit ren).2 = None)
  /\ (forall path name pattern,
        (AddCollectionView.submit ctx add).2 = Some (path, name, pattern) ->
        path = trim (AddCollectionView.pathInput add) /\ path ≠ []
        /\ name = trim (AddCollectionView.nameInput add) /\ name ≠ [])
  /\ (forall oldName newName,
        (RenameCollectionView.submit ren).2 = Some (oldName, newName) ->
        newName = trim (RenameCollectionView.newNameInput ren) /\ newName ≠ [])
  /\ (trim (AddCollectionView.pathInput add) ≠ [] ->
      trim (AddCollectionView.nameInput add) ≠ [] ->
        (AddCollectionView.submit ctx add).2
        = Some (trim (AddCollectionView.pathInput add),
                trim (AddCollectionView.nameInput add),
                or_else (trim (AddCollectionView.patternInput add)) (lit "**/*.md"))).
Proof.
  unfold AddCollectionView.submit, RenameCollectionView.submit.
  destruct (trim (AddCollectionView.pathInput add)) as [|p ps] eqn:Hp;
    destruct (trim (AddCollectionView.nameInput add)) as [|n ns] eqn:Hn;
    destruct (trim (RenameCollectionView.newNameInput ren)) as [|r rs] eqn:Hr;
    destruct (RenameCollectionView.currentCollection ren);
    simpl; repeat split; intros; simplify_eq; done.
Qed.

End FormFacts.

Lemma forms_reject_empty_witness :
  let add := AddCollectionView.mk (lit "  ") (lit "notes") [] [] 0 false [] [] in
  let ren := RenameCollectionView.mk [] (lit " ") [] None in
  let ctx := mkCtx None false in
  ((AddCollectionView.submit ctx add).2 = None
   /\ AddCollectionView.statusText (AddCollectionView.submit ctx add).1.2
      = statusContent (lit "Path is required.") true)
  /\ (RenameCollectionView.submit ren).2 = None.
Proof.
  intros add ren ctx.
  destruct (forms_reject_empty ctx add ren) as (H1 & _ & H3 & _).
  split; [apply H1 | apply H3]; reflexivity.
Defined.

(** ** Regular expressions: the matcher finds what the pattern can match *)

Section RegexFacts.
Import Regex.

Lemma star_sound {R} g p s (k : jsstring -> option R) x :
  star g p s k = Some x ->
  exists s1 s2, s = s1 ++ s2 /\ Forall (fun c => p c = true) s1 /\ k s2 = Some x.
Proof.
  induction s as [|c s IH]; destruct g; simpl.
  - intros H. by exists [], [].
  - destruct (k []) eqn:Hk; [|done]. intros [= ->]. by exists [], [].
  - destruct (p c) eqn:Hp.
    + destruct (star true p s k) eqn:Hs.
      * intros [= ->]. destruct (IH eq_refl) as (s1 & s2 & -> & Hall & Hk).
        exists (c :: s1), s2. repeat split; [by constructor | done].
      * intros H. by exists [], (c :: s).
    + intros H. by exists [], (c :: s).
  - destruct (k (c :: s)) eqn:Hk.
    + intros [= ->]. by exists [], (c :: s).
    + destruct (p c) eqn:Hp; [|done]. intros H.
      destruct (IH H) as (s1 & s2 & -> & Hall & Hk').
      exists (c :: s1), s2. repeat split; [by constructor | done].
Qed.

Lemma star_complete {R} g p s (k : jsstring -> option R) :
  star g p s k = None ->
  forall s1 s2, s = s1 ++ s2 -> Forall (fun c => p c = true) s1 -> k s2 = None.
Proof.
  induction s as [|c s IH]; destruct g; simpl.
  - intros H s1 s2 Heq _. symmetry in Heq. apply app_eq_nil in Heq as [-> ->]. done.
  - destruct (k []) eqn:Hk; [done|].
    intros _ s1 s2 Heq _. symmetry in Heq. apply app_eq_nil in Heq as [-> ->]. done.
  - destruct (p c) eqn:Hp.
    + destruct (star true p s k) eqn:Hs; [done|].
      intros Hk s1 s2 Heq Hall.
      destruct s1 as [|d s1]; simpl in Heq; [by subst|].
      injection Heq as -> ->. apply Forall_cons in Hall as [_ Hall].
      by eapply IH.
    + intros Hk s1 s2 Heq Hall.
      destruct s1 as [|d s1]; simpl in Heq; [by subst|].
      injection Heq as -> ->. apply Forall_cons in Hall as [Hd _]. congruence.
  - destruct (k (c :: s)) eqn:Hk; [done|].
    intros H s1 s2 Heq Hall.
    destruct s1 as [|d s1]; simpl in Heq; [by subst|].
    injection Heq as -> ->. apply Forall_cons in Hall as [Hd Hall].
    rewrite Hd in H. by eapply IH.
Qed.

Lemma star_None_ext {R} g p s (k1 k2 : jsstring -> option R) :
  (forall s', k1 s' = None -> k2 s' = None) ->
  star g p s k1 = None -> star g p s k2 = None.
Proof.
  intros Hk. induction s as [|c s IH]; destruct g; simpl.
  - apply Hk.
  - destruct (k1 []) eqn:H1; [done|]. by rewrite (Hk _ H1).
  - destruct (p c); [|apply Hk].
    destruct (star true p s k1) eqn:H1; [done|]. rewrite (IH eq_refl). apply Hk.
  - destruct (k1 (c :: s)) eqn:H1; [done|]. rewrite (Hk _ H1).
    destruct (p c); [exact IH | done].
Qed.

(** Whatever the matcher returns comes from a match of the pattern. *)
Lemma exec_sound (r : re) :
  forall R (s : jsstring) (caps : captures) (k : jsstring -> captures -> option R) x,
    exec r s caps k = Some x ->
    exists s' caps', Matches r s caps s' caps' /\ k s' caps' = Some x.
Proof.
  induction r as [|c|p|r1 IH1 r2 IH2|g p|g p|r1 IH1|i r1 IH1|r1 IH1|];
    intros R s caps k x; simpl.
  - intros H. exists s, caps. split; [constructor | done].
  - destruct s as [|d s]; [done|]. destruct (N.eqb_spec c d) as [->|]; [|done].
    intros H. exists s, caps. split; [constructor | done].
  - destruct s as [|d s]; [done|]. destruct (p d) eqn:Hp; [|done].
    intros H. exists s, caps. split; [by constructor | done].
  - intros H. apply IH1 in H as (s1 & caps1 & HM1 & H).
    apply IH2 in H as (s2 & caps2 & HM2 & H).
    exists s2, caps2. split; [econstructor; eauto | done].
  - intros H. apply star_sound in H as (s1 & s2 & -> & Hall & H).
    exists s2, caps. split; [by constructor | done].
  - destruct s as [|d s]; [done|]. destruct (p d) eqn:Hp; [|done].
    intros H. apply star_sound in H as (s1 & s2 & -> & Hall & H).
    exists s2, caps. split; [by constructor | done].
  - destruct (exec r1 s caps k) eqn:H1.
    + intros [= ->]. apply IH1 in H1 as (s' & caps' & HM & H).
      exists s', caps'. split; [by constructor | done].
    + intros H. exists s, caps. split; [apply M_Opt_none | done].
  - intros H. apply IH1 in H as (s' & caps' & HM & H).
    eexists s', _. split; [by constructor | done].
  - destruct (exec r1 s caps (fun _ caps' => Some caps')) as [caps1|] eqn:H1; [|done].
    intros H. apply IH1 in H1 as (s' & caps' & HM & [= ->]).
    exists s, caps1. split; [by econstructor | done].
  - destruct s; [|done]. intros H. exists [], caps. split; [constructor | done].
Qed.

Lemma exec_capsBlind (r : re) :
  forall R (k : jsstring -> captures -> option R),
    capsBlind k -> capsBlind (fun s caps => exec r s caps k).
Proof.
  induction r as [|c|p|r1 IH1 r2 IH2|g p|g p|r1 IH1|i r1 IH1|r1 IH1|];
    intros R k Hk s caps caps'; simpl.
  - apply Hk.
  - destruct s as [|d s]; [done|]. destruct (c =? d); [apply Hk | done].
  - destruct s as [|d s]; [done|]. destruct (p d); [apply Hk | done].
  - apply (IH1 _ (fun s' caps' => exec r2 s' caps' k)). by apply IH2.
  - apply star_None_ext. intros s'. apply Hk.
  - destruct s as [|d s]; [done|]. destruct (p d); [|done].
    apply star_None_ext. intros s'. apply Hk.
  - destruct (exec r1 s caps k) eqn:H1; [done|]. intros H.
    rewrite (IH1 _ k Hk s caps caps' H1). by apply (Hk s caps).
  - apply (IH1 _ (fun s' caps' => k s' (<[i:=take (length s - length s') s]> caps'))).
    intros s1 c1 c2. apply Hk.
  - destruct (exec r1 s caps (fun _ c => Some c)) as [c1|] eqn:H1.
    + intros H. destruct (exec r1 s caps' (fun _ c => Some c)) as [c2|]; [|done].
      by apply (Hk s c1).
    + intros _. rewrite (IH1 _ (fun _ c => Some c)) with (caps := caps); [done| |done].
      intros ? ? ?. done.
  - destruct s; [apply Hk | done].
Qed.

(** The matcher fails only when no match of the pattern lets the rest
    succeed. *)
Lemma exec_complete r s caps s' caps' :
  Matches r s caps s' caps' ->
  forall R (k : jsstring -> captures -> option R),
    capsBlind k -> exec r s caps k = None -> k s' caps' = None.
Proof.
  induction 1 as [s caps|c s caps|p c s caps Hp
                 |r1 r2 s caps s1 caps1 s2 caps2 _ IH1 _ IH2
                 |g p s1 s2 caps Hall|g p c s1 s2 caps Hp Hall
                 |r s caps s' caps' _ IH|r s caps
                 |i r s caps s' caps' _ IH|r s caps s' caps' _ IH|caps];
    intros R k Hk; simpl.
  - done.
  - by rewrite N.eqb_refl.
  - by rewrite Hp.
  - intros Hexec. apply IH2; [exact Hk|].
    apply (IH1 _ (fun s' caps' => exec r2 s' caps' k)); [|exact Hexec].
    by apply exec_capsBlind.
  - intros Hexec. by eapply (star_complete g p _ _ Hexec).
  - rewrite Hp. intros Hexec. by eapply (star_complete g p _ _ Hexec).
  - destruct (exec r s caps k) eqn:H1; [done|]. intros _. by eapply IH.
  - by destruct (exec r s caps k).
  - intros Hexec.
    apply (IH _ (fun s' caps' => k s' (<[i:=take (length s - length s') s]> caps')));
      [|exact Hexec].
    intros s1 c1 c2. apply Hk.
  - destruct (exec r s caps (fun _ c => Some c)) as [c1|] eqn:H1.
    + apply Hk.
    + apply (IH _ (fun _ c => Some c)) in H1; [done|]. intros ? ? ?. done.
  - done.
Qed.

(** A match consumes a prefix. *)
Lemma Matches_prefix r s caps s' caps' :
  Matches r s caps s' caps' -> exists pre, s = pre ++ s'.
Proof.
  induction 1.
  - by exists [].
  - by exists [c].
  - by exists [c].
  - destruct IHMatches1 as [p1 ->], IHMatches2 as [p2 ->].
    exists (p1 ++ p2). by rewrite app_assoc.
  - by exists s1.
  - by exists (c :: s1).
  - done.
  - by exists [].
  - done.
  - by exists [].
  - by exists [].
Qed.

Lemma take_prefix (pre s : jsstring) :
  take (length (pre ++ s) - length s) (pre ++ s) = pre.
Proof.
  rewrite length_app. replace (length pre + length s - length s)%nat with (length pre) by lia.
  by rewrite take_app_length.
Qed.

(** Inversion of [Matches], one lemma for each form of pattern. *)

Lemma Matches_Eps_inv s caps s' caps' :
  Matches Eps s caps s' caps' -> s' = s /\ caps' = caps.
Proof. by inversion 1. Qed.

Lemma Matches_Chr_inv c s caps s' caps' :
  Matches (Chr c) s caps s' caps' -> s = c :: s' /\ caps' = caps.
Proof. by inversion 1. Qed.

Lemma Matches_Cls_inv p s caps s' caps' :
  Matches (Cls p) s caps s' caps' -> exists c, s = c :: s' /\ p c = true /\ caps' = caps.
Proof. inversion 1; subst. by eexists. Qed.

Lemma Matches_Seq_inv r1 r2 s caps s2 caps2 :
  Matches (Seq r1 r2) s caps s2 caps2 ->
  exists s1 caps1, Matches r1 s caps s1 caps1 /\ Matches r2 s1 caps1 s2 caps2.
Proof. inversion 1; subst. by eexists _, _. Qed.

Lemma Matches_Star_inv g p s caps s' caps' :
  Matches (Star g p) s caps s' caps' ->
  exists s1, s = s1 ++ s' /\ Forall (fun c => p c = true) s1 /\ caps' = caps.
Proof. inversion 1; subst. by eexists. Qed.

Lemma Matches_Plus_inv g p s caps s' caps' :
  Matches (Plus g p) s caps s' caps' ->
  exists s1, s = s1 ++ s' /\ s1 ≠ [] /\ Forall (fun c => p c = true) s1 /\ caps' = caps.
Proof.
  inversion 1; subst. exists (c :: s1). repeat split; [done | by constructor].
Qed.

Lemma Matches_Opt_inv r s caps s' caps' :
  Matches (Opt r) s caps s' caps' ->
  Matches r s caps s' caps' \/ (s' = s /\ caps' = caps).
Proof. inversion 1; subst; [by left | by right]. Qed.

Lemma Matches_Group_inv i r s caps s' caps'' :
  Matches (Group i r) s caps s' caps'' ->
  exists caps', Matches r s caps s' caps'
                /\ caps'' = <[i := take (length s - length s') s]> caps'.
Proof. inversion 1; subst. by eexists. Qed.

Lemma Matches_LookAhead_inv r s caps s' caps' :
  Matches (LookAhead r) s caps s' caps' ->
  s' = s /\ exists s1, Matches r s caps s1 caps'.
Proof. inversion 1; subst. split; [done | by eexists]. Qed.

Lemma Matches_Eol_inv s caps s' caps' :
  Matches Eol s caps s' caps' -> s = [] /\ s' = [] /\ caps' = caps.
Proof. by inversion 1. Qed.

Lemma Matches_Str_inv str s caps s' caps' :
  Matches (Str str) s caps s' caps' -> s = str ++ s' /\ caps' = caps.
Proof.
  revert s caps. induction str as [|c str IH]; intros s caps H; simpl in H.
  - apply Matches_Eps_inv in H as [-> ->]. done.
  - apply Matches_Seq_inv in H as (s1 & caps1 & H1 & H2).
    apply Matches_Chr_inv in H1 as [-> ->].
    apply IH in H2 as [-> ->]. done.
Qed.

Lemma Matches_Str str s caps : Matches (Str str) (str ++ s) caps s caps.
Proof.
  induction str as [|c str IH]; simpl; [constructor|].
  econstructor; [constructor | exact IH].
Qed.

Lemma Matches_Plus_intro g (p : N -> bool) s1 s2 caps :
  s1 ≠ [] -> Forall (fun c => p c = true) s1 ->
  Matches (Plus g p) (s1 ++ s2) caps s2 caps.
Proof.
  destruct s1 as [|c s1]; [done|]. intros _ Hall.
  apply Forall_cons in Hall as [Hc Hall]. by apply M_Plus.
Qed.

Lemma Matches_Opt_Chr c (opt s : jsstring) caps :
  opt = [] \/ opt = [c] -> Matches (Opt (Chr c)) (opt ++ s) caps s caps.
Proof. intros [-> | ->]; [apply M_Opt_none | apply M_Opt_some, M_Chr]. Qed.

Lemma nonws_true c : nonws c = true <-> isWhiteSpace c = false.
Proof. unfold nonws. by rewrite negb_true_iff. Qed.

Lemma Forall_nonws (s : jsstring) :
  Forall (fun c => nonws c = true) s <-> Forall (fun c => isWhiteSpace c = false) s.
Proof. apply Forall_iff. intros c. apply nonws_true. Qed.

(** *** The header of a block *)

Lemma header_sound (block : jsstring) (m : MatchResult) :
  matchStart QmdCli.headerPattern block = Some m ->
  exists name u,
    groups m !! 1%nat = Some name /\ groups m !! 2%nat = Some u
    /\ headerShape block name u.
Proof.
  unfold matchStart. intros H.
  apply exec_sound in H as (s' & caps' & HM & [= <-]).
  unfold QmdCli.headerPattern in HM. cbn [Seqs] in HM.
  apply Matches_Seq_inv in HM as (s1 & c1 & Hname & HM).
  apply Matches_Seq_inv in HM as (s2 & c2 & Hws & HM).
  apply Matches_Seq_inv in HM as (s3 & c3 & Hlit & HM).
  apply Matches_Seq_inv in HM as (s4 & c4 & Hu & HM).
  apply Matches_Seq_inv in HM as (s5 & c5 & Hslash & HM).
  apply Matches_Seq_inv in HM as (s6 & c6 & Hparen & HM).
  apply Matches_Eps_inv in HM as [-> ->].
  apply Matches_Chr_inv in Hparen as [-> ->].
  assert (exists slash, s4 = slash ++ 41 :: s6 /\ c5 = c4
                        /\ (slash = [] \/ slash = lit "/")) as (slash & -> & -> & Hsl).
  { apply Matches_Opt_inv in Hslash as [Hslash|[-> ->]].
    - apply Matches_Chr_inv in Hslash as [-> ->]. exists (lit "/"). eauto.
    - exists []. eauto. }
  apply Matches_Group_inv in Hname as (c1' & Hname & ->).
  apply Matches_Plus_inv in Hname as (name & -> & Hname0 & Hname & ->).
  apply Matches_Plus_inv in Hws as (w & -> & Hw0 & Hw & ->).
  apply Matches_Str_inv in Hlit as [-> ->].
  apply Matches_Group_inv in Hu as (c4' & Hu & ->).
  apply Matches_Plus_inv in Hu as (u & -> & Hu0 & Hu & ->).
  exists name, u. cbn [groups].
  rewrite !take_prefix.
  split; [by rewrite lookup_insert_ne, lookup_insert_eq|].
  split; [by rewrite lookup_insert_eq|].
  exists w, slash, s6. rewrite <- !Forall_nonws.
  repeat split; try done.
Qed.

Lemma header_complete (block name u : jsstring) :
  headerShape block name u -> matchStart QmdCli.headerPattern block ≠ None.
Proof.
  intros (w & slash & rest & -> & Hname0 & Hname & Hw0 & Hw & Hu0 & Hu & Hsl) Hnone.
  unfold matchStart in Hnone.
  eapply exec_complete in Hnone; [done | | intros ? ? ?; done].
  unfold QmdCli.headerPattern. cbn [Seqs].
  eapply M_Seq.
  { apply M_Group. apply Matches_Plus_intro; [done | by apply Forall_nonws]. }
  eapply M_Seq; [by apply Matches_Plus_intro|].
  eapply M_Seq; [apply Matches_Str|].
  eapply M_Seq.
  { apply M_Group. apply Matches_Plus_intro; [done | by apply Forall_nonws]. }
  eapply M_Seq; [by apply Matches_Opt_Chr|].
  eapply M_Seq; [apply (M_Chr 41 rest) | apply M_Eps].
Qed.

End RegexFacts.

(** ** qmd-cli.ts: the list of collections *)

Section SplitFacts.
Import Regex.








End SplitFacts.

Section ListCollectionsFacts.
Import Regex QmdCli.
Variable spawn : list jsstring -> Result Proc.
Variable readText : jsstring -> Result jsstring.
Variable YAML_parse : jsstring -> Result (Unchecked QmdConfig).
Variable nullishMessage : string -> Nullish -> jsstring -> jsstring.
Variable path_join : list jsstring -> jsstring.
Variable XDG_CONFIG_HOME : option jsstring.
Variable HOME : jsstring.

Local Abbreviation listCollections :=
  (QmdCli.listCollections spawn readText YAML_parse nullishMessage path_join
     XDG_CONFIG_HOME HOME).
Local Abbreviation loadQmdConfig :=
  (QmdCli.loadQmdConfig readText YAML_parse path_join XDG_CONFIG_HOME HOME).
Local Abbreviation listCollections_loop := (QmdCli.listCollections_loop nullishMessage).

Lemma searchFrom_sound r (s : jsstring) (idx : nat) (m : MatchResult) :
  searchFrom r s idx = Some m ->
  exists s0 s' caps', Matches r s0 ∅ s' caps' /\ groups m = caps'.
Proof.
  revert idx. induction s as [|c s IH]; intros idx; simpl.
  - destruct (exec r [] ∅ _) eqn:H; [|done]. intros [= <-].
    apply exec_sound in H as (s' & caps' & HM & [= <-]). by eexists _, _, _.
  - destruct (exec r (c :: s) ∅ _) eqn:H.
    + intros [= <-]. apply exec_sound in H as (s' & caps' & HM & [= <-]).
      by eexists _, _, _.
    + apply IH.
Qed.

Lemma files_digits (block digits : jsstring) :
  group 1 (search QmdCli.filesPattern block) = Some digits ->
  digits ≠ [] /\ Forall (fun c => digit c = true) digits.
Proof.
  unfold group, search.
  destruct (searchFrom QmdCli.filesPattern block 0) as [m|] eqn:Hm; [|done].
  simpl. apply searchFrom_sound in Hm as (s0 & s' & caps' & HM & ->).
  unfold QmdCli.filesPattern in HM. cbn [Seqs] in HM.
  apply Matches_Seq_inv in HM as (s1 & c1 & Hlit & HM).
  apply Matches_Seq_inv in HM as (s2 & c2 & Hws & HM).
  apply Matches_Seq_inv in HM as (s3 & c3 & Hd & HM).
  apply Matches_Eps_inv in HM as [-> ->].
  apply Matches_Group_inv in Hd as (c3' & Hd & ->).
  apply Matches_Plus_inv in Hd as (ds & -> & Hd0 & Hd & ->).
  rewrite take_prefix, lookup_insert_eq. by intros [= <-].
Qed.

Lemma loadQmdConfig_file :
  loadQmdConfig
  = match readText (configFile path_join XDG_CONFIG_HOME HOME) with
    | Ok content =>
        match YAML_parse content with
        | Ok config => config
        | Throw _ => present (mkQmdConfig (present ∅))
        end
    | Throw _ => present (mkQmdConfig (present ∅))
    end.
Proof.
  unfold QmdCli.loadQmdConfig, configFile, or_else. by destruct XDG_CONFIG_HOME.
Qed.


(** Without one it throws at the first block that has a header. *)
Lemma listCollections_loop_without config (blocks : list jsstring) acc :
  withoutCollections config ->
  (Forall (fun b => matchStart headerPattern b = None) blocks
   /\ listCollections_loop config blocks acc = Ok acc)
  \/ (Exists (fun b => matchStart headerPattern b ≠ None) blocks
      /\ exists e, listCollections_loop config blocks acc = Throw e
                   /\ ename e = lit "TypeError").
Proof.
  intros Hconfig. induction blocks as [|b blocks IH]; simpl.
  - left. by split.
  - unfold listCollections_step.
    destruct (matchStart headerPattern b) as [m|] eqn:Hm; simpl.
    + right. split; [left; by rewrite Hm|].
      destruct config as [n|[[n|entries]]]; simpl in *; [| |done]; by eexists.
    + destruct IH as [[Hall Hloop]|[Hex Hloop]].
      * left. split; [by constructor | done].
      * right. split; [by right | done].
Qed.

(** C6. A configuration file that can be read and parsed but has no table
    of collections makes [listCollections] fail.  When
    [qmd collection list] exits with code 0 and the parsed file is [null]
    (an empty file) or has nothing under [collections], the result is a
    [TypeError] as soon as one block of the output has a header, that is
    begins with a name, white space and a qmd address in parentheses; the
    list is empty otherwise.  No record with an empty path is produced. *)
Theorem listCollections_without_collections
    (output errText content : jsstring) (config : Unchecked QmdConfig) :
  spawn [lit "qmd"; lit "collection"; lit "list"] = Ok (mkProc output errText 0) ->
  readText (configFile path_join XDG_CONFIG_HOME HOME) = Ok content ->
  YAML_parse content = Ok config ->
  withoutCollections config ->
  let blocks := split blockSeparator output in
  ((exists block name u, block ∈ blocks /\ headerShape block name u) ->
   exists e, listCollections = Throw e /\ ename e = lit "TypeError")
  /\ ((forall block name u, block ∈ blocks -> ~ headerShape block name u) ->
      listCollections = Ok []).
Proof.
  intros Hspawn Hread Hparse Hconfig blocks.
  assert (listCollections = listCollections_loop config blocks []) as ->.
  { unfold QmdCli.listCollections, QmdCli.run. rewrite Hspawn. simpl.
    by rewrite loadQmdConfig_file, Hread, Hparse. }
  destruct (listCollections_loop_without config blocks [] Hconfig)
    as [[Hall Hloop]|[Hex Hloop]].
  - split; [|done]. intros (block & name & u & Hin & Hshape).
    rewrite Forall_forall in Hall. apply Hall in Hin.
    by apply header_complete in Hshape.
  - split; [done|]. intros Hno. apply Exists_exists in Hex as (block & Hin & Hm).
    destruct (matchStart headerPattern block) as [m|] eqn:Hmatch; [|done].
    apply header_sound in Hmatch as (name & u & _ & _ & Hshape).
    by destruct (Hno block name u).
Qed.

End ListCollectionsFacts.

Lemma listCollections_without_collections_witness :
  exists e,
    QmdCli.listCollections Sample.spawn Sample.emptyFile Sample.emptyDocument
      Sample.nullishMessage Sample.path_join None (lit "/home/u")
    = Throw e
    /\ ename e = lit "TypeError".
Proof.
  apply (listCollections_without_collections Sample.spawn Sample.emptyFile
           Sample.emptyDocument Sample.nullishMessage Sample.path_join None
           (lit "/home/u") Sample.listing [] [] (QmdCli.absent QmdCli.js_null));
    [reflexivity | reflexivity | reflexivity | exact I |].
  exists (lit "notes (qmd://notes/)" ++ nlx ++ lit "  Pattern:  **/*.md" ++ nlx
          ++ lit "  Files:    12" ++ nlx ++ lit "  Updated:  2d ago" ++ nlx),
    (lit "notes"), (lit "notes").
  split; [vm_compute; set_solver|].
  exists (lit " "), (lit "/"),
    (nlx ++ lit "  Pattern:  **/*.md" ++ nlx ++ lit "  Files:    12" ++ nlx
     ++ lit "  Updated:  2d ago" ++ nlx).
  repeat split; try done; by repeat constructor.
Defined.

(** ** app.ts: the live preview *)

Section PreviewFacts.
Import App.
Variable number : Type.
Variable yaml : Frontmatter.Yaml.
Variable readText : jsstring -> Result jsstring.
Variable path_join : list jsstring -> jsstring.
Variable exists_ : jsstring -> bool.
Variable marked_parse : jsstring -> Result jsstring.
Variable decodeURIComponent : jsstring -> Result jsstring.

Local Abbreviation fetch :=
  (App.fetch yaml readText path_join exists_ marked_parse decodeURIComponent).

Implicit Types (a : App number) (w : nat) (t : Z).

Lemma watchListener_preview w filename a :
  preview (watchListener w filename a) = preview a.
Proof.
  unfold watchListener.
  destruct (watchers (runtime a) !! w) as [cl|]; [|done].
  by destruct filename as [f|]; [destruct (truthy f && _)|].
Qed.

Lemma elapse_version t a :
  previewVersion (preview (elapse t a))
  = previewVersion (preview a)
    + N.of_nat (size (filter (fun kv => (kv.2 <=? t)%Z = true) (timers (runtime a)))).
Proof. reflexivity. Qed.

Lemma previewStep_mono a ev :
  previewVersion (preview a) <= previewVersion (preview (previewStep a ev)).
Proof.
  destruct ev as [t|w f]; cbn [previewStep].
  - rewrite elapse_version. lia.
  - by rewrite watchListener_preview.
Qed.

Lemma previewRun_mono evs a :
  previewVersion (preview a) <= previewVersion (preview (previewRun evs a)).
Proof.
  revert a. induction evs as [|ev evs IH]; intros a; simpl; [done|].
  etrans; [apply (previewStep_mono a ev) | apply IH].
Qed.

Lemma previewRun_timed_cons w t f evs a :
  previewRun (timed w ((t, f) :: evs)) a
  = previewRun (timed w evs) (watchListener w f (elapse t a)).
Proof. reflexivity. Qed.

(** The listener skips a change that names another file. *)
Lemma watchListener_other w (f : jsstring) a closure :
  watchers (runtime a) !! w = Some closure ->
  f ≠ [] -> f ≠ watchedName closure ->
  watchListener w (Some f) a = a.
Proof.
  intros Hw Hf Hne. unfold watchListener. rewrite Hw.
  apply truthy_true in Hf. rewrite Hf. simpl.
  by rewrite bool_decide_eq_true_2.
Qed.

Lemma matching_not_skipped name (filename : option jsstring) :
  matching name filename ->
  match filename with
  | Some f => truthy f && bool_decide (f ≠ name)
  | None => false
  end = false.
Proof.
  destruct filename as [f|]; [|done]. intros [-> | ->]; [done|].
  rewrite bool_decide_eq_false_2; [apply andb_false_r | by intros H].
Qed.

Lemma fired_pending (id : nat) (due t : Z) :
  (t < due)%Z ->
  filter (fun kv : nat * Z => (kv.2 <=? t)%Z = true) ({[id := due]} : gmap nat Z) = ∅
  /\ filter (fun kv : nat * Z => (kv.2 <=? t)%Z = false) ({[id := due]} : gmap nat Z)
     = {[id := due]}.
Proof.
  intros Hlt. split.
  - apply map_filter_singleton_False. cbn. rewrite Z.leb_le. lia.
  - apply map_filter_singleton_True. cbn. rewrite Z.leb_gt. lia.
Qed.

Lemma fired_due (id : nat) (due t : Z) :
  (due <= t)%Z ->
  filter (fun kv : nat * Z => (kv.2 <=? t)%Z = true) ({[id := due]} : gmap nat Z)
  = {[id := due]}.
Proof. intros Hle. apply map_filter_singleton_True. cbn. rewrite Z.leb_le. lia. Qed.

Lemma armed_first a w cl t (filename : option jsstring) :
  watchers (runtime a) !! w = Some cl ->
  timers (runtime a) = ∅ ->
  (now (runtime a) <= t)%Z ->
  matching (watchedName cl) filename ->
  armed (watchListener w filename (elapse t a)) w (watchedName cl) t
    (previewVersion (preview a)).
Proof.
  intros Hw Htimers Hnow Hmatch.
  unfold watchListener, elapse. cbn. rewrite Hw, Htimers.
  rewrite (matching_not_skipped _ _ Hmatch).
  rewrite !map_filter_empty.
  exists (mkWatch (watchedDir cl) (watchedName cl) (Some (nextTimer (runtime a)))),
    (nextTimer (runtime a)).
  destruct (debounce cl) as [old|]; cbn;
    rewrite ?delete_empty, lookup_insert_eq, insert_empty, map_size_empty;
    repeat split; try done; f_equal; lia.
Qed.

Lemma armed_next a w name t t' v (filename : option jsstring) :
  armed a w name t v ->
  (t <= t' < t + 100)%Z ->
  matching name filename ->
  armed (watchListener w filename (elapse t' a)) w name t' v.
Proof.
  intros (cl & id & Hw & <- & Hdeb & Htimers & Hnow & Hv) Ht Hmatch.
  unfold watchListener, elapse. cbn. rewrite Hw, Htimers, Hdeb.
  rewrite (matching_not_skipped _ _ Hmatch).
  destruct (fired_pending id (t + 100) t') as [-> ->]; [lia|].
  exists (mkWatch (watchedDir cl) (watchedName cl) (Some (nextTimer (runtime a)))),
    (nextTimer (runtime a)).
  cbn. rewrite delete_singleton_eq, lookup_insert_eq, insert_empty, map_size_empty.
  repeat split; try done; [f_equal; lia | lia | lia].
Qed.

Lemma armed_fires a w name t v T :
  armed a w name t v -> (t + 100 <= T)%Z ->
  previewVersion (preview (elapse T a)) = v + 1.
Proof.
  intros (cl & id & Hw & _ & Hdeb & Htimers & Hnow & Hv) HT.
  rewrite elapse_version, Htimers.
  rewrite fired_due by lia.
  rewrite map_size_singleton. lia.
Qed.

Lemma armed_burst w name evs :
  forall a t v,
    armed a w name t v ->
    paced t evs ->
    Forall (fun tf => matching name tf.2) evs ->
    armed (previewRun (timed w evs) a) w name (lastTime t evs) v.
Proof.
  induction evs as [|[t' f] evs IH]; intros a t v Harmed Hpaced Hall; [done|].
  rewrite previewRun_timed_cons. simpl in Hpaced. destruct Hpaced as [Ht Hpaced].
  apply Forall_cons in Hall as [Hf Hall]. simpl in Hf.
  apply (IH _ t' v); [|done|done]. by apply (armed_next a w name t).
Qed.

(** C1, as amended. A change that names a file other than the watched one
    leaves the application as it is.  A burst of changes that the listener
    does not skip, each less than 100 ms after the one before, leaves the
    version as it is while it lasts and adds one to it, once, when 100 ms
    have passed since the last of them.  The version never goes down, and
    [/version] answers with it. *)
Theorem preview_debounce a w closure (t0 : Z) (f0 : option jsstring)
    (evs : list (Z * option jsstring)) (T : Z) (f : jsstring)
    (others : list PreviewEvent) :
  watchers (runtime a) !! w = Some closure ->
  timers (runtime a) = ∅ ->
  (now (runtime a) <= t0)%Z ->
  Forall (fun tf => matching (watchedName closure) tf.2) ((t0, f0) :: evs) ->
  paced t0 evs ->
  (lastTime t0 evs + 100 <= T)%Z ->
  (f ≠ [] -> f ≠ watchedName closure -> watchListener w (Some f) a = a)
  /\ previewVersion (preview (previewRun (timed w ((t0, f0) :: evs)) a))
     = previewVersion (preview a)
  /\ previewVersion (preview (elapse T (previewRun (timed w ((t0, f0) :: evs)) a)))
     = previewVersion (preview a) + 1
  /\ previewVersion (preview a) <= previewVersion (preview (previewRun others a))
  /\ fetch a (lit "/version")
     = Ok (mkResponse
             (text_body (String_of_Z (Z.of_N (previewVersion (preview a))))) 200
             [(lit "Cache-Control", lit "no-cache")]).
Proof.
  intros Hw Htimers Hnow Hall Hpaced HT.
  apply Forall_cons in Hall as [Hf0 Hall]. simpl in Hf0.
  assert (armed (previewRun (timed w ((t0, f0) :: evs)) a) w (watchedName closure)
            (lastTime t0 evs) (previewVersion (preview a))) as Harmed.
  { rewrite previewRun_timed_cons. apply armed_burst; [|done|done].
    by apply armed_first. }
  split; [by apply watchListener_other|].
  split; [by destruct Harmed as (? & ? & _ & _ & _ & _ & _ & ?)|].
  split; [by eapply armed_fires|].
  split; [apply previewRun_mono | reflexivity].
Qed.

(** C3, as amended. [/version] answers with the version; [/] with the
    rendered document, or with 404 when no file is selected and 500 when the
    file cannot be read or rendered; any other path, once decoded, with the
    file of that path under the directory of the document when there is
    one, and with 404 only when there is none. *)
Theorem fetch_routes a (pathname reqPath : jsstring) :
  (pathname = lit "/version" ->
     fetch a pathname
     = Ok (mkResponse
             (text_body (String_of_Z (Z.of_N (previewVersion (preview a))))) 200
             [(lit "Cache-Control", lit "no-cache")]))
  /\ (pathname = lit "/" ->
      fetch a pathname
      = Ok match previewFilePath (preview a) with
           | Some (c :: p) =>
               match readText (c :: p) with
               | Ok content =>
                   match PreviewPage.buildPreviewHtml yaml marked_parse content (c :: p) with
                   | Ok html =>
                       mkResponse (text_body html) 200
                         [(lit "Content-Type", lit "text/html; charset=utf-8")]
                   | Throw err =>
                       mkResponse (text_body (lit "Error: " ++ Error_toString err)) 500 []
                   end
               | Throw err =>
                   mkResponse (text_body (lit "Error: " ++ Error_toString err)) 500 []
               end
           | _ => mkResponse (text_body (lit "No file selected")) 404 []
           end)
  /\ (pathname ≠ lit "/version" -> pathname ≠ lit "/" ->
      decodeURIComponent pathname = Ok reqPath ->
      fetch a pathname
      = Ok match previewBaseDir (preview a) with
           | Some (c :: baseDir) =>
               if exists_ (path_join [c :: baseDir; reqPath])
               then mkResponse (file_body (path_join [c :: baseDir; reqPath])) 200 []
               else mkResponse (text_body (lit "Not found")) 404 []
           | _ => mkResponse (text_body (lit "Not found")) 404 []
           end).
Proof.
  unfold App.fetch. repeat split.
  - intros ->. reflexivity.
  - intros ->. cbn.
    destruct (previewFilePath (preview a)) as [[|c p]|]; try reflexivity.
    cbn. destruct (readText (c :: p)); [|reflexivity].
    by destruct (PreviewPage.buildPreviewHtml _ _ _ _).
  - intros H1 H2 Hdec.
    rewrite !bool_decide_eq_false_2 by done.
    destruct (previewBaseDir (preview a)) as [[|c baseDir]|]; try reflexivity.
    cbn. rewrite Hdec. by destruct (exists_ _).
Qed.

End PreviewFacts.

Lemma preview_debounce_witness :
  let a := Sample.previewing in
  let burst := App.timed 0 [(10, Some (lit "a.md")); (50, None); (120, Some (lit "a.md"))]%Z in
  App.watchListener 0 (Some (lit "b.md")) a = a
  /\ App.previewVersion (App.preview (App.previewRun burst a)) = 0
  /\ App.previewVersion (App.preview (App.elapse 220 (App.previewRun burst a))) = 1.
Proof.
  intros a burst.
  destruct (preview_debounce unit Sample.yaml Sample.readText Sample.path_join
              Sample.exists_ Sample.marked_parse Sample.decodeURIComponent
              a 0%nat (App.mkWatch (lit "/docs") (lit "a.md") None)
              10%Z (Some (lit "a.md")) [(50, None); (120, Some (lit "a.md"))]%Z
              220%Z (lit "b.md") [])
    as (H1 & H2 & H3 & _).
  - reflexivity.
  - reflexivity.
  - vm_compute. discriminate.
  - apply Forall_cons; split; [right; reflexivity|].
    apply Forall_cons; split; [exact I|].
    apply Forall_cons; split; [right; reflexivity | constructor].
  - cbn. lia.
  - cbn. lia.
  - split; [apply H1; discriminate|]. split; [exact H2 | exact H3].
Defined.

(** A change reported without a file name, or with an empty one, is not
    skipped, though neither is the name of the watched file: 100 ms later
    the version has gone from 0 to 1. *)
Lemma watchListener_without_filename :
  App.watchers (App.runtime Sample.previewing) !! 0%nat
  = Some (App.mkWatch (lit "/docs") (lit "a.md") None)
  /\ (None : option jsstring) ≠ Some (lit "a.md")
  /\ Some [] ≠ Some (lit "a.md")
  /\ App.previewVersion (App.preview Sample.previewing) = 0
  /\ App.previewVersion
       (App.preview
          (App.previewRun [App.Changed 0 None; App.Elapsed 100] Sample.previewing)) = 1
  /\ App.previewVersion
       (App.preview
          (App.previewRun [App.Changed 0 (Some []); App.Elapsed 100] Sample.previewing)) = 1.
Proof.
  split; [vm_compute; reflexivity|]. split; [discriminate|]. split; [discriminate|].
  repeat split; vm_compute; reflexivity.
Qed.

Lemma fetch_routes_witness :
  let a := Sample.previewing in
  App.fetch Sample.yaml Sample.readText Sample.path_join Sample.exists_
    Sample.marked_parse Sample.decodeURIComponent a (lit "/missing.png")
  = Ok (App.mkResponse (App.text_body (lit "Not found")) 404 []).
Proof.
  intros a.
  destruct (fetch_routes unit Sample.yaml Sample.readText Sample.path_join
              Sample.exists_ Sample.marked_parse Sample.decodeURIComponent
              a (lit "/missing.png") (lit "/missing.png")) as (_ & _ & H).
  rewrite H; [vm_compute; reflexivity | discriminate | discriminate | reflexivity].
Defined.

(** A path other than [/] and [/version] that names an image next to the
    document is answered with the image, not with 404. *)
Lemma fetch_serves_files :
  lit "/img.png" ≠ lit "/" /\ lit "/img.png" ≠ lit "/version"
  /\ App.fetch Sample.yaml Sample.readText Sample.path_join Sample.exists_
       Sample.marked_parse Sample.decodeURIComponent Sample.previewing (lit "/img.png")
     = Ok (App.mkResponse (App.file_body (lit "/docs/img.png")) 200 []).
Proof.
  split; [discriminate|]. split; [discriminate|]. vm_compute. reflexivity.
Qed.

(** ** app.ts: failures of qmd *)

Section FailureFacts.
Import App.
Variable number : Type.
Variable percent : number -> jsstring.
Variable yaml : Frontmatter.Yaml.
Variable mcp : Mcp.QmdMcpClient number.
Variable spawn : list jsstring -> Result Proc.
Variable readText : jsstring -> Result jsstring.
Variable YAML_parse_config : jsstring -> Result (QmdCli.Unchecked QmdCli.QmdConfig).
Variable nullishMessage : string -> QmdCli.Nullish -> jsstring -> jsstring.
Variable path_join : list jsstring -> jsstring.
Variable XDG_CONFIG_HOME : option jsstring.
Variable HOME : jsstring.

Local Abbreviation listCollections :=
  (QmdCli.listCollections spawn readText YAML_parse_config nullishMessage
    path_join XDG_CONFIG_HOME HOME).
Local Abbreviation addOnComplete :=
  (App.addOnComplete (number := number) spawn readText YAML_parse_config nullishMessage
     path_join XDG_CONFIG_HOME HOME).
Local Abbreviation renameOnComplete :=
  (App.renameOnComplete (number := number) spawn readText YAML_parse_config nullishMessage
     path_join XDG_CONFIG_HOME HOME).
Local Abbreviation deleteOnConfirm :=
  (App.deleteOnConfirm (number := number) spawn readText YAML_parse_config nullishMessage
     path_join XDG_CONFIG_HOME HOME).

Implicit Types (a : App number) (e : Error).

Lemma addOnComplete_caught a (path name pattern : jsstring) :
  let mask := if bool_decide (pattern ≠ lit "**/*.md") then Some pattern else None in
  let shown :=
    AddCollectionView.statusText
      (addCollectionView (views (addOnComplete path name pattern a).1)) in
  (addOnComplete path name pattern a).2 = Ok tt
  /\ (forall e, QmdCli.addCollection spawn path_join HOME path name mask = Throw e ->
        shown = errorStatus e)
  /\ (forall e, QmdCli.addCollection spawn path_join HOME path name mask = Ok tt ->
        listCollections = Throw e -> shown = errorStatus e).
Proof.
  intros mask shown. subst mask shown. split; [|split].
  - unfold App.addOnComplete, App.refreshCollections.
    destruct (QmdCli.addCollection _ _ _ _ _ _) as [[]|e1]; [|reflexivity].
    destruct listCollections as [cols|e2]; reflexivity.
  - intros e H. unfold App.addOnComplete. rewrite H. reflexivity.
  - intros e H1 H2. unfold App.addOnComplete, App.refreshCollections.
    rewrite H1, H2. reflexivity.
Qed.

Lemma renameOnComplete_caught a (oldName newName : jsstring) :
  let shown :=
    RenameCollectionView.statusText
      (renameCollectionView (views (renameOnComplete oldName newName a).1)) in
  (renameOnComplete oldName newName a).2 = Ok tt
  /\ (forall e, QmdCli.renameCollection spawn oldName newName = Throw e ->
        shown = errorStatus e)
  /\ (forall e, QmdCli.renameCollection spawn oldName newName = Ok tt ->
        listCollections = Throw e -> shown = errorStatus e).
Proof.
  intros shown. subst shown. split; [|split].
  - unfold App.renameOnComplete, App.refreshCollections.
    destruct (QmdCli.renameCollection _ _ _) as [[]|e1]; [|reflexivity].
    destruct listCollections as [cols|e2]; reflexivity.
  - intros e H. unfold App.renameOnComplete. rewrite H. reflexivity.
  - intros e H1 H2. unfold App.renameOnComplete, App.refreshCollections.
    rewrite H1, H2. reflexivity.
Qed.

Lemma deleteOnConfirm_caught a (name : jsstring) :
  (deleteOnConfirm name a).2 = Ok tt
  /\ (forall e, QmdCli.removeCollection spawn name = Throw e ->
        (deleteOnConfirm name a).1 = a)
  /\ (forall e, QmdCli.removeCollection spawn name = Ok tt ->
        listCollections = Throw e -> (deleteOnConfirm name a).1 = a).
Proof.
  split; [|split].
  - unfold App.deleteOnConfirm, App.refreshCollections.
    destruct (QmdCli.removeCollection _ _) as [[]|e1]; [|reflexivity].
    destruct listCollections as [cols|e2]; reflexivity.
  - intros e H. unfold App.deleteOnConfirm. rewrite H. reflexivity.
  - intros e H1 H2. unfold App.deleteOnConfirm, App.refreshCollections.
    rewrite H1, H2. reflexivity.
Qed.

Lemma mode_set_status st (v : SearchView.t number) :
  SearchView.mode (SearchView.set_status number st v) = SearchView.mode v.
Proof. reflexivity. Qed.

Lemma mode_set_results rs opts (v : SearchView.t number) :
  SearchView.mode (SearchView.set_results number rs opts v) = SearchView.mode v.
Proof. reflexivity. Qed.

Lemma performSearch_caught (query : jsstring) (v : SearchView.t number) e :
  trim query ≠ [] ->
  match SearchView.mode v with
  | SearchView.mode_search => True
  | _ => exists st, Mcp.mcp_status mcp = Ok st /\ embeddingsReady st = true
  end ->
  searchCall mcp (SearchView.mode v) query (SearchView.selectedCollection v) = Throw e ->
  (SearchView.performSearch percent mcp query v).2 = Ok tt
  /\ SearchView.statusText (SearchView.performSearch percent mcp query v).1
     = errorStatus e.
Proof.
  intros Hq Hready Hcall. unfold SearchView.performSearch.
  apply truthy_true in Hq. rewrite Hq. cbv zeta. cbn [negb].
  rewrite !mode_set_results, !mode_set_status.
  unfold searchCall in Hcall.
  change (SearchView.selectedCollection (SearchView.set_results number [] [] _))
    with (SearchView.selectedCollection v).
  destruct (SearchView.mode v) eqn:Hmode.
  - rewrite Hcall. done.
  - destruct Hready as (st & -> & Hst). unfold embeddingsReady in Hst.
    apply negb_true_iff in Hst. rewrite Hst, Hcall. done.
  - destruct Hready as (st & -> & Hst). unfold embeddingsReady in Hst.
    apply negb_true_iff in Hst. rewrite Hst, Hcall. done.
Qed.

(** The status check that comes before a vector search or a query is
    outside the [try] block. *)
Lemma performSearch_status_throws (query : jsstring) (v : SearchView.t number) e :
  trim query ≠ [] ->
  SearchView.mode v ≠ SearchView.mode_search ->
  Mcp.mcp_status mcp = Throw e ->
  SearchView.performSearch percent mcp query v = (v, Throw e).
Proof.
  intros Hq Hmode Hstatus. unfold SearchView.performSearch.
  apply truthy_true in Hq. rewrite Hq, Hstatus. cbv zeta. cbn [negb].
  by destruct (SearchView.mode v).
Qed.

Lemma load_caught (file title : jsstring) (v : DocumentView.t) e :
  Mcp.mcp_getDocument mcp file (Some (Mcp.mkDocOpts None (Some false))) = Throw e ->
  (DocumentView.load number yaml mcp file title v).2 = Ok tt
  /\ DocumentView.contentMarkdown (DocumentView.load number yaml mcp file title v).1
     = lit "**Error:** " ++ Error_toString e.
Proof. intros H. unfold DocumentView.load. rewrite H. done. Qed.

(** C2, as amended. Adding and renaming a collection, the search call of
    every mode and the loading of a document catch what the operation
    throws and show a message with the error: in the status line of the
    form or of the search view, or in place of the document.  Removing a
    collection catches it too and shows nothing: the application stays as
    it was. *)
Theorem failures_are_caught a (path name pattern oldName newName query file title : jsstring)
    (sv : SearchView.t number) (dv : DocumentView.t) e :
  ((addOnComplete path name pattern a).2 = Ok tt
   /\ (QmdCli.addCollection spawn path_join HOME path name
         (if bool_decide (pattern ≠ lit "**/*.md") then Some pattern else None)
       = Throw e ->
       AddCollectionView.statusText
         (addCollectionView (views (addOnComplete path name pattern a).1))
       = errorStatus e))
  /\ ((renameOnComplete oldName newName a).2 = Ok tt
      /\ (QmdCli.renameCollection spawn oldName newName = Throw e ->
          RenameCollectionView.statusText
            (renameCollectionView (views (renameOnComplete oldName newName a).1))
          = errorStatus e))
  /\ ((deleteOnConfirm name a).2 = Ok tt
      /\ (QmdCli.removeCollection spawn name = Throw e ->
          (deleteOnConfirm name a).1 = a))
  /\ (trim query ≠ [] ->
      match SearchView.mode sv with
      | SearchView.mode_search => True
      | _ => exists st, Mcp.mcp_status mcp = Ok st /\ embeddingsReady st = true
      end ->
      searchCall mcp (SearchView.mode sv) query (SearchView.selectedCollection sv)
      = Throw e ->
      (SearchView.performSearch percent mcp query sv).2 = Ok tt
      /\ SearchView.statusText (SearchView.performSearch percent mcp query sv).1
         = errorStatus e)
  /\ (Mcp.mcp_getDocument mcp file (Some (Mcp.mkDocOpts None (Some false))) = Throw e ->
      (DocumentView.load number yaml mcp file title dv).2 = Ok tt
      /\ DocumentView.contentMarkdown (DocumentView.load number yaml mcp file title dv).1
         = lit "**Error:** " ++ Error_toString e).
Proof.
  split.
  { destruct (addOnComplete_caught a path name pattern) as (H1 & H2 & _).
    split; [exact H1 | apply H2]. }
  split.
  { destruct (renameOnComplete_caught a oldName newName) as (H1 & H2 & _).
    split; [exact H1 | apply H2]. }
  split.
  { destruct (deleteOnConfirm_caught a name) as (H1 & H2 & _).
    split; [exact H1 | apply H2]. }
  split; [apply performSearch_caught | apply load_caught].
Qed.

End FailureFacts.

Lemma failures_are_caught_witness :
  let add :=
    App.addOnComplete Sample.failing Sample.noFile Sample.noConfig Sample.nullishMessage
      Sample.path_join
      None (lit "/home/u") (lit "/docs") (lit "notes") (lit "**/*.md") Sample.deleting in
  let del :=
    App.deleteOnConfirm Sample.failing Sample.noFile Sample.noConfig Sample.nullishMessage
      Sample.path_join None (lit "/home/u") (lit "notes") Sample.deleting in
  (add.2 = Ok tt
   /\ AddCollectionView.statusText (App.addCollectionView (App.views add.1))
      = errorStatus (newError (lit "database is locked")))
  /\ (del.2 = Ok tt /\ del.1 = Sample.deleting).
Proof.
  intros add del.
  destruct (failures_are_caught unit (fun _ => []) Sample.yaml
              (Mcp.client unit Sample.failing Sample.JSON_parse)
              Sample.failing Sample.noFile Sample.noConfig Sample.nullishMessage
              Sample.path_join None (lit "/home/u") Sample.deleting
              (lit "/docs") (lit "notes") (lit "**/*.md") (lit "notes") (lit "memos")
              (lit "tea") (lit "qmd://notes/a.md") (lit "a.md")
              SearchView.initial DocumentView.initial
              (newError (lit "database is locked")))
    as ((A1 & A2) & _ & (D1 & D2) & _).
  split; (split; [done|]); [apply A2 | apply D2]; reflexivity.
Defined.

(** The removal of a collection fails and nothing on screen tells so: the
    application is what it was before. *)
Lemma deleteOnConfirm_shows_nothing :
  QmdCli.removeCollection Sample.failing (lit "notes")
  = Throw (newError (lit "database is locked"))
  /\ App.deleteOnConfirm Sample.failing Sample.noFile Sample.noConfig Sample.nullishMessage
       Sample.path_join None (lit "/home/u") (lit "notes") Sample.deleting
     = (Sample.deleting, Ok tt).
Proof. split; vm_compute; reflexivity. Qed.

(** ** app.ts: the end of the preview *)

Section CleanupFacts.
Import App.
Variable number : Type.
Variable spawn : list jsstring -> Result Proc.
Variable path_join : list jsstring -> jsstring.
Variable exists_ : jsstring -> bool.
Variable readdir : jsstring -> Result (list jsstring).
Variable toLowerCase : jsstring -> jsstring.
Variable dirname : jsstring -> jsstring.
Variable basename : jsstring -> jsstring.
Variable pickPort : gset Z -> Z.
Variable watchError : jsstring -> option Error.
Variable EDITOR : option jsstring.

Local Abbreviation keypress :=
  (App.keypress (number := number) spawn path_join exists_ readdir toLowerCase dirname
     basename pickPort watchError EDITOR).

Implicit Types (a : App number) (w : nat).

(** [stopPreview] closes the watcher and forgets it; without a watcher it
    does nothing. *)
Lemma stopPreview_closes a :
  previewWatcher (preview (stopPreview a)) = None
  /\ (forall w, previewWatcher (preview a) = Some w ->
        watchers (runtime (stopPreview a)) !! w = None)
  /\ (previewWatcher (preview a) = None -> stopPreview a = a).
Proof.
  unfold stopPreview. destruct (previewWatcher (preview a)) as [w|] eqn:Hw.
  - repeat split; [|done]. intros w' [= <-]. cbn. apply lookup_delete_eq.
  - repeat split; done.
Qed.

(** [cleanup] closes the watcher and stops the server, and forgets both;
    without either it does nothing. *)
Lemma cleanup_closes a :
  previewWatcher (preview (cleanup a)) = None
  /\ previewServer (preview (cleanup a)) = None
  /\ (forall w, previewWatcher (preview a) = Some w ->
        watchers (runtime (cleanup a)) !! w = None)
  /\ (forall port, previewServer (preview a) = Some port ->
        port ∉ listening (runtime (cleanup a)))
  /\ (previewWatcher (preview a) = None -> previewServer (preview a) = None ->
      cleanup a = a).
Proof.
  unfold cleanup, stopPreview.
  destruct (previewWatcher (preview a)) as [w|] eqn:Hw;
    destruct (previewServer (preview a)) as [port|] eqn:Hp; cbn; rewrite ?Hp; cbn;
    repeat split; try done.
  - intros w' [= <-]. apply lookup_delete_eq.
  - intros port' [= <-]. apply not_elem_of_difference. right. by apply elem_of_singleton.
  - intros w' [= <-]. apply lookup_delete_eq.
  - intros port' [= <-]. apply not_elem_of_difference. right. by apply elem_of_singleton.
Qed.

Lemma switchMainView_keeps target a :
  preview (switchMainView target a) = preview a
  /\ runtime (switchMainView target a) = runtime a
  /\ state (nav (switchMainView target a)) = target.
Proof.
  unfold switchMainView. by destruct (bool_decide _), target.
Qed.

(** Escape in the document view goes through [leaveDocument], which stops
    the watcher. *)
Lemma leaveDocument_stops a w :
  previewWatcher (preview a) = Some w ->
  previewWatcher (preview (leaveDocument a)) = None
  /\ watchers (runtime (leaveDocument a)) !! w = None
  /\ state (nav (leaveDocument a)) ≠ st_document.
Proof.
  intros Hw.
  destruct (stopPreview_closes a) as (Hnone & Hclosed & _).
  specialize (Hclosed w Hw). unfold leaveDocument.
  destruct (switchMainView_keeps st_search (stopPreview a)) as (Hp1 & Hr1 & _).
  destruct (switchMainView_keeps st_detail (stopPreview a)) as (Hp2 & Hr2 & _).
  destruct (bool_decide _).
  - change (previewWatcher (preview (switchMainView st_search (stopPreview a))) = None
            /\ watchers (runtime (switchMainView st_search (stopPreview a))) !! w = None
            /\ st_search ≠ st_document).
    rewrite Hp1, Hr1. done.
  - change (previewWatcher (preview (switchMainView st_detail (stopPreview a))) = None
            /\ watchers (runtime (switchMainView st_detail (stopPreview a))) !! w = None
            /\ st_detail ≠ st_document).
    rewrite Hp2, Hr2. done.
Qed.

(** The key [q], where it is not typed into an input, ends the
    application through [cleanup]. *)
Lemma keypress_q a key :
  key_name key = lit "q" -> ctrl key = false -> meta key = false ->
  isManagement (state (nav a)) = false ->
  (state (nav a) = st_search -> isFocused search_input (renderer a) = false) ->
  app (keypress key a) = set_renderer (destroy (renderer (cleanup a))) (cleanup a).
Proof.
  intros Hname Hctrl Hmeta Hman Hsearch. unfold App.keypress, named.
  rewrite Hname, Hctrl, Hmeta, Hman. cbn.
  destruct (state (nav a)) eqn:Hst; try done; cbn.
  by rewrite Hsearch.
Qed.

Lemma enterSearch_keeps a :
  preview (enterSearch a) = preview a
  /\ runtime (enterSearch a) = runtime a
  /\ state (nav (enterSearch a)) = st_search
  /\ mainPanel_child (nav (enterSearch a)) = st_search.
Proof.
  unfold enterSearch, switchMainView. by destruct (bool_decide _).
Qed.

Lemma keypress_document_search a key :
  state (nav a) = st_document ->
  key_name key = lit "/" \/ key_name key = lit "s" ->
  keypress key a = handled (enterSearch a).
Proof.
  intros Hst Hkey. unfold App.keypress, named. rewrite Hst.
  destruct Hkey as [H | H]; rewrite H; reflexivity.
Qed.

(** C7, where the code departs from it. In the document view, with a
    watcher open, the keys [/] and [s] lead to the search view; the watcher
    is not closed and the application keeps it. *)
Theorem keypress_search_keeps_watcher a w closure key :
  state (nav a) = st_document ->
  previewWatcher (preview a) = Some w ->
  watchers (runtime a) !! w = Some closure ->
  key_name key = lit "/" \/ key_name key = lit "s" ->
  let a' := app (keypress key a) in
  state (nav a') = st_search
  /\ mainPanel_child (nav a') = st_search
  /\ previewWatcher (preview a') = Some w
  /\ watchers (runtime a') !! w = Some closure.
Proof.
  intros Hst Hw Hcl Hkey a'. subst a'.
  rewrite (keypress_document_search a key Hst Hkey).
  destruct (enterSearch_keeps a) as (Hp & Hr & Hs & Hc).
  cbn [app handled]. rewrite Hp, Hr. done.
Qed.

End CleanupFacts.

Lemma keypress_search_keeps_watcher_witness :
  let a' :=
    App.app
      (App.keypress Sample.spawn Sample.path_join Sample.exists_ Sample.readdir
         asciiLower Sample.dirname Sample.basename Sample.pickPort Sample.watchError
         None (App.mkKey (lit "/") false false) Sample.previewing) in
  App.state (App.nav a') = App.st_search
  /\ App.previewWatcher (App.preview a') = Some 0%nat
  /\ App.watchers (App.runtime a') !! 0%nat
     = Some (App.mkWatch (lit "/docs") (lit "a.md") None).
Proof.
  intros a'.
  destruct (keypress_search_keeps_watcher unit Sample.spawn Sample.path_join
              Sample.exists_ Sample.readdir asciiLower Sample.dirname Sample.basename
              Sample.pickPort Sample.watchError None Sample.previewing 0%nat
              (App.mkWatch (lit "/docs") (lit "a.md") None)
              (App.mkKey (lit "/") false false))
    as (H1 & _ & H3 & H4).
  - reflexivity.
  - reflexivity.
  - vm_compute. reflexivity.
  - left. reflexivity.
  - split; [exact H1|]. split; [exact H3 | exact H4].
Defined.

(** * Further properties *)

(** ** views/add-collection.ts: the common prefix of the completions *)

Section CompletionFacts.
Import Completion.

Lemma startsWith_prefix (s p : jsstring) : startsWith s p = true <-> p `prefix_of` s.
Proof.
  revert s. induction p as [|a p IH]; intros s.
  - split; [intros _; apply prefix_nil | by destruct s].
  - destruct s as [|b s]; simpl.
    + split; [done|]. intros [k Hk]. done.
    + rewrite andb_true_iff, N.eqb_eq, IH. split.
      * intros [-> Hp]. by apply prefix_cons.
      * intros [k Hk]. injection Hk as -> ->. split; [done | by exists k].
Qed.

Lemma shrinkTo_prefix (s rprefix q : jsstring) :
  shrinkTo s rprefix = Some q -> q `prefix_of` s /\ q `prefix_of` rev rprefix.
Proof.
  induction rprefix as [|x rest IH]; simpl.
  - destruct (startsWith s []) eqn:Hs; [|done]. intros [= <-].
    split; apply prefix_nil.
  - destruct (startsWith s (rev rest ++ [x])) eqn:Hs.
    + intros [= <-]. split; [by apply startsWith_prefix | done].
    + destruct (truthy rest); [|done]. intros H. apply IH in H as [H1 H2].
      split; [done|]. by apply prefix_app_r.
Qed.

Lemma prefix_snoc_inv (p l : jsstring) (x : N) :
  p `prefix_of` l ++ [x] -> p = l ++ [x] \/ p `prefix_of` l.
Proof.
  intros [k Hk]. destruct (decide (k = [])) as [->|Hne].
  - left. by rewrite app_nil_r in Hk.
  - right. destruct (exists_last Hne) as (k' & y & ->).
    rewrite app_assoc in Hk. apply app_inj_tail in Hk as [-> _]. by exists k'.
Qed.

Lemma shrinkTo_longest (s rprefix p : jsstring) :
  p `prefix_of` s -> p `prefix_of` rev rprefix ->
  match shrinkTo s rprefix with
  | Some q => p `prefix_of` q
  | None => p = []
  end.
Proof.
  intros Hs. induction rprefix as [|x rest IH]; simpl; intros Hp.
  - destruct (startsWith s []); [done|]. by apply prefix_nil_inv in Hp.
  - destruct (startsWith s (rev rest ++ [x])) eqn:Hsw; [done|].
    apply prefix_snoc_inv in Hp as [->|Hp].
    + apply startsWith_prefix in Hs. congruence.
    + destruct rest as [|y rest']; simpl truthy; cbv iota.
      * simpl in Hp. by apply prefix_nil_inv in Hp.
      * by apply IH.
Qed.

Lemma commonLoop_prefix (strings : list jsstring) (prefix : jsstring) :
  commonLoop strings prefix `prefix_of` prefix
  /\ Forall (fun s => commonLoop strings prefix `prefix_of` s) strings.
Proof.
  revert prefix. induction strings as [|s strings IH]; intros prefix; simpl.
  - split; [done | constructor].
  - destruct (shrinkTo s (rev prefix)) as [q|] eqn:Hq.
    + apply shrinkTo_prefix in Hq as [H1 H2]. rewrite rev_involutive in H2.
      destruct (IH q) as [H3 H4]. split; [by etrans|].
      constructor; [by etrans | done].
    + split; [apply prefix_nil|]. apply Forall_forall. intros; apply prefix_nil.
Qed.

Lemma commonLoop_longest (strings : list jsstring) (prefix p : jsstring) :
  p `prefix_of` prefix -> Forall (fun s => p `prefix_of` s) strings ->
  p `prefix_of` commonLoop strings prefix.
Proof.
  revert prefix. induction strings as [|s strings IH]; intros prefix Hp Hall; simpl.
  - done.
  - apply Forall_cons in Hall as [Hs Hall].
    pose proof (shrinkTo_longest s (rev prefix) p Hs) as H.
    rewrite rev_involutive in H. specialize (H Hp).
    destruct (shrinkTo s (rev prefix)) as [q|]; [by apply IH | by subst].
Qed.

(** X1. [commonPrefix] returns the longest common prefix: it begins every
    one of the strings, and every text that begins them all begins it. *)
Theorem commonPrefix_longest (strings : list jsstring) (p : jsstring) :
  Forall (fun s => commonPrefix strings `prefix_of` s) strings
  /\ (strings ≠ [] -> Forall (fun s => p `prefix_of` s) strings ->
      p `prefix_of` commonPrefix strings).
Proof.
  destruct strings as [|first rest]; simpl.
  - split; [constructor | done].
  - destruct (commonLoop_prefix rest first) as [H1 H2]. split.
    + by constructor.
    + intros _ Hall. apply Forall_cons in Hall as [Hf Hall].
      by apply commonLoop_longest.
Qed.

End CompletionFacts.

Lemma commonPrefix_longest_witness :
  lit "no" `prefix_of` Completion.commonPrefix [lit "notes"; lit "notebook"; lit "nothing"].
Proof.
  destruct (commonPrefix_longest [lit "notes"; lit "notebook"; lit "nothing"] (lit "no"))
    as [_ H].
  apply H; [discriminate|].
  repeat (apply Forall_cons; split; [by eexists|]). constructor.
Defined.

(** ** app.ts: escaping loses nothing *)

Section EscapeMore.
Import PreviewPage.

Lemma entity_inj (c d : N) (x y : jsstring) :
  entity c ++ x = entity d ++ y -> c = d /\ x = y.
Proof.
  unfold entity.
  destruct (N.eqb_spec c 38) as [->|?]; [|
  destruct (N.eqb_spec c 60) as [->|?]; [|
  destruct (N.eqb_spec c 62) as [->|?]; [|
  destruct (N.eqb_spec c 34) as [->|?]]]];
  (destruct (N.eqb_spec d 38) as [->|?]; [|
   destruct (N.eqb_spec d 60) as [->|?]; [|
   destruct (N.eqb_spec d 62) as [->|?]; [|
   destruct (N.eqb_spec d 34) as [->|?]]]]);
  cbn; intros H; simplify_eq; done.
Qed.

Lemma entity_plain (c : N) : c ≠ 38 -> c ≠ 60 -> c ≠ 62 -> c ≠ 34 -> entity c = [c].
Proof.
  intros. unfold entity.
  by rewrite !(proj2 (N.eqb_neq _ _)).
Qed.

Lemma entity_length (c : N) : (1 <= length (entity c))%nat.
Proof.
  unfold entity.
  destruct (c =? 38); [cbn; lia|]. destruct (c =? 60); [cbn; lia|].
  destruct (c =? 62); [cbn; lia|]. destruct (c =? 34); cbn; lia.
Qed.

Lemma escapeHtml_inj (s t : jsstring) : escapeHtml s = escapeHtml t -> s = t.
Proof.
  rewrite !escapeHtml_entities. revert t.
  induction s as [|c s IH]; intros [|d t]; rewrite ?bind_cons; simpl.
  - done.
  - intros H. apply (f_equal length) in H. rewrite length_app in H.
    pose proof (entity_length d). simpl in H. lia.
  - intros H. apply (f_equal length) in H. rewrite length_app in H.
    pose proof (entity_length c). simpl in H. lia.
  - intros H. apply entity_inj in H as [-> H]. f_equal. by apply IH.
Qed.

(** X2. [escapeHtml] works code unit by code unit: it goes through
    concatenation, leaves a text without [&], [<], [>] and double quote as it
    is, never shortens, and gives different results for different texts. *)
Theorem escapeHtml_faithful (s t : jsstring) :
  escapeHtml (s ++ t) = escapeHtml s ++ escapeHtml t
  /\ (Forall (fun c => c ≠ 38 /\ c ≠ 60 /\ c ≠ 62 /\ c ≠ 34) s -> escapeHtml s = s)
  /\ (length s <= length (escapeHtml s))%nat
  /\ (escapeHtml s = escapeHtml t -> s = t).
Proof.
  split; [by rewrite !escapeHtml_entities, bind_app|].
  split; [|split; [|apply escapeHtml_inj]].
  - rewrite escapeHtml_entities. induction 1 as [|c s (H1 & H2 & H3 & H4) _ IH]; [done|].
    rewrite bind_cons, IH, entity_plain by done. done.
  - rewrite escapeHtml_entities. induction s as [|c s IH]; [done|].
    rewrite bind_cons, length_app. pose proof (entity_length c). simpl. lia.
Qed.

End EscapeMore.

Lemma escapeHtml_faithful_witness :
  PreviewPage.escapeHtml (lit "Notes 2024") = lit "Notes 2024".
Proof.
  destruct (escapeHtml_faithful (lit "Notes 2024") []) as (_ & H & _ & _).
  apply H.
  repeat (apply Forall_cons; split; [repeat split; discriminate|]). constructor.
Defined.

(** ** views/files.ts: more on the filter *)

Section FilterMore.
Import Files.
Variable toLowerCase : jsstring -> jsstring.

(** X3. Fuzzy matching is a preorder on texts: a text matches itself, and
    if [a] matches [b] and [b] matches [c] then [a] matches [c].  A query
    never matches a text that is shorter once lowered, and two texts match
    each other only when they are the same once lowered. *)
Theorem fuzzyMatch_preorder (a b c : jsstring) :
  fuzzyMatch toLowerCase a a = true
  /\ (fuzzyMatch toLowerCase a b = true -> fuzzyMatch toLowerCase b c = true ->
      fuzzyMatch toLowerCase a c = true)
  /\ (fuzzyMatch toLowerCase a b = true ->
      (length (toLowerCase a) <= length (toLowerCase b))%nat)
  /\ (fuzzyMatch toLowerCase a b = true -> fuzzyMatch toLowerCase b a = true ->
      toLowerCase a = toLowerCase b).
Proof.
  rewrite !fuzzyMatch_sublist. repeat split.
  - done.
  - intros H1 H2. by etrans.
  - apply sublist_length.
  - intros H1 H2. by apply (anti_symm sublist).
Qed.

(** X4. [applyFilter] touches neither the input nor the files that were
    loaded, so that applying it again changes nothing.  The list it shows
    follows the order of the files: with a filter, it has exactly the files
    whose path the trimmed filter matches. *)
Theorem applyFilter_stable (v : FilesView) :
  input_value (applyFilter toLowerCase v) = input_value v
  /\ allFiles (applyFilter toLowerCase v) = allFiles v
  /\ applyFilter toLowerCase (applyFilter toLowerCase v) = applyFilter toLowerCase v
  /\ exists shown,
       filesList_options (applyFilter toLowerCase v) = map fileOption shown
       /\ shown `sublist_of` allFiles v
       /\ (trim (input_value v) ≠ [] ->
           forall f, f ∈ shown
                     <-> f ∈ allFiles v
                         /\ fuzzyMatch toLowerCase (trim (input_value v)) (fe_path f) = true).
Proof.
  repeat split; try reflexivity.
  unfold applyFilter; simpl.
  destruct (trim (input_value v)) as [|c q] eqn:Hq; simpl.
  - exists (allFiles v). repeat split; done.
  - eexists. split; [reflexivity|]. split; [apply sublist_filter|].
    intros _ f. rewrite list_elem_of_filter. tauto.
Qed.

End FilterMore.

Lemma fuzzyMatch_preorder_witness :
  Files.fuzzyMatch asciiLower (lit "rd") (lit "README.md") = true.
Proof.
  destruct (fuzzyMatch_preorder asciiLower (lit "rd") (lit "RDM") (lit "README.md"))
    as (_ & Htrans & _).
  apply Htrans; reflexivity.
Defined.

Lemma applyFilter_stable_witness :
  let v := Files.mkFilesView (lit " rdm ")
             [Files.mkFileEntry (lit "3.2 KB") (lit "Sep 24") (lit "qmd://n/README.md")
                (lit "README.md");
              Files.mkFileEntry (lit "1 KB") (lit "Sep 25") (lit "qmd://n/todo.md")
                (lit "todo.md")] [] [] in
  Files.applyFilter asciiLower (Files.applyFilter asciiLower v) = Files.applyFilter asciiLower v.
Proof.
  intros v. destruct (applyFilter_stable asciiLower v) as (_ & _ & H & _). exact H.
Defined.

(** ** qmd-cli.ts: failures and paths *)

Section QmdCliMore.
Import Regex.
Variable spawn : list jsstring -> Result Proc.
Variable readText : jsstring -> Result jsstring.
Variable YAML_parse : jsstring -> Result (QmdCli.Unchecked QmdCli.QmdConfig).
Variable nullishMessage : string -> QmdCli.Nullish -> jsstring -> jsstring.
Variable path_join : list jsstring -> jsstring.
Variable XDG_CONFIG_HOME : option jsstring.
Variable HOME : jsstring.
Variable exists_ : jsstring -> bool.
Variable readdir : jsstring -> Result (list jsstring).
Variable toLowerCase : jsstring -> jsstring.

Local Abbreviation listCollections :=
  (QmdCli.listCollections spawn readText YAML_parse nullishMessage
    path_join XDG_CONFIG_HOME HOME).
Local Abbreviation loadQmdConfig :=
  (QmdCli.loadQmdConfig readText YAML_parse path_join XDG_CONFIG_HOME HOME).
Local Abbreviation resolveQmdUri :=
  (QmdCli.resolveQmdUri path_join exists_ readdir toLowerCase).
Local Abbreviation resolveParts := (QmdCli.resolveParts path_join readdir toLowerCase).




Lemma resolveParts_walk (parts : list jsstring) :
  forall current p,
    resolveParts current parts = Some p ->
    Walk readdir toLowerCase path_join current parts p.
Proof.
  induction parts as [|part parts IH]; intros current p; simpl.
  - intros [= <-]. constructor.
  - destruct (readdir current) as [entries|] eqn:Hdir; [|done].
    destruct (List.find _ entries) as [found|] eqn:Hfound; [|done].
    destruct (truthy found); [|done]. intros H.
    apply find_some in Hfound as [Hin Heq].
    apply bool_decide_eq_true in Heq.
    econstructor; [exact Hdir | by apply list_elem_of_In | exact Heq | by apply IH].
Qed.

Lemma uriPattern_sound (uri : jsstring) (m : MatchResult) :
  matchStart QmdCli.uriPattern uri = Some m ->
  exists collName rel,
    groups m !! 1%nat = Some collName /\ groups m !! 2%nat = Some rel
    /\ uri = lit "qmd://" ++ collName ++ lit "/" ++ rel
    /\ collName ≠ [] /\ (47 ∉ collName)
    /\ rel ≠ [] /\ Forall (fun c => isLineTerminator c = false) rel.
Proof.
  unfold matchStart. intros H.
  apply exec_sound in H as (s' & caps' & HM & [= <-]).
  unfold QmdCli.uriPattern in HM. cbn [Seqs] in HM.
  apply Matches_Seq_inv in HM as (s1 & c1 & Hlit & HM).
  apply Matches_Seq_inv in HM as (s2 & c2 & Hcoll & HM).
  apply Matches_Seq_inv in HM as (s3 & c3 & Hslash & HM).
  apply Matches_Seq_inv in HM as (s4 & c4 & Hrel & HM).
  apply Matches_Seq_inv in HM as (s5 & c5 & Heol & HM).
  apply Matches_Eps_inv in HM as [-> ->].
  apply Matches_Eol_inv in Heol as (-> & -> & ->).
  apply Matches_Group_inv in Hrel as (c4' & Hrel & ->).
  apply Matches_Plus_inv in Hrel as (rel & -> & Hrel0 & Hrel & ->).
  apply Matches_Chr_inv in Hslash as [-> ->].
  apply Matches_Group_inv in Hcoll as (c2' & Hcoll & ->).
  apply Matches_Plus_inv in Hcoll as (coll & -> & Hcoll0 & Hcoll & ->).
  apply Matches_Str_inv in Hlit as [-> ->].
  exists coll, rel. cbn [groups]. rewrite !take_prefix.
  split; [by rewrite lookup_insert_ne, lookup_insert_eq|].
  split; [by rewrite lookup_insert_eq|].
  split; [by rewrite app_nil_r|]. split; [done|]. split.
  - intros Hin. rewrite Forall_forall in Hcoll. specialize (Hcoll _ Hin). done.
  - split; [done|]. eapply Forall_impl; [exact Hrel|].
    intros c Hc. unfold dot in Hc. by apply negb_true_iff in Hc.
Qed.

(** X6. [resolveQmdUri] gives a path only for an address of the form
    [qmd://name/relative] whose name, without a slash, is that of a
    collection with a path.  The path is the relative one under the path of
    the collection when that file exists; otherwise it is found by going down
    the directories, taking at each step an entry that [readdir] lists and
    that is the wanted one but for the case. *)
Theorem resolveQmdUri_sound (uri : jsstring) (cols : list QmdCli.Collection) (p : jsstring) :
  resolveQmdUri uri cols = Some p ->
  exists collName rel col,
    uri = lit "qmd://" ++ collName ++ lit "/" ++ rel
    /\ collName ≠ [] /\ (47 ∉ collName) /\ rel ≠ []
    /\ col ∈ cols /\ QmdCli.name col = collName /\ QmdCli.path col ≠ []
    /\ ((exists_ (path_join [QmdCli.path col; rel]) = true
         /\ p = path_join [QmdCli.path col; rel])
        \/ (exists_ (path_join [QmdCli.path col; rel]) = false
            /\ Walk readdir toLowerCase path_join (QmdCli.path col) (splitOn 47 rel) p)).
Proof.
  unfold QmdCli.resolveQmdUri.
  destruct (matchStart QmdCli.uriPattern uri) as [m|] eqn:Hm; [|done].
  apply uriPattern_sound in Hm as (coll & rel & H1 & H2 & -> & Hc0 & Hc & Hr0 & _).
  unfold group. cbn [mbind option_bind]. rewrite H1, H2. cbn [default].
  destruct (List.find _ cols) as [col|] eqn:Hfind; [|done].
  apply find_some in Hfind as [Hin Hname]. apply bool_decide_eq_true in Hname.
  destruct (truthy (QmdCli.path col)) eqn:Hpath; [|done]. simpl.
  apply truthy_true in Hpath.
  intros H. exists coll, rel, col.
  repeat split; try done; [by apply list_elem_of_In|].
  destruct (exists_ _) eqn:Hex.
  - left. by injection H as <-.
  - right. split; [done|]. by apply resolveParts_walk.
Qed.

End QmdCliMore.


Lemma resolveQmdUri_sound_witness :
  exists collName rel col,
    lit "qmd://notes/A.md" = lit "qmd://" ++ collName ++ lit "/" ++ rel
    /\ collName ≠ [] /\ (47 ∉ collName) /\ rel ≠ []
    /\ col ∈ [Sample.notes] /\ QmdCli.name col = collName /\ QmdCli.path col ≠ []
    /\ ((Sample.exists_ (Sample.path_join [QmdCli.path col; rel]) = true
         /\ lit "/docs/a.md" = Sample.path_join [QmdCli.path col; rel])
        \/ (Sample.exists_ (Sample.path_join [QmdCli.path col; rel]) = false
            /\ Walk Sample.readdir asciiLower Sample.path_join (QmdCli.path col)
                 (splitOn 47 rel) (lit "/docs/a.md"))).
Proof.
  apply (resolveQmdUri_sound Sample.path_join Sample.exists_ Sample.readdir asciiLower).
  vm_compute. reflexivity.
Defined.

(** ** views/collections.ts: the selection *)

Section CollectionsMore.
Import CollectionsView.

Lemma lookup_map {A B : Type} (f : A -> B) (l : list A) (i : nat) :
  map f l !! i = f <$> l !! i.
Proof. revert i. induction l as [|a l IH]; intros [|i]; simpl; auto. Qed.

Lemma lookup_cons_S {A : Type} (x : A) (l : list A) (i : nat) :
  (x :: l) !! S i = l !! i.
Proof. reflexivity. Qed.

Lemma find_first_named (cols : list QmdCli.Collection) (i : nat) (c : QmdCli.Collection) :
  cols !! i = Some c ->
  exists c', find (QmdCli.name c) cols = Some c'
             /\ QmdCli.name c' = QmdCli.name c
             /\ (NoDup (map QmdCli.name cols) -> c' = c).
Proof.
  unfold find. revert i. induction cols as [|d cols IH]; intros i Hi; [done|].
  simpl. destruct (decide (QmdCli.name d = QmdCli.name c)) as [Heq|Hne].
  - rewrite bool_decide_eq_true_2 by done. exists d. repeat split; [done|].
    intros Hnd. destruct i as [|i]; [by injection Hi|]. simpl in Hi.
    apply NoDup_cons in Hnd as [Hnotin _]. exfalso. apply Hnotin.
    rewrite Heq. apply list_elem_of_fmap. exists c.
    split; [done | by eapply list_elem_of_lookup_2].
  - rewrite bool_decide_eq_false_2 by done.
    destruct i as [|i]; [injection Hi as ->; done|]. simpl in Hi.
    destruct (IH i Hi) as (c' & Hf & Hn & Hu). exists c'. repeat split; [done..|].
    intros Hnd. apply NoDup_cons in Hnd as [_ Hnd]. by apply Hu.
Qed.

(** X7. After [update], the first line of the sidebar is "All" and the
    line after it number [i] is the collection number [i]: with that line
    selected, [getSelectedCollection] gives the first collection of that
    name, which is the collection itself when names are not repeated.  With
    the first line selected, or none, it gives nothing; it gives nothing
    either for a collection whose name is [__all__], which counts as "All". *)
Theorem getSelectedCollection_update (cols : list QmdCli.Collection) (v : t)
    (i : nat) (c : QmdCli.Collection) :
  let v' := update cols v in
  length (options v') = S (length cols)
  /\ (selectedIndex v = 0%nat ->
      getSelectedCollection v' = None /\ isAllSelected v' = true)
  /\ (selectedIndex v = S i -> cols !! i = None ->
      getSelectedCollection v' = None /\ isAllSelected v' = true)
  /\ (selectedIndex v = S i -> cols !! i = Some c -> QmdCli.name c = lit "__all__" ->
      getSelectedCollection v' = None /\ isAllSelected v' = true)
  /\ (selectedIndex v = S i -> cols !! i = Some c -> QmdCli.name c ≠ lit "__all__" ->
      isAllSelected v' = false
      /\ exists c', getSelectedCollection v' = Some c'
                    /\ QmdCli.name c' = QmdCli.name c
                    /\ (NoDup (map QmdCli.name cols) -> c' = c)).
Proof.
  intros v'. subst v'.
  unfold getSelectedCollection, isAllSelected, getSelectedOption, update.
  cbn [options selectedIndex collections].
  split; [cbn; by rewrite length_map|].
  split; [by intros ->|].
  split; [|split].
  - intros -> Hi. by rewrite lookup_cons_S, lookup_map, Hi.
  - intros -> Hi Hall. rewrite lookup_cons_S, lookup_map, Hi.
    cbn. by rewrite !bool_decide_eq_true_2.
  - intros -> Hi Hall. rewrite lookup_cons_S, lookup_map, Hi.
    cbn. rewrite !bool_decide_eq_false_2 by done. split; [done|].
    by apply (find_first_named cols i).
Qed.

End CollectionsMore.

Lemma getSelectedCollection_update_witness :
  CollectionsView.getSelectedCollection
    (CollectionsView.update [Sample.notes] (CollectionsView.mk [] [] 1))
  = Some Sample.notes.
Proof.
  destruct (getSelectedCollection_update [Sample.notes] (CollectionsView.mk [] [] 1)
              0 Sample.notes) as (_ & _ & _ & _ & H).
  destruct H as (_ & c' & Hc & _ & Hu); [reflexivity | reflexivity | discriminate |].
  rewrite Hc. f_equal. apply Hu. repeat constructor. intros H. inversion H.
Defined.

(** ** views/search.ts and views/add-collection.ts: going round *)

Section CyclesMore.
Variable number : Type.

Lemma cycleMode_label (v : SearchView.t number) :
  SearchView.label (SearchView.cycleMode v)
  = SearchView.makeLabelContent number (SearchView.cycleMode v).
Proof. reflexivity. Qed.

(** X8. [cycleMode] goes through the three modes and comes back: from a
    view whose mode index is below 3 and whose label is up to date, three
    calls give the view again, and a call or two give another mode.  The
    index stays below 3 and the label up to date. *)
Theorem cycleMode_period (v : SearchView.t number) :
  (SearchView.modeIndex v < 3)%nat ->
  SearchView.label v = SearchView.makeLabelContent number v ->
  SearchView.cycleMode (SearchView.cycleMode (SearchView.cycleMode v)) = v
  /\ SearchView.mode (SearchView.cycleMode v) ≠ SearchView.mode v
  /\ SearchView.mode (SearchView.cycleMode (SearchView.cycleMode v)) ≠ SearchView.mode v
  /\ (SearchView.modeIndex (SearchView.cycleMode v) < 3)%nat
  /\ SearchView.label (SearchView.cycleMode v)
     = SearchView.makeLabelContent number (SearchView.cycleMode v).
Proof.
  intros Hlt Hlabel. destruct v as [inp res opts lab st idx sel].
  cbn in Hlt.
  destruct idx as [|[|[|idx]]]; [| | |lia]; cbn in Hlabel; subst lab;
    repeat split; cbn; try done; lia.
Qed.

(** X9. [focusNext] of the add form goes from the path to the name, from
    the name to the pattern and from the pattern to the path, and the field
    it records is the one that has the focus; three calls come back to the
    field they started from. *)
Theorem focusNext_order (ctx : RenderContext) (v : AddCollectionView.t) :
  (AddCollectionView.focusedField v < 3)%nat ->
  let next := AddCollectionView.focusNext ctx v in
  let next3 :=
    AddCollectionView.focusNext
      (AddCollectionView.focusNext next.1 next.2).1
      (AddCollectionView.focusNext next.1 next.2).2 in
  (AddCollectionView.focusedField next.2 < 3)%nat
  /\ focusedWidget next.1
     = AddCollectionView.inputs !! AddCollectionView.focusedField next.2
  /\ (AddCollectionView.focusedField v = 0%nat -> focusedWidget next.1 = Some add_name_input)
  /\ (AddCollectionView.focusedField v = 1%nat -> focusedWidget next.1 = Some add_pattern_input)
  /\ (AddCollectionView.focusedField v = 2%nat -> focusedWidget next.1 = Some add_path_input)
  /\ next3.2 = v.
Proof.
  intros Hlt. destruct v as [p n pat st f cv cd co]. cbn in Hlt.
  destruct f as [|[|[|f]]]; [| | |lia]; cbn; repeat split; try done; lia.
Qed.

End CyclesMore.

Lemma cycleMode_period_witness :
  SearchView.cycleMode (SearchView.cycleMode (SearchView.cycleMode
    (SearchView.initial (number := unit)))) = SearchView.initial.
Proof.
  destruct (cycleMode_period unit SearchView.initial) as (H & _);
    [cbn; lia | reflexivity | exact H].
Defined.

Lemma focusNext_order_witness :
  focusedWidget (AddCollectionView.focusNext (mkCtx None false) AddCollectionView.initial).1
  = Some add_name_input.
Proof.
  destruct (focusNext_order (mkCtx None false) AddCollectionView.initial)
    as (_ & _ & H & _); [cbn; lia|].
  apply H. reflexivity.
Defined.

(** ** app.ts: the timeouts of the preview *)

Section PreviewMore.
Import App.
Variable number : Type.
Implicit Types (a : App number) (w : nat) (t : Z).

Lemma size_fired_pending t (m : gmap nat Z) :
  (size (filter (fun kv : nat * Z => (kv.2 <=? t)%Z = true) m)
   + size (filter (fun kv : nat * Z => (kv.2 <=? t)%Z = false) m))%nat
  = size m.
Proof.
  rewrite <- (map_filter_union_complement (fun kv : nat * Z => (kv.2 <=? t)%Z = true) m) at 3.
  rewrite map_size_disj_union by apply map_disjoint_filter_complement.
  f_equal. f_equal. apply map_filter_ext. intros i x _. cbn.
  destruct (x <=? t)%Z; split; congruence.
Qed.

(** The version and the pending timeouts, counted together. *)
Lemma elapse_keeps_count t a :
  (previewVersion (preview (elapse t a))
   + N.of_nat (size (timers (runtime (elapse t a)))))%N
  = (previewVersion (preview a) + N.of_nat (size (timers (runtime a))))%N.
Proof.
  cbn. rewrite <- (size_fired_pending t (timers (runtime a))). lia.
Qed.

Lemma watchListener_adds_one w filename a :
  preview (watchListener w filename a) = preview a
  /\ (size (timers (runtime (watchListener w filename a)))
      <= S (size (timers (runtime a))))%nat
  /\ now (runtime (watchListener w filename a)) = now (runtime a).
Proof.
  unfold watchListener.
  destruct (watchers (runtime a) !! w) as [cl|]; [|split; [done | split; [lia | done]]].
  destruct (match filename with Some f => _ | None => _ end);
    [split; [done | split; [lia | done]]|].
  split; [done|]. split; [|by destruct (debounce cl)].
  destruct (debounce cl) as [id|]; cbn; rewrite map_size_insert.
  - pose proof (map_size_delete id (timers (runtime a))) as Hd.
    destruct (timers (runtime a) !! id); cbn in Hd;
      destruct (delete id (timers (runtime a)) !! nextTimer (runtime a)); cbn; lia.
  - destruct (timers (runtime a) !! nextTimer (runtime a)); cbn; lia.
Qed.

Lemma previewRun_count (evs : list PreviewEvent) a :
  (previewVersion (preview (previewRun evs a))
   + N.of_nat (size (timers (runtime (previewRun evs a))))
   <= previewVersion (preview a) + N.of_nat (size (timers (runtime a)))
      + N.of_nat (changes evs))%N.
Proof.
  revert a. induction evs as [|[t|w f] evs IH]; intros a; cbn [previewRun fold_left changes].
  - lia.
  - specialize (IH (elapse t a)). unfold previewRun in IH.
    cbn [previewStep]. rewrite elapse_keeps_count in IH. exact IH.
  - specialize (IH (watchListener w f a)). unfold previewRun in IH.
    cbn [previewStep]. destruct (watchListener_adds_one w f a) as (Hp & Hs & _).
    rewrite Hp in IH. lia.
Qed.

(** No timeout is due later than 100 ms from now. *)
Lemma previewStep_due a (ev : PreviewEvent) :
  map_Forall (fun _ due => (due <= now (runtime a) + 100)%Z) (timers (runtime a)) ->
  map_Forall (fun _ due => (due <= now (runtime (previewStep a ev)) + 100)%Z)
    (timers (runtime (previewStep a ev))).
Proof.
  intros Hdue. destruct ev as [t|w f]; cbn [previewStep].
  - cbn. intros id due Hid. apply map_lookup_filter_Some in Hid as [Hid _].
    specialize (Hdue id due Hid). cbn in Hdue. lia.
  - unfold watchListener.
    destruct (watchers (runtime a) !! w) as [cl|]; [|done].
    destruct (match f with Some f => _ | None => _ end); [done|].
    destruct (debounce cl) as [id|]; cbn; apply map_Forall_insert_2; try lia;
      [by apply map_Forall_delete | done].
Qed.

Lemma previewRun_due (evs : list PreviewEvent) a :
  map_Forall (fun _ due => (due <= now (runtime a) + 100)%Z) (timers (runtime a)) ->
  map_Forall (fun _ due => (due <= now (runtime (previewRun evs a)) + 100)%Z)
    (timers (runtime (previewRun evs a))).
Proof.
  revert a. induction evs as [|ev evs IH]; intros a Hdue; [done|].
  apply IH. by apply previewStep_due.
Qed.

Lemma elapse_drains a :
  map_Forall (fun _ due => (due <= now (runtime a) + 100)%Z) (timers (runtime a)) ->
  timers (runtime (elapse (now (runtime a) + 100) a)) = ∅.
Proof.
  intros Hdue. cbn. apply map_empty. intros id.
  apply eq_None_not_Some. intros [due Hid].
  apply map_lookup_filter_Some in Hid as [Hid Hlater]. cbn in Hlater.
  specialize (Hdue id due Hid). cbn in Hdue.
  apply Z.leb_gt in Hlater. lia.
Qed.

(** X10. Whatever the watchers report and whenever the timeouts run, the
    version and the number of pending timeouts, counted together, grow by at
    most one for each change reported: a change makes the page reload at
    most once.  From an application without a pending timeout, 100 ms after
    the last event no timeout is pending any more, and the version has gone
    up by at most the number of changes. *)
Theorem previewRun_settles (evs : list PreviewEvent) a :
  let a' := previewRun evs a in
  let settled := elapse (now (runtime a') + 100) a' in
  (previewVersion (preview a') + N.of_nat (size (timers (runtime a')))
   <= previewVersion (preview a) + N.of_nat (size (timers (runtime a)))
      + N.of_nat (changes evs))%N
  /\ (timers (runtime a) = ∅ ->
      timers (runtime settled) = ∅
      /\ (previewVersion (preview a) <= previewVersion (preview settled))%N
      /\ (previewVersion (preview settled)
          <= previewVersion (preview a) + N.of_nat (changes evs))%N).
Proof.
  intros a' settled. split; [apply previewRun_count|]. intros Hempty.
  assert (Hdue : map_Forall (fun _ due => (due <= now (runtime a') + 100)%Z)
                   (timers (runtime a'))).
  { apply previewRun_due. rewrite Hempty. apply map_Forall_empty. }
  pose proof (previewRun_count evs a) as Hcount. fold a' in Hcount.
  pose proof (elapse_keeps_count (now (runtime a') + 100) a') as Hkeep. fold settled in Hkeep.
  pose proof (elapse_drains a' Hdue) as Hdrained. fold settled in Hdrained.
  rewrite Hdrained in Hkeep. rewrite map_size_empty in Hkeep.
  rewrite Hempty, map_size_empty in Hcount.
  split; [done|]. split; [|lia].
  etrans; [apply (previewRun_mono number evs a)|]. fold a'. lia.
Qed.

End PreviewMore.

Lemma previewRun_settles_witness :
  let a' :=
    App.previewRun
      (App.timed 0 [(10%Z, None); (50%Z, Some (lit "a.md")); (400%Z, Some (lit "a.md"))])
      Sample.previewing in
  App.timers (App.runtime (App.elapse (App.now (App.runtime a') + 100) a')) = ∅
  /\ (App.previewVersion (App.preview (App.elapse (App.now (App.runtime a') + 100) a'))
      <= 3)%N.
Proof.
  intros a'.
  destruct (previewRun_settles unit
              (App.timed 0 [(10%Z, None); (50%Z, Some (lit "a.md")); (400%Z, Some (lit "a.md"))])
              Sample.previewing) as (_ & H).
  destruct H as (H1 & _ & H3); [reflexivity|].
  split; [exact H1 | exact H3].
Defined.

(** ** app.ts: what the listeners keep *)

Section LoopFacts.
Import App.
Variable number : Type.
Variable yaml : Frontmatter.Yaml.
Variable mcp : Mcp.QmdMcpClient number.
Variable spawn : list jsstring -> Result Proc.
Variable readText : jsstring -> Result jsstring.
Variable YAML_parse_config : jsstring -> Result (QmdCli.Unchecked QmdCli.QmdConfig).
Variable nullishMessage : string -> QmdCli.Nullish -> jsstring -> jsstring.
Variable path_join : list jsstring -> jsstring.
Variable XDG_CONFIG_HOME : option jsstring.
Variable HOME : jsstring.
Variable exists_ : jsstring -> bool.
Variable readdir : jsstring -> Result (list jsstring).
Variable toLowerCase : jsstring -> jsstring.
Variable dirname : jsstring -> jsstring.
Variable basename : jsstring -> jsstring.
Variable pickPort : gset Z -> Z.
Variable watchError : jsstring -> option Error.
Variable EDITOR : option jsstring.

Local Abbreviation keypress :=
  (App.keypress (number := number) spawn path_join exists_ readdir toLowerCase dirname
     basename pickPort watchError EDITOR).
Local Abbreviation openPreview :=
  (App.openPreview (number := number) spawn path_join exists_ readdir toLowerCase dirname
     basename pickPort watchError).
Local Abbreviation openInEditor :=
  (App.openInEditor (number := number) spawn path_join exists_ readdir toLowerCase EDITOR).
Local Abbreviation refreshCollections :=
  (App.refreshCollections (number := number) spawn readText YAML_parse_config nullishMessage
     path_join XDG_CONFIG_HOME HOME).
Local Abbreviation addOnComplete :=
  (App.addOnComplete (number := number) spawn readText YAML_parse_config nullishMessage
     path_join XDG_CONFIG_HOME HOME).
Local Abbreviation renameOnComplete :=
  (App.renameOnComplete (number := number) spawn readText YAML_parse_config nullishMessage
     path_join XDG_CONFIG_HOME HOME).
Local Abbreviation deleteOnConfirm :=
  (App.deleteOnConfirm (number := number) spawn readText YAML_parse_config nullishMessage
     path_join XDG_CONFIG_HOME HOME).
Local Abbreviation resume :=
  (Loop.resume number yaml spawn readText YAML_parse_config nullishMessage path_join
     XDG_CONFIG_HOME HOME dirname basename pickPort watchError EDITOR).
Local Abbreviation loopKeypress :=
  (Loop.keypress number spawn path_join exists_ readdir toLowerCase).
Local Abbreviation dispatch :=
  (Loop.dispatch number yaml mcp spawn readText YAML_parse_config nullishMessage
     path_join XDG_CONFIG_HOME HOME exists_ readdir toLowerCase dirname basename
     pickPort watchError EDITOR).
Local Abbreviation run :=
  (Loop.run number yaml mcp spawn readText YAML_parse_config nullishMessage path_join
     XDG_CONFIG_HOME HOME exists_ readdir toLowerCase dirname basename pickPort
     watchError EDITOR).

Implicit Types (a b : App number) (s : Loop.Session number).

(** Both properties look at a few fields only. *)
Lemma tidy_same a b :
  watchers (runtime b) = watchers (runtime a) ->
  listening (runtime b) = listening (runtime a) ->
  previewWatcher (preview b) = previewWatcher (preview a) ->
  previewServer (preview b) = previewServer (preview a) ->
  tidy a -> tidy b.
Proof. unfold tidy. by intros -> -> -> ->. Qed.

Lemma mounted_same a b :
  state (nav b) = state (nav a) ->
  mainPanel_child (nav b) = mainPanel_child (nav a) ->
  mounted a -> mounted b.
Proof. unfold mounted. by intros -> ->. Qed.

Lemma switchMainView_kept target a :
  (tidy a -> tidy (switchMainView target a)) /\ mounted (switchMainView target a).
Proof.
  split.
  - apply tidy_same; unfold switchMainView; by destruct (bool_decide _), target.
  - unfold mounted, switchMainView. by destruct (bool_decide _), target.
Qed.

Create HintDb app_unfold.
#[local] Hint Unfold showDetail showSelected enterSearch leaveSearch leaveManagement
  enterAddCollection enterRenameCollection enterDeleteCollection handleTab
  switchMainView AddCollectionView.focusFirst App.refreshCollections
  App.showDocument App.addOnComplete App.renameOnComplete App.deleteOnConfirm
  App.runEmbed App.spawnEditor App.openInEditor Loop.selectionChanged : app_unfold.

Ltac unchanged :=
  autounfold with app_unfold; repeat case_match; simplify_eq; cbn; try done;
  try congruence.

Ltac kept_by_fields :=
  split; [apply tidy_same | unfold mounted; intros Hmounted]; unchanged.

Lemma showDetail_kept col a :
  (tidy a -> tidy (showDetail col a)) /\ (mounted a -> mounted (showDetail col a)).
Proof. kept_by_fields. Qed.

Lemma enterSearch_kept a :
  (tidy a -> tidy (enterSearch a)) /\ (mounted a -> mounted (enterSearch a)).
Proof. kept_by_fields. Qed.

Lemma leaveSearch_kept a :
  (tidy a -> tidy (leaveSearch a)) /\ (mounted a -> mounted (leaveSearch a)).
Proof. kept_by_fields. Qed.

Lemma leaveManagement_kept a :
  (tidy a -> tidy (leaveManagement a)) /\ (mounted a -> mounted (leaveManagement a)).
Proof. kept_by_fields. Qed.

Lemma enterAddCollection_kept a :
  (tidy a -> tidy (enterAddCollection a)) /\ (mounted a -> mounted (enterAddCollection a)).
Proof. kept_by_fields. Qed.

Lemma enterRenameCollection_kept a :
  (tidy a -> tidy (enterRenameCollection a))
  /\ (mounted a -> mounted (enterRenameCollection a)).
Proof. kept_by_fields. Qed.

Lemma enterDeleteCollection_kept a :
  (tidy a -> tidy (enterDeleteCollection a))
  /\ (mounted a -> mounted (enterDeleteCollection a)).
Proof. kept_by_fields. Qed.

Lemma handleTab_kept a :
  (tidy a -> tidy (handleTab a)) /\ (mounted a -> mounted (handleTab a)).
Proof. kept_by_fields. Qed.

Lemma selectionChanged_kept value a :
  (tidy a -> tidy (Loop.selectionChanged value a))
  /\ (mounted a -> mounted (Loop.selectionChanged value a)).
Proof. kept_by_fields. Qed.

Lemma refreshCollections_kept a :
  (tidy a -> tidy (refreshCollections a).1)
  /\ (mounted a -> mounted (refreshCollections a).1).
Proof. kept_by_fields. Qed.

Lemma showDocument_kept file title a :
  (tidy a -> tidy (showDocument yaml mcp file title a).1)
  /\ (mounted a -> mounted (showDocument yaml mcp file title a).1).
Proof. kept_by_fields. Qed.

Lemma addOnComplete_kept path name pattern a :
  (tidy a -> tidy (addOnComplete path name pattern a).1)
  /\ (mounted a -> mounted (addOnComplete path name pattern a).1).
Proof. kept_by_fields. Qed.

Lemma renameOnComplete_kept oldName newName a :
  (tidy a -> tidy (renameOnComplete oldName newName a).1)
  /\ (mounted a -> mounted (renameOnComplete oldName newName a).1).
Proof. kept_by_fields. Qed.

Lemma deleteOnConfirm_kept name a :
  (tidy a -> tidy (deleteOnConfirm name a).1)
  /\ (mounted a -> mounted (deleteOnConfirm name a).1).
Proof. kept_by_fields. Qed.

Lemma runEmbed_kept a :
  (tidy a -> tidy (runEmbed spawn a).1) /\ (mounted a -> mounted (runEmbed spawn a).1).
Proof. kept_by_fields. Qed.

Lemma openInEditor_kept a :
  (tidy a -> tidy (openInEditor a).1) /\ (mounted a -> mounted (openInEditor a).1).
Proof. kept_by_fields. Qed.

Ltac resources :=
  intros [Hwatchers Hlistening]; unfold tidy;
  repeat case_match; simplify_eq; cbn in *; simplify_eq;
  rewrite ?dom_insert_L, ?dom_delete_L, ?Hwatchers, ?Hlistening,
    ?difference_diag_L, ?(left_id_L ∅ (∪)), ?(right_id_L ∅ (∪));
  done.

Lemma stopPreview_kept a :
  (tidy a -> tidy (stopPreview a)) /\ (mounted a -> mounted (stopPreview a)).
Proof.
  split; [unfold stopPreview; resources|].
  apply mounted_same; unfold stopPreview; by case_match.
Qed.

Lemma cleanup_kept a :
  (tidy a -> tidy (cleanup a)) /\ (mounted a -> mounted (cleanup a)).
Proof.
  split; [unfold cleanup, stopPreview; resources|].
  apply mounted_same; unfold cleanup, stopPreview; by repeat case_match.
Qed.

Lemma leaveDocument_kept a :
  (tidy a -> tidy (leaveDocument a)) /\ (mounted a -> mounted (leaveDocument a)).
Proof.
  split.
  - intros Htidy. apply (proj1 (stopPreview_kept a)) in Htidy. revert Htidy.
    apply tidy_same; unfold leaveDocument; unchanged.
  - intros _. unfold mounted, leaveDocument. unchanged.
Qed.

Lemma handleEscape_kept a :
  (tidy a -> tidy (handleEscape a)) /\ (mounted a -> mounted (handleEscape a)).
Proof.
  unfold handleEscape. destruct (state (nav a)); try done.
  - apply leaveSearch_kept.
  - apply leaveDocument_kept.
Qed.

Lemma openPreview_kept a :
  (tidy a -> tidy (openPreview a).1) /\ (mounted a -> mounted (openPreview a).1).
Proof.
  split.
  - unfold App.openPreview, ensurePreviewServer, stopPreview. resources.
  - apply mounted_same; unfold App.openPreview, ensurePreviewServer, stopPreview;
      unchanged.
Qed.

Lemma previewStep_kept a (ev : PreviewEvent) :
  (tidy a -> tidy (previewStep a ev)) /\ (mounted a -> mounted (previewStep a ev)).
Proof.
  split.
  - destruct ev as [t|w f]; [done|]. cbn [previewStep]. unfold watchListener.
    destruct (watchers (runtime a) !! w) as [cl|] eqn:Hw; [|done].
    destruct (match f with Some f => _ | None => _ end); [done|].
    intros [Hwatchers Hlistening].
    assert (Hin : w ∈ (dom (watchers (runtime a)) : gset nat))
      by (apply elem_of_dom; eauto).
    destruct (debounce cl);
      (split; [cbn; rewrite dom_insert_L, <- Hwatchers; by apply subseteq_union_1_L, singleton_subseteq_l
             | exact Hlistening]).
  - apply mounted_same; destruct ev as [t|w f]; try done; cbn [previewStep];
      unfold watchListener; by repeat case_match.
Qed.

Lemma keypress_kept key a :
  (tidy a -> tidy (app (keypress key a))) /\ (mounted a -> mounted (app (keypress key a))).
Proof.
  unfold App.keypress.
  repeat match goal with
         | |- context [if ?c then _ else _] => destruct c
         | |- context [AddCollectionView.handleEscape ?x ?y] =>
             destruct (AddCollectionView.handleEscape x y) as [[? ?] ?]
         | |- context [AddCollectionView.handleTab ?x ?y] =>
             destruct (AddCollectionView.handleTab x y) as [[? ?] ?]
         | |- context [match focusArea ?n with _ => _ end] => destruct (focusArea n)
         end;
    cbn [app handled passed started];
    first
      [ done
      | apply leaveSearch_kept
      | apply handleEscape_kept
      | apply handleTab_kept
      | apply enterSearch_kept
      | apply enterAddCollection_kept
      | apply enterDeleteCollection_kept
      | apply enterRenameCollection_kept
      | apply runEmbed_kept
      | apply openInEditor_kept
      | exact (leaveManagement_kept (set_addCollectionView _ (set_renderer _ a)))
      | exact (openPreview_kept (set_title _ a))
      | exact (cleanup_kept a) ].
Qed.

(** The parts of the methods that wait. *)

#[local] Hint Unfold Loop.openInEditor_start Loop.openInEditor_resume
  Loop.openPreview_start Loop.runEmbed_start Loop.runEmbed_resume
  Loop.showDocument_start Loop.showDocument_resume Loop.refreshCollections_resume
  Loop.add_caught Loop.rename_caught Loop.addOnComplete_start
  Loop.renameOnComplete_start Loop.deleteOnConfirm_start : app_unfold.

Lemma openPreview_resume_kept (filePath : option jsstring) a :
  let a' :=
    Loop.openPreview_resume number spawn dirname basename pickPort watchError filePath a in
  (tidy a -> tidy a') /\ (mounted a -> mounted a').
Proof.
  split.
  - unfold Loop.openPreview_resume, ensurePreviewServer, stopPreview. resources.
  - apply mounted_same; unfold Loop.openPreview_resume, ensurePreviewServer, stopPreview;
      unchanged.
Qed.

Lemma leaveManagement_refreshed_kept (cols : list QmdCli.Collection) a :
  let a' := leaveManagement (Loop.refreshCollections_resume number cols a) in
  (tidy a -> tidy a') /\ (mounted a -> mounted a').
Proof. kept_by_fields. Qed.

Lemma resume_kept (w : Loop.Waiting) a :
  (tidy a -> tidy (resume w a).1) /\ (mounted a -> mounted (resume w a).1).
Proof.
  destruct w as [uri f|f|t r|file title r|r|r|r|r|r|r]; try destruct r as [x|e];
    cbn [Loop.resume fst];
    first [ done
          | apply openPreview_resume_kept
          | apply leaveManagement_refreshed_kept
          | kept_by_fields ].
Qed.

Lemma loopKeypress_kept key a :
  (tidy a -> tidy (loopKeypress key a).1) /\ (mounted a -> mounted (loopKeypress key a).1).
Proof.
  unfold Loop.keypress.
  repeat match goal with
         | |- context [if ?c then _ else _] => destruct c
         | |- context [AddCollectionView.handleEscape ?x ?y] =>
             destruct (AddCollectionView.handleEscape x y) as [[? ?] ?]
         | |- context [AddCollectionView.handleTab ?x ?y] =>
             destruct (AddCollectionView.handleTab x y) as [[? ?] ?]
         | |- context [match focusArea ?n with _ => _ end] => destruct (focusArea n)
         end;
    cbn [fst];
    first
      [ done
      | apply leaveSearch_kept
      | apply handleEscape_kept
      | apply handleTab_kept
      | apply enterSearch_kept
      | apply enterAddCollection_kept
      | apply enterDeleteCollection_kept
      | apply enterRenameCollection_kept
      | exact (leaveManagement_kept (set_addCollectionView _ (set_renderer _ a)))
      | exact (cleanup_kept a)
      | kept_by_fields ].
Qed.

Lemma dispatch_kept (ev : Loop.Event) s :
  (tidy (Loop.app s) -> tidy (Loop.app (dispatch s ev)))
  /\ (mounted (Loop.app s) -> mounted (Loop.app (dispatch s ev))).
Proof.
  destruct ev; cbn [Loop.dispatch Loop.began Loop.app].
  - apply loopKeypress_kept.
  - apply selectionChanged_kept.
  - apply showDetail_kept.
  - kept_by_fields.
  - kept_by_fields.
  - kept_by_fields.
  - done.
  - apply leaveManagement_kept.
  - apply previewStep_kept.
  - destruct (Loop.waiting s !! i) as [w|]; [|done]. cbn [Loop.began Loop.app].
    apply resume_kept.
Qed.

Lemma run_kept (evs : list Loop.Event) s :
  (tidy (Loop.app s) -> tidy (Loop.app (run evs s)))
  /\ (mounted (Loop.app s) -> mounted (Loop.app (run evs s))).
Proof.
  revert s. induction evs as [|ev evs IH]; intros s; [done|].
  cbn [Loop.run fold_left]. destruct (dispatch_kept ev s) as [Ht Hm].
  destruct (IH (dispatch s ev)) as [Ht' Hm']. unfold Loop.run in Ht', Hm'. split; auto.
Qed.

Lemma keypress_escape_document key a :
  key_name key = lit "escape" -> state (nav a) = st_document ->
  keypress key a = handled (leaveDocument a).
Proof.
  intros Hname Hst. unfold App.keypress, named, handleEscape. rewrite Hst, Hname.
  reflexivity.
Qed.

Lemma keypress_escape_search key a :
  key_name key = lit "escape" -> state (nav a) = st_search ->
  isFocused search_input (renderer a) = true ->
  keypress key a = handled (leaveSearch a).
Proof.
  intros Hname Hst Hfocus. unfold App.keypress, named. rewrite Hst, Hname, Hfocus.
  reflexivity.
Qed.

Lemma keypress_slash_search key a :
  key_name key = lit "/" \/ key_name key = lit "s" ->
  state (nav a) = st_collections \/ state (nav a) = st_detail ->
  keypress key a = handled (enterSearch a).
Proof.
  intros Hname Hst. unfold App.keypress, named.
  destruct Hname as [-> | ->], Hst as [-> | ->]; reflexivity.
Qed.

Lemma stopPreview_nav a : nav (stopPreview a) = nav a.
Proof. unfold stopPreview. by case_match. Qed.

Lemma stopPreview_views a : views (stopPreview a) = views a.
Proof. unfold stopPreview. by case_match. Qed.

Lemma showDocument_nav file title a :
  let opened := (showDocument yaml mcp file title a).1 in
  state (nav opened) = st_document
  /\ mainPanel_child (nav opened) = st_document
  /\ previousState (nav opened)
     = (if bool_decide (st_document ≠ state (nav a)) then state (nav a)
        else previousState (nav a))
  /\ searchView (views opened) = searchView (views a)
  /\ preview opened = preview a.
Proof.
  unfold App.showDocument, switchMainView.
  by repeat case_match.
Qed.

(** X11. Escape goes back where the user came from.  A document opened
    from the search view is left, on Escape, for the search view, with the
    results focused and as they were, and without a watcher.  From the
    collections or the detail view, the key [/] or [s] leads to the search
    input, and Escape there leads back to the detail view with the sidebar
    focused. *)
Theorem escape_goes_back (file title : jsstring) (esc slash : KeyEvent) a :
  key_name esc = lit "escape" ->
  key_name slash = lit "/" \/ key_name slash = lit "s" ->
  (state (nav a) = st_search ->
   let opened := (showDocument yaml mcp file title a).1 in
   let back := app (keypress esc opened) in
   state (nav opened) = st_document
   /\ mainPanel_child (nav opened) = st_document
   /\ state (nav back) = st_search
   /\ mainPanel_child (nav back) = st_search
   /\ mainPanel_title (nav back) = lit "Search"
   /\ focusedWidget (renderer back) = Some search_results
   /\ searchView (views back) = searchView (views a)
   /\ previewWatcher (preview back) = None)
  /\ (state (nav a) = st_collections \/ state (nav a) = st_detail ->
      let searching := app (keypress slash a) in
      let back := app (keypress esc searching) in
      state (nav searching) = st_search
      /\ mainPanel_child (nav searching) = st_search
      /\ focusedWidget (renderer searching) = Some search_input
      /\ state (nav back) = st_detail
      /\ mainPanel_child (nav back) = st_detail
      /\ mainPanel_title (nav back) = lit "Collection"
      /\ focusArea (nav back) = sidebar
      /\ focusedWidget (renderer back) = Some collections_select
      /\ collectionsView (views back) = collectionsView (views a)).
Proof.
  intros Hesc Hslash. split.
  - intros Hst opened back. subst back opened.
    destruct (showDocument_nav file title a) as (Hs & Hc & Hp & Hv & Hw).
    rewrite Hst, bool_decide_eq_true_2 in Hp by done.
    rewrite keypress_escape_document by done. cbn [app handled].
    split; [done|]. split; [done|].
    unfold leaveDocument. rewrite stopPreview_nav, Hp, bool_decide_eq_true_2 by done.
    unfold switchMainView. rewrite stopPreview_nav, Hs, bool_decide_eq_true_2 by done.
    cbn. rewrite stopPreview_views, Hv.
    repeat split; try done. apply stopPreview_closes.
  - intros Hst searching back. subst back searching.
    rewrite (keypress_slash_search slash a) by done.
    cbn [app handled].
    rewrite keypress_escape_search by (apply enterSearch_keeps || done).
    cbn [app handled]. unfold leaveSearch, enterSearch, showSelected, switchMainView.
    by repeat case_match.
Qed.

(** X12. [openPreview] never rejects, and leaves the views and the
    version as they are.  When the address of the document is empty or does
    not resolve to a file, only the title changes: a preview that is running
    goes on as it was.  When it resolves, the file and its directory become
    the target of the preview; the server that runs is kept, with its port,
    or one is started; the watcher is a new one on the directory, for the
    name of the file, unless [watch] throws, in which case none is left and
    the title tells the error. *)
Theorem openPreview_outcomes a (uri path : jsstring) :
  DocumentView.currentFile (documentView (views a)) = Some uri ->
  let a' := (openPreview a).1 in
  (openPreview a).2 = Ok tt
  /\ views a' = views a
  /\ previewVersion (preview a') = previewVersion (preview a)
  /\ (uri = [] \/ QmdCli.resolveQmdUri path_join exists_ readdir toLowerCase uri (collections a) = None
      \/ QmdCli.resolveQmdUri path_join exists_ readdir toLowerCase uri (collections a) = Some [] ->
      runtime a' = runtime a /\ preview a' = preview a)
  /\ (uri ≠ [] ->
      QmdCli.resolveQmdUri path_join exists_ readdir toLowerCase uri (collections a) = Some path ->
      path ≠ [] ->
      previewFilePath (preview a') = Some path
      /\ previewBaseDir (preview a') = Some (dirname path)
      /\ (exists port,
            previewServer (preview a') = Some port
            /\ (forall p, previewServer (preview a) = Some p ->
                port = p /\ listening (runtime a') = listening (runtime a))
            /\ (previewServer (preview a) = None ->
                port = pickPort (listening (runtime a))
                /\ listening (runtime a') = listening (runtime a) ∪ {[port]}))
      /\ (watchError (dirname path) = None ->
          previewWatcher (preview a') = Some (nextWatcher (runtime a))
          /\ watchers (runtime a') !! nextWatcher (runtime a)
             = Some (mkWatch (dirname path) (basename path) None))
      /\ (forall e, watchError (dirname path) = Some e ->
          previewWatcher (preview a') = None
          /\ mainPanel_title (nav a') = lit "Preview error: " ++ Error_toString e)).
Proof.
  intros Hfile a'. subst a'. unfold App.openPreview. rewrite Hfile.
  destruct (truthy uri) eqn:Huri; cbn [negb].
  2:{ apply truthy_false in Huri. repeat split; done. }
  apply truthy_true in Huri.
  destruct (QmdCli.resolveQmdUri _ _ _ _ uri (collections a)) as [found|] eqn:Hres.
  2:{ repeat split; done. }
  destruct (truthy found) eqn:Hfound; cbn [negb].
  2:{ apply truthy_false in Hfound. subst found.
      do 4 (split; [done|]). by intros _ [= <-] Hne. }
  apply truthy_true in Hfound.
  unfold ensurePreviewServer, stopPreview.
  destruct (previewWatcher (preview a)) as [old|] eqn:Hold;
    destruct (previewServer (preview a)) as [p0|] eqn:Hp0; cbn -[lit]; rewrite ?Hp0;
    cbn -[lit];
    destruct (watchError (dirname found)) as [e|] eqn:Hwatch; cbn -[lit];
    try destruct (spawn _) as [proc|e']; cbn -[lit].
  all: do 3 (split; [done|]).
  all: split; [by intros [? | [? | [= ?]]]|].
  all: intros _ [= <-] _; rewrite ?Hwatch.
  all: do 2 (split; [done|]).
  all: split; [eexists; split; [done|]; split; [by intros ? [= ->] | done] |].
  all: split; [try done; intros _; by rewrite lookup_insert_eq |].
  all: try done.
  all: by intros ? [= <-].
Qed.

(** What a method does in parts it does at once when nothing comes in
    between: the parts are those of the methods of [App]. *)

Local Abbreviation uninterrupted :=
  (Loop.uninterrupted number yaml spawn readText YAML_parse_config nullishMessage
     path_join XDG_CONFIG_HOME HOME dirname basename pickPort watchError EDITOR).

Lemma openPreview_uninterrupted a :
  uninterrupted (Loop.openPreview_start number path_join exists_ readdir toLowerCase a)
  = (openPreview a).1.
Proof.
  unfold Loop.uninterrupted, Loop.openPreview_start, App.openPreview.
  destruct (DocumentView.currentFile _) as [uri|]; [|done].
  destruct (truthy uri); cbn [negb snd fst Loop.resume]; [|done].
  unfold Loop.openPreview_resume.
  destruct (QmdCli.resolveQmdUri _ _ _ _ _ _) as [found|]; [|done].
  destruct (truthy found); cbn [negb]; [|done].
  destruct (ensurePreviewServer _ _) as [a1 port].
  destruct (watchError _); [done|]. by destruct (spawn _).
Qed.

Lemma openInEditor_uninterrupted a :
  uninterrupted (Loop.openInEditor_start number path_join exists_ readdir toLowerCase a)
  = (openInEditor a).1.
Proof.
  unfold Loop.uninterrupted, Loop.openInEditor_start, App.openInEditor.
  destruct (DocumentView.currentFile _) as [uri|]; [|done].
  destruct (truthy uri); cbn [negb snd fst Loop.resume]; [|done].
  unfold Loop.openInEditor_resume.
  destruct (QmdCli.resolveQmdUri _ _ _ _ _ _) as [found|];
    [destruct (truthy found)|]; cbn [negb]; by repeat case_match.
Qed.

Lemma runEmbed_uninterrupted a :
  uninterrupted (Loop.runEmbed_start number spawn a) = (runEmbed spawn a).1.
Proof. unfold Loop.uninterrupted, Loop.runEmbed_start, App.runEmbed. done. Qed.

Lemma keypress_uninterrupted key a :
  uninterrupted (loopKeypress key a) = app (keypress key a).
Proof.
  unfold Loop.keypress, App.keypress.
  repeat match goal with
         | |- context [if ?c then _ else _] => destruct c
         | |- context [AddCollectionView.handleEscape ?x ?y] =>
             destruct (AddCollectionView.handleEscape x y) as [[? ?] ?]
         | |- context [AddCollectionView.handleTab ?x ?y] =>
             destruct (AddCollectionView.handleTab x y) as [[? ?] ?]
         | |- context [match focusArea ?n with _ => _ end] => destruct (focusArea n)
         end;
    cbn [app handled passed started];
    first [ done
          | apply openInEditor_uninterrupted
          | apply openPreview_uninterrupted
          | apply runEmbed_uninterrupted ].
Qed.

Lemma showDocument_uninterrupted (file title : jsstring) a :
  uninterrupted (Loop.showDocument_start number mcp file title a)
  = (showDocument yaml mcp file title a).1.
Proof.
  unfold Loop.uninterrupted, Loop.showDocument_start, App.showDocument,
    Loop.showDocument_resume, Loop.load_resume, Loop.load_start, DocumentView.load.
  cbn [snd fst Loop.resume].
  unfold Loop.showDocument_resume, Loop.load_resume.
  destruct (Mcp.mcp_getDocument _ _ _) as [text|e]; cbn.
  - destruct (DocumentView.frontmatterTitle _ _) as [fm|]; cbn; by repeat case_match.
  - by repeat case_match.
Qed.

Lemma callbacks_uninterrupted (path name pattern oldName newName : jsstring) a :
  uninterrupted (Loop.addOnComplete_start number spawn path_join HOME path name pattern a)
  = (addOnComplete path name pattern a).1
  /\ uninterrupted (Loop.renameOnComplete_start number spawn oldName newName a)
     = (renameOnComplete oldName newName a).1
  /\ uninterrupted (Loop.deleteOnConfirm_start number spawn name a)
     = (deleteOnConfirm name a).1.
Proof.
  unfold Loop.uninterrupted, Loop.addOnComplete_start, Loop.renameOnComplete_start,
    Loop.deleteOnConfirm_start, App.addOnComplete, App.renameOnComplete,
    App.deleteOnConfirm, App.refreshCollections.
  cbn [snd fst].
  repeat split.
  - destruct (QmdCli.addCollection _ _ _ _ _ _); cbn [Loop.resume snd fst]; [|done].
    by destruct (QmdCli.listCollections _ _ _ _ _ _ _).
  - destruct (QmdCli.renameCollection _ _ _); cbn [Loop.resume snd fst]; [|done].
    by destruct (QmdCli.listCollections _ _ _ _ _ _ _).
  - destruct (QmdCli.removeCollection _ _); cbn [Loop.resume snd fst]; [|done].
    by destruct (QmdCli.listCollections _ _ _ _ _ _ _).
Qed.

(** A preview that finds its file ends with a watcher and a server, unless
    [watch] throws. *)
Lemma openPreview_resume_opens (path : jsstring) a :
  path ≠ [] -> watchError (dirname path) = None ->
  let a' :=
    Loop.openPreview_resume number spawn dirname basename pickPort watchError
      (Some path) a in
  previewWatcher (preview a') ≠ None /\ previewServer (preview a') ≠ None.
Proof.
  intros Hpath Hwatch. unfold Loop.openPreview_resume.
  destruct path as [|c path]; [done|]. cbn [truthy negb].
  rewrite Hwatch. unfold ensurePreviewServer.
  destruct (previewServer _) eqn:Hserver.
  all: destruct (spawn _).
  all: cbn in *.
  all: by rewrite ?Hserver.
Qed.

(** X13. The application keeps its preview tidy through every listener
    and every method that goes on after an [await], in whatever order they
    come: if the watchers that are open and the ports that are listened on
    are those it refers to, they still are after any sequence of events.  So
    at most one watcher and one server exist at a time.  Right after the key
    [q], where it is not typed into an input, none is left and the renderer
    is destroyed; but the methods that wait still wait, and a preview among
    them that then finds its file opens a watcher and a server again. *)
Theorem preview_stays_tidy (evs : list Loop.Event) (key : KeyEvent) s :
  tidy (Loop.app s) ->
  let s' := run evs s in
  let a' := Loop.app s' in
  tidy a'
  /\ (size (watchers (runtime a')) <= 1)%nat
  /\ (size (listening (runtime a')) <= 1)%nat
  /\ (key_name key = lit "q" -> ctrl key = false -> meta key = false ->
      isManagement (state (nav a')) = false ->
      (state (nav a') = st_search -> isFocused search_input (renderer a') = false) ->
      let quit := dispatch s' (Loop.Keypress key) in
      watchers (runtime (Loop.app quit)) = ∅
      /\ listening (runtime (Loop.app quit)) = ∅
      /\ destroyed (renderer (Loop.app quit)) = true
      /\ Loop.waiting quit = Loop.waiting s'
      /\ forall (i : nat) (path : jsstring),
           Loop.waiting quit !! i = Some (Loop.PreviewResolved (Some path)) ->
           path ≠ [] -> watchError (dirname path) = None ->
           let later := Loop.app (dispatch quit (Loop.Settled i)) in
           size (watchers (runtime later)) = 1%nat
           /\ size (listening (runtime later)) = 1%nat).
Proof.
  intros Htidy s' a'. pose proof (proj1 (run_kept evs s) Htidy) as Htidy'.
  fold s' in Htidy'. fold a' in Htidy'.
  split; [done|]. pose proof Htidy' as [Hw Hl]. split; [|split].
  - rewrite <- size_dom, Hw.
    destruct (previewWatcher (preview a')); [by rewrite size_singleton | by rewrite size_empty; lia].
  - rewrite Hl.
    destruct (previewServer (preview a')); [by rewrite size_singleton | by rewrite size_empty; lia].
  - intros Hname Hctrl Hmeta Hman Hsearch quit.
    pose proof (proj1 (dispatch_kept (Loop.Keypress key) s') Htidy') as Htidy_quit.
    fold quit in Htidy_quit.
    assert (Hquit : quit = Loop.mkSession (set_renderer (destroy (renderer (cleanup a')))
                                             (cleanup a')) (Loop.waiting s')).
    { subst quit. cbn [Loop.dispatch]. unfold Loop.began, Loop.keypress, named.
      fold a'. rewrite Hname, Hctrl, Hmeta, Hman.
      replace (bool_decide (state (nav a') = st_search)
               && isFocused search_input (renderer a')) with false.
      2:{ destruct (bool_decide_reflect (state (nav a') = st_search)) as [Hst|]; [|done].
          by rewrite (Hsearch Hst). }
      destruct (bool_decide_reflect (state (nav a') = st_search)) as [Hst|Hst];
        destruct (bool_decide_reflect (state (nav a') = st_document)) as [Hdoc|Hdoc];
        cbn -[lit]; try congruence; by rewrite app_nil_r. }
    destruct (cleanup_closes number a') as (Hnow & Hnos & _).
    destruct (proj1 (cleanup_kept a') Htidy') as [Hw' Hl'].
    rewrite Hnow in Hw'. rewrite Hnos in Hl'.
    rewrite Hquit in Htidy_quit |- *.
    cbn [Loop.app Loop.waiting runtime renderer set_renderer destroy destroyed].
    split; [by apply dom_empty_iff_L in Hw'|]. do 3 (split; [done|]).
    intros i path Hi Hpath Hwatch.
    pose proof (proj1 (dispatch_kept (Loop.Settled i) _) Htidy_quit) as [Hw2 Hl2].
    set (later := Loop.app (dispatch _ (Loop.Settled i))) in *.
    assert (previewWatcher (preview later) ≠ None
            /\ previewServer (preview later) ≠ None) as [Hsome1 Hsome2].
    { subst later. cbn [Loop.dispatch Loop.waiting].
      rewrite Hi. cbn [Loop.began Loop.app Loop.resume fst].
      by apply openPreview_resume_opens. }
    rewrite <- size_dom, Hw2, Hl2.
    destruct (previewWatcher (preview later)); [|done].
    destruct (previewServer (preview later)); [|done].
    by rewrite !size_singleton.
Qed.

(** X14. The view on the main panel is the one of the state, which the
    keys are dispatched on: every listener keeps the two together, and so
    does every method that goes on after an [await]. *)
Theorem main_panel_follows_state (evs : list Loop.Event) s :
  mounted (Loop.app s) -> mounted (Loop.app (run evs s)).
Proof. apply run_kept. Qed.

End LoopFacts.

Lemma preview_stays_tidy_witness :
  let p := Loop.Keypress (App.mkKey (lit "p") false false) in
  let q := Loop.Keypress (App.mkKey (lit "q") false false) in
  let on evs :=
    Loop.app
      (Loop.run unit Sample.yaml (Mcp.client unit Sample.spawn Sample.JSON_parse)
         Sample.spawn Sample.readText Sample.noConfig Sample.nullishMessage
         Sample.path_join None (lit "/home/u") Sample.exists_ Sample.readdir asciiLower
         Sample.dirname Sample.basename Sample.pickPort Sample.watchError None evs
         (Loop.mkSession Sample.reading [])) in
  tidy (on [p])
  /\ App.watchers (App.runtime (on [p; q])) = ∅
  /\ size (App.watchers (App.runtime (on [p; q; Loop.Settled 0%nat]))) = 1%nat.
Proof.
  intros p q on.
  destruct (preview_stays_tidy unit Sample.yaml
              (Mcp.client unit Sample.spawn Sample.JSON_parse)
              Sample.spawn Sample.readText Sample.noConfig Sample.nullishMessage
              Sample.path_join None (lit "/home/u") Sample.exists_ Sample.readdir
              asciiLower Sample.dirname Sample.basename Sample.pickPort
              Sample.watchError None [p] (App.mkKey (lit "q") false false)
              (Loop.mkSession Sample.reading []))
    as (H1 & _ & _ & H4).
  - split; reflexivity.
  - split; [exact H1|].
    specialize (H4 eq_refl eq_refl eq_refl eq_refl).
    destruct H4 as (H5 & _ & _ & _ & H6); [discriminate|].
    split; [exact H5|].
    specialize (H6 0%nat (lit "/docs/a.md") eq_refl).
    destruct H6 as [H7 _]; [discriminate | reflexivity |].
    exact H7.
Defined.

Lemma escape_goes_back_witness :
  App.state
    (App.nav
       (App.app
          (App.keypress Sample.spawn Sample.path_join Sample.exists_ Sample.readdir
             asciiLower Sample.dirname Sample.basename Sample.pickPort Sample.watchError
             None (App.mkKey (lit "escape") false false)
             (App.app
                (App.keypress Sample.spawn Sample.path_join Sample.exists_ Sample.readdir
                   asciiLower Sample.dirname Sample.basename Sample.pickPort
                   Sample.watchError None (App.mkKey (lit "/") false false)
                   (App.new (number := unit)))))))
  = App.st_detail.
Proof.
  destruct (escape_goes_back unit Sample.yaml
              (Mcp.client unit Sample.spawn Sample.JSON_parse)
              Sample.spawn Sample.path_join Sample.exists_ Sample.readdir asciiLower
              Sample.dirname Sample.basename Sample.pickPort Sample.watchError None
              [] [] (App.mkKey (lit "escape") false false)
              (App.mkKey (lit "/") false false) App.new) as [_ H].
  - reflexivity.
  - left. reflexivity.
  - destruct H as (_ & _ & _ & H & _); [left; reflexivity | exact H].
Defined.

Lemma main_panel_follows_state_witness :
  mounted
    (Loop.app
       (Loop.run unit Sample.yaml (Mcp.client unit Sample.spawn Sample.JSON_parse)
          Sample.spawn Sample.readText Sample.noConfig Sample.nullishMessage
          Sample.path_join None (lit "/home/u") Sample.exists_ Sample.readdir asciiLower
          Sample.dirname Sample.basename Sample.pickPort Sample.watchError None
          [Loop.Keypress (App.mkKey (lit "/") false false);
           Loop.DocumentOpen (lit "qmd://notes/a.md") (lit "a.md");
           Loop.Keypress (App.mkKey (lit "escape") false false);
           Loop.Settled 0%nat]
          (Loop.mkSession App.new []))).
Proof.
  apply main_panel_follows_state. reflexivity.
Defined.

Lemma openPreview_outcomes_witness :
  let a' :=
    (App.openPreview Sample.spawn Sample.path_join Sample.exists_ Sample.readdir
       asciiLower Sample.dirname Sample.basename Sample.pickPort Sample.watchError
       Sample.reading).1 in
  App.previewFilePath (App.preview a') = Some (lit "/docs/a.md")
  /\ App.previewBaseDir (App.preview a') = Some (lit "/docs")
  /\ App.previewWatcher (App.preview a') = Some 0%nat.
Proof.
  intros a'.
  destruct (openPreview_outcomes unit Sample.spawn Sample.path_join Sample.exists_
              Sample.readdir asciiLower Sample.dirname Sample.basename Sample.pickPort
              Sample.watchError Sample.reading (lit "qmd://notes/a.md") (lit "/docs/a.md"))
    as (_ & _ & _ & _ & H); [reflexivity|].
  destruct H as (H1 & H2 & _ & H4 & _); [discriminate | vm_compute; reflexivity | discriminate |].
  destruct H4 as [H4 _]; [reflexivity|].
  split; [exact H1|]. split; [exact H2 | exact H4].
Defined.

(** ** The front matter, in the document view and in the preview page *)

Section FrontmatterMore.
Import Regex PreviewPage.
Variable yaml : Frontmatter.Yaml.

Lemma Matches_Opt_Chr_inv c s caps s' caps' :
  Matches (Opt (Chr c)) s caps s' caps' ->
  exists o, (o = [] \/ o = [c]) /\ s = o ++ s' /\ caps' = caps.
Proof.
  intros H. apply Matches_Opt_inv in H as [H | [-> ->]].
  - apply Matches_Chr_inv in H as [-> ->]. exists [c]. auto.
  - exists []. auto.
Qed.

Lemma frontmatter_sound (raw : jsstring) (m : MatchResult) :
  matchStart Frontmatter.pattern raw = Some m ->
  exists cr1 text cr2 cr3 nl4 body,
    raw = lit "---" ++ cr1 ++ [10] ++ text ++ cr2 ++ [10] ++ lit "---" ++ cr3 ++ nl4 ++ body
    /\ (cr1 = [] \/ cr1 = [13]) /\ (cr2 = [] \/ cr2 = [13])
    /\ (cr3 = [] \/ cr3 = [13]) /\ (nl4 = [] \/ nl4 = [10])
    /\ groups m !! 1%nat = Some text
    /\ drop (length (matched m)) raw = body.
Proof.
  unfold matchStart. intros H.
  apply exec_sound in H as (s' & caps' & HM & [= <-]).
  unfold Frontmatter.pattern in HM. cbn [Seqs] in HM.
  apply Matches_Seq_inv in HM as (s1 & c1 & Hopen & HM).
  apply Matches_Seq_inv in HM as (s2 & c2 & Hcr1 & HM).
  apply Matches_Seq_inv in HM as (s3 & c3 & Hnl1 & HM).
  apply Matches_Seq_inv in HM as (s4 & c4 & Htext & HM).
  apply Matches_Seq_inv in HM as (s5 & c5 & Hcr2 & HM).
  apply Matches_Seq_inv in HM as (s6 & c6 & Hnl2 & HM).
  apply Matches_Seq_inv in HM as (s7 & c7 & Hclose & HM).
  apply Matches_Seq_inv in HM as (s8 & c8 & Hcr3 & HM).
  apply Matches_Seq_inv in HM as (s9 & c9 & Hnl4 & HM).
  apply Matches_Eps_inv in HM as [-> ->].
  apply Matches_Opt_Chr_inv in Hnl4 as (nl4 & Hnl4 & -> & ->).
  apply Matches_Opt_Chr_inv in Hcr3 as (cr3 & Hcr3 & -> & ->).
  apply Matches_Str_inv in Hclose as [-> ->].
  apply Matches_Chr_inv in Hnl2 as [-> ->].
  apply Matches_Opt_Chr_inv in Hcr2 as (cr2 & Hcr2 & -> & ->).
  apply Matches_Group_inv in Htext as (c3' & Htext & ->).
  apply Matches_Star_inv in Htext as (text & -> & _ & ->).
  apply Matches_Chr_inv in Hnl1 as [-> ->].
  apply Matches_Opt_Chr_inv in Hcr1 as (cr1 & Hcr1 & -> & ->).
  apply Matches_Str_inv in Hopen as [-> ->].
  exists cr1, text, cr2, cr3, nl4, s9. cbn [groups matched].
  split; [done|]. do 4 (split; [done|]).
  split; [by rewrite take_prefix, lookup_insert_eq|].
  match goal with
  | |- drop _ ?whole = _ =>
      assert (Hwhole : whole
                       = (lit "---" ++ cr1 ++ [10] ++ text ++ cr2 ++ [10] ++ lit "---"
                          ++ cr3 ++ nl4) ++ s9)
        by (by rewrite <- !app_assoc);
      rewrite Hwhole
  end.
  rewrite take_prefix. by rewrite drop_app_length.
Qed.

(** X15. The document view and the preview page read the same front
    matter.  The title of the page is the one the document view finds in the
    front matter, and the name of the file without [.md] when it finds
    none.  A text that does not begin with three dashes is the body of the
    page as it is, with no list of keys.  Otherwise the body is what follows
    the block of front matter: a line of three dashes, the text given to the
    yaml parser, and a line of three dashes. *)
Theorem frontmatter_split (raw path : jsstring) :
  let r := readFrontmatter yaml raw path in
  r.1.2 = default (defaultTitle path) (DocumentView.frontmatterTitle yaml raw)
  /\ ((forall rest, raw ≠ lit "---" ++ rest) -> r = (raw, defaultTitle path, []))
  /\ (r = (raw, defaultTitle path, [])
      \/ exists cr1 text cr2 cr3 nl4,
           raw = lit "---" ++ cr1 ++ [10] ++ text ++ cr2 ++ [10] ++ lit "---"
                 ++ cr3 ++ nl4 ++ r.1.1
           /\ (cr1 = [] \/ cr1 = [13]) /\ (cr2 = [] \/ cr2 = [13])
           /\ (cr3 = [] \/ cr3 = [13]) /\ (nl4 = [] \/ nl4 = [10])
           /\ (r.2 = []
               \/ exists fm, Frontmatter.parse yaml text = Ok fm
                             /\ r.2 = renderFrontmatter yaml (listedEntries yaml fm))).
Proof.
  intros r. subst r. unfold readFrontmatter, DocumentView.frontmatterTitle.
  destruct (matchStart Frontmatter.pattern raw) as [m|] eqn:Hm.
  2:{ split; [done|]. split; [done | by left]. }
  destruct (frontmatter_sound raw m Hm)
    as (cr1 & text & cr2 & cr3 & nl4 & body & Hraw & H1 & H2 & H3 & H4 & Htext & Hbody).
  unfold group. cbn [mbind option_bind]. rewrite Htext. cbn [default from_option id].
  rewrite Hbody.
  split; [|split].
  - destruct (Frontmatter.parse yaml text) as [fm|e]; [|done].
    by destruct (Frontmatter.nullish yaml fm).
  - intros Hno. by destruct (Hno _ Hraw).
  - right. exists cr1, text, cr2, cr3, nl4.
    destruct (Frontmatter.parse yaml text) as [fm|e];
      [destruct (Frontmatter.nullish yaml fm)|]; (split; [exact Hraw|]);
      do 4 (split; [done|]); [by left | | by left].
    right. by exists fm.
Qed.

End FrontmatterMore.

Lemma frontmatter_split_witness :
  PreviewPage.readFrontmatter Sample.yaml (lit "# A") (lit "/docs/a.md")
  = (lit "# A", lit "a", []).
Proof.
  destruct (frontmatter_split Sample.yaml (lit "# A") (lit "/docs/a.md")) as (_ & H & _).
  apply H. intros rest. discriminate.
Defined.

(** ** The processes the application starts *)

Section ProcessFacts.
Import App.
Variable number : Type.
Variable percent : number -> jsstring.
Variable JSON_parse : jsstring -> Result (list (Mcp.SearchResult number)).
Variable readText : jsstring -> Result jsstring.
Variable YAML_parse_config : jsstring -> Result (QmdCli.Unchecked QmdCli.QmdConfig).
Variable nullishMessage : string -> QmdCli.Nullish -> jsstring -> jsstring.
Variable path_join : list jsstring -> jsstring.
Variable XDG_CONFIG_HOME : option jsstring.
Variable HOME : jsstring.

Implicit Types (spawn : list jsstring -> Result Proc) (a : App number).

Lemma searchArgs_default (cmd : string) (query : jsstring) (scope : option jsstring) :
  Mcp.searchArgs cmd query (Some (Mcp.mkSearchOpts None scope))
  = [lit cmd; query; lit "--json"; lit "-n"; lit "20"]
    ++ match scope with
       | Some c => if truthy c then [lit "-c"; c] else []
       | None => []
       end.
Proof.
  unfold Mcp.searchArgs. cbn [mbind option_bind Mcp.limit Mcp.collection default].
  change (String_of_Z 20) with (lit "20").
  destruct scope as [c|]; [destruct (truthy c)|]; by rewrite ?app_nil_r.
Qed.

(** X16. A search asks qmd for at most 20 results of the query as it was
    typed, in the collection the sidebar had selected when the search view
    was entered, or in all of them.  [performSearch] starts no other
    process but [qmd status], before a vector search or a query: with
    another host that answers these two commands alike, it ends alike. *)
Theorem performSearch_processes spawn spawn' (query : jsstring) (v : SearchView.t number) a :
  let cmd :=
    match SearchView.mode v with
    | SearchView.mode_search => "search"%string
    | SearchView.mode_vsearch => "vsearch"%string
    | SearchView.mode_query => "query"%string
    end in
  let argv :=
    [lit "qmd"; lit cmd; query; lit "--json"; lit "-n"; lit "20"]
    ++ match SearchView.selectedCollection v with
       | Some c => if truthy c then [lit "-c"; c] else []
       | None => []
       end in
  spawn argv = spawn' argv ->
  (SearchView.mode v ≠ SearchView.mode_search ->
   spawn [lit "qmd"; lit "status"] = spawn' [lit "qmd"; lit "status"]) ->
  SearchView.performSearch percent (Mcp.client number spawn JSON_parse) query v
  = SearchView.performSearch percent (Mcp.client number spawn' JSON_parse) query v
  /\ SearchView.selectedCollection (searchView (views (enterSearch a)))
     = QmdCli.name <$> CollectionsView.getSelectedCollection (collectionsView (views a))
  /\ SearchView.modeIndex (searchView (views (enterSearch a)))
     = SearchView.modeIndex (searchView (views a)).
Proof.
  intros cmd argv Hargv Hstatus. split; [|by unfold enterSearch, switchMainView; case_match].
  unfold SearchView.performSearch. destruct (negb (truthy (trim query))); [done|].
  cbv zeta. rewrite !mode_set_results, !mode_set_status.
  change (SearchView.selectedCollection (SearchView.set_results number [] [] _))
    with (SearchView.selectedCollection v).
  subst cmd argv. cbn [Mcp.client Mcp.mcp_search Mcp.mcp_vectorSearch Mcp.mcp_deepSearch
                        Mcp.mcp_status].
  unfold Mcp.search, Mcp.vectorSearch, Mcp.deepSearch, Mcp.status, Mcp.run.
  rewrite !searchArgs_default. revert Hargv Hstatus.
  destruct (SearchView.mode v) eqn:Hmode; intros Hargv Hstatus.
  - cbn [List.app] in Hargv |- *. by rewrite Hargv.
  - rewrite (Hstatus ltac:(done)). cbn [List.app] in Hargv |- *. by rewrite Hargv.
  - rewrite (Hstatus ltac:(done)). cbn [List.app] in Hargv |- *. by rewrite Hargv.
Qed.

(** X17. A completed add form asks qmd to add the path, with [~] and
    [~/] at its head replaced by the home directory, under the given name,
    and with [--mask] only for a pattern other than the default one; when
    that succeeds it asks for the list of collections.  It starts no other
    process: with another host that answers these two commands alike, it
    ends alike. *)
Theorem addOnComplete_processes spawn spawn' (path name pattern : jsstring) a :
  let resolved :=
    if startsWith path (lit "~/") || bool_decide (path = lit "~")
    then path_join [HOME; drop 1 path]
    else path in
  let argv :=
    [lit "qmd"; lit "collection"; lit "add"; resolved; lit "--name"; name]
    ++ (if bool_decide (pattern = lit "**/*.md") || bool_decide (pattern = [])
        then []
        else [lit "--mask"; pattern]) in
  spawn argv = spawn' argv ->
  spawn [lit "qmd"; lit "collection"; lit "list"]
  = spawn' [lit "qmd"; lit "collection"; lit "list"] ->
  App.addOnComplete spawn readText YAML_parse_config nullishMessage
    path_join XDG_CONFIG_HOME HOME path name pattern a
  = App.addOnComplete spawn' readText YAML_parse_config nullishMessage
      path_join XDG_CONFIG_HOME HOME path name pattern a.
Proof.
  intros resolved argv Hargv Hlist.
  assert (Hadd : QmdCli.addCollection spawn path_join HOME path name
                   (if bool_decide (pattern ≠ lit "**/*.md") then Some pattern else None)
                 = QmdCli.addCollection spawn' path_join HOME path name
                     (if bool_decide (pattern ≠ lit "**/*.md") then Some pattern else None)).
  { unfold QmdCli.addCollection, QmdCli.run, QmdCli.expandHome. fold resolved.
    subst argv. destruct (decide (pattern = lit "**/*.md")) as [Hdef|Hdef].
    - rewrite bool_decide_eq_false_2 by (by intros H; apply H).
      rewrite bool_decide_eq_true_2 in Hargv by done. cbn [orb List.app] in Hargv.
      by rewrite Hargv.
    - rewrite bool_decide_eq_true_2 by done.
      rewrite (bool_decide_eq_false_2 (pattern = lit "**/*.md")) in Hargv by done.
      cbn [orb] in Hargv. destruct pattern as [|c pattern'].
      + rewrite bool_decide_eq_true_2 in Hargv by done.
        cbn [truthy]. cbn [List.app] in Hargv. by rewrite Hargv.
      + rewrite bool_decide_eq_false_2 in Hargv by done.
        change (truthy (c :: pattern')) with true. cbn [List.app] in Hargv |- *.
        by rewrite Hargv. }
  assert (Hrefresh : forall b : App number,
            App.refreshCollections spawn readText YAML_parse_config nullishMessage path_join
              XDG_CONFIG_HOME HOME b
            = App.refreshCollections spawn' readText YAML_parse_config nullishMessage path_join
                XDG_CONFIG_HOME HOME b).
  { intros b. unfold App.refreshCollections, QmdCli.listCollections, QmdCli.run.
    by rewrite Hlist. }
  unfold App.addOnComplete. rewrite Hadd.
  destruct (QmdCli.addCollection spawn' _ _ _ _ _); [|done].
  by rewrite Hrefresh.
Qed.

End ProcessFacts.

Lemma performSearch_processes_witness :
  let spawn' (argv : list jsstring) :=
    if bool_decide (argv = [lit "qmd"; lit "search"; lit "tea"; lit "--json"; lit "-n";
                            lit "20"])
    then Sample.spawn argv else Sample.failing argv in
  SearchView.performSearch (fun _ : unit => [])
    (Mcp.client unit Sample.spawn Sample.JSON_parse) (lit "tea") SearchView.initial
  = SearchView.performSearch (fun _ : unit => [])
      (Mcp.client unit spawn' Sample.JSON_parse) (lit "tea") SearchView.initial.
Proof.
  intros spawn'.
  apply (performSearch_processes unit (fun _ => []) Sample.JSON_parse Sample.spawn spawn'
           (lit "tea") SearchView.initial App.new).
  - reflexivity.
  - intros H. exfalso. apply H. reflexivity.
Defined.

Lemma addOnComplete_processes_witness :
  let spawn' (argv : list jsstring) :=
    if bool_decide (argv = [lit "qmd"; lit "collection"; lit "add"; lit "/home/u/docs";
                            lit "--name"; lit "notes"])
       || bool_decide (argv = [lit "qmd"; lit "collection"; lit "list"])
    then Sample.spawn argv else Sample.failing argv in
  App.addOnComplete Sample.spawn Sample.noFile Sample.noConfig Sample.nullishMessage
    Sample.path_join None
    (lit "/home/u") (lit "~/docs") (lit "notes") (lit "**/*.md") (App.new (number := unit))
  = App.addOnComplete spawn' Sample.noFile Sample.noConfig Sample.nullishMessage
      Sample.path_join None
      (lit "/home/u") (lit "~/docs") (lit "notes") (lit "**/*.md") App.new.
Proof.
  intros spawn'.
  apply (addOnComplete_processes unit Sample.noFile Sample.noConfig Sample.nullishMessage
           Sample.path_join None (lit "/home/u") Sample.spawn spawn'); reflexivity.
Defined.

(** ** qmd-cli.ts and views/files.ts: the lines of [qmd ls] *)

Section FilesLoadFacts.
Import Regex Files FilesLoad.

Lemma star_greedy_max {R} (p : N -> bool) (u rest : jsstring)
    (k : jsstring -> option R) (x : R) :
  Forall (fun c => p c = true) u ->
  match rest with d :: _ => p d = false | [] => True end ->
  k rest = Some x ->
  star true p (u ++ rest) k = Some x.
Proof.
  intros Hu Hrest Hk. induction Hu as [|c u Hc _ IH]; simpl.
  - destruct rest as [|d rest]; simpl; [done|]. by rewrite Hrest.
  - by rewrite Hc, IH.
Qed.

Lemma exec_Str {R} (str s : jsstring) caps (k : jsstring -> captures -> option R) :
  exec (Str str) (str ++ s) caps k = k s caps.
Proof.
  induction str as [|c str IH]; simpl; [done|]. by rewrite N.eqb_refl.
Qed.

Lemma searchFrom_unfold r (s : jsstring) (idx : nat) :
  searchFrom r s idx
  = match exec r s ∅
            (fun s' caps => Some (mkMatch idx (take (length s - length s') s) caps)) with
    | Some m => Some m
    | None =>
        match s with
        | [] => None
        | _ :: s' => searchFrom r s' (S idx)
        end
    end.
Proof. by destruct s. Qed.

(** The search passes over a stretch of text in which no match begins. *)
Lemma searchFrom_skip r (pre s : jsstring) (idx : nat) :
  (forall p1 p2 s' caps', pre = p1 ++ p2 -> p2 ≠ [] -> ~ Matches r (p2 ++ s) ∅ s' caps') ->
  searchFrom r (pre ++ s) idx = searchFrom r s (idx + length pre).
Proof.
  revert idx. induction pre as [|c pre IH]; intros idx Hno.
  - simpl. f_equal. lia.
  - rewrite searchFrom_unfold.
    destruct (exec r ((c :: pre) ++ s) ∅ _) as [m|] eqn:Hexec.
    + apply exec_sound in Hexec as (s' & caps' & HM & _).
      by destruct (Hno [] (c :: pre) s' caps').
    + simpl. rewrite IH; [f_equal; lia|].
      intros p1 p2 s' caps' -> Hp2. by apply (Hno (c :: p1) p2).
Qed.

Lemma searchFrom_uri (u : jsstring) (idx : nat) :
  u ≠ [] -> Forall (fun c => isWhiteSpace c = false) u ->
  searchFrom uriInLine (lit "qmd://" ++ u) idx
  = Some (mkMatch idx (lit "qmd://" ++ u) (<[1%nat := lit "qmd://" ++ u]> ∅)).
Proof.
  intros Hu Hnonws. rewrite searchFrom_unfold. unfold uriInLine. cbn [exec].
  rewrite exec_Str. destruct u as [|d u]; [done|].
  apply Forall_cons in Hnonws as [Hd Hnonws]. cbn [exec]. unfold nonws at 1. rewrite Hd.
  cbn [negb]. rewrite <- (app_nil_r u) at 1.
  erewrite star_greedy_max; [| by apply Forall_nonws | done | reflexivity].
  cbn [length]. rewrite Nat.sub_0_r, firstn_all. done.
Qed.

Lemma no_uri_before (region : jsstring) (w : N) (t p1 p2 s' : jsstring) caps' :
  (47 ∉ region) -> isWhiteSpace w = true ->
  region ++ [w] = p1 ++ p2 -> p2 ≠ [] ->
  ~ Matches uriInLine (p2 ++ lit "qmd://" ++ t) ∅ s' caps'.
Proof.
  intros Hslash Hw Hsplit Hp2 HM.
  unfold uriInLine in HM.
  apply Matches_Group_inv in HM as (c1 & HM & _).
  apply Matches_Seq_inv in HM as (s1 & c2 & Hstr & _).
  apply Matches_Str_inv in Hstr as [Heq _].
  destruct (exists_last Hp2) as (q & a & ->).
  rewrite app_assoc in Hsplit. apply app_inj_tail in Hsplit as [-> <-].
  change (lit "qmd://") with [113; 109; 100; 58; 47; 47] in Heq.
  rewrite <- app_assoc in Heq.
  destruct q as [|a1 [|a2 [|a3 [|a4 [|a5 q]]]]]; simplify_eq/=.
  apply Hslash. rewrite !elem_of_app, !elem_of_cons. tauto.
Qed.

Lemma trimStart_blank (w x : jsstring) :
  Forall (fun c => isWhiteSpace c = true) w -> trimStart (w ++ x) = trimStart x.
Proof. induction 1 as [|c w Hc _ IH]; simpl; [done|]. by rewrite Hc. Qed.

Lemma trimStart_head (c : N) (x : jsstring) :
  isWhiteSpace c = false -> trimStart (c :: x) = c :: x.
Proof. intros Hc. simpl. by rewrite Hc. Qed.

Lemma trim_core (pad core tail : jsstring) (c d : N) (mid : jsstring) :
  Forall (fun c => isWhiteSpace c = true) pad ->
  Forall (fun c => isWhiteSpace c = true) tail ->
  core = c :: mid -> isWhiteSpace c = false ->
  (exists mid', core = mid' ++ [d]) -> isWhiteSpace d = false ->
  trim (pad ++ core ++ tail) = core.
Proof.
  intros Hpad Htail Hcore Hc [mid' Hlast] Hd. unfold trim, trimEnd.
  rewrite trimStart_blank by done.
  rewrite Hcore at 1. change ((c :: mid) ++ tail) with (c :: (mid ++ tail)).
  rewrite trimStart_head by done.
  change (c :: (mid ++ tail)) with ((c :: mid) ++ tail). rewrite <- Hcore.
  rewrite rev_app_distr, trimStart_blank by (by apply Forall_rev).
  rewrite Hlast, rev_app_distr. simpl. rewrite Hd. simpl.
  by rewrite rev_involutive.
Qed.

Lemma tight_last (s : jsstring) :
  tight s = true -> s ≠ [] -> exists s0 c, s = s0 ++ [c] /\ isWhiteSpace c = false.
Proof.
  induction s as [|c s IH]; [done|]. intros Htight _. simpl in Htight.
  apply andb_true_iff in Htight as [Hc Htight].
  destruct s as [|d s].
  - exists [], c. split; [done|]. by destruct (isWhiteSpace c).
  - destruct (IH Htight ltac:(done)) as (s0 & e & -> & He).
    by exists (c :: s0), e.
Qed.

Lemma splitLoop_tight (x s piece : jsstring) :
  tight x = true -> splitLoop gap (x ++ s) piece 0 = splitLoop gap s (piece ++ x) 0.
Proof.
  revert piece. induction x as [|c x IH]; intros piece Htight.
  - by rewrite app_nil_r.
  - simpl in Htight. apply andb_true_iff in Htight as [Hc Htight].
    change ((c :: x) ++ s) with (c :: (x ++ s)). cbn [splitLoop].
    assert (Hnone : forall R (k : jsstring -> captures -> option R),
               exec gap (c :: x ++ s) ∅ k = None).
    { intros R k. unfold gap. cbn [exec]. unfold ws at 1.
      destruct (isWhiteSpace c); [|done].
      destruct x as [|d x]; [done|]. cbn [app exec]. unfold ws at 1.
      by destruct (isWhiteSpace d). }
    rewrite Hnone, IH by done. by rewrite <- app_assoc.
Qed.

Lemma splitLoop_skip r (x s piece : jsstring) :
  splitLoop r (x ++ s) piece (length x) = splitLoop r s piece 0.
Proof. induction x as [|c x IH]; [done|]. exact IH. Qed.

Lemma splitLoop_gap (sep s piece : jsstring) :
  Forall (fun c => isWhiteSpace c = true) sep -> (2 <= length sep)%nat ->
  match s with d :: _ => isWhiteSpace d = false | [] => True end ->
  splitLoop gap (sep ++ s) piece 0 = piece :: splitLoop gap s [] 0.
Proof.
  intros Hsep Hlen Hs. destruct sep as [|d1 [|d2 sep]]; simpl in Hlen; [lia | lia |].
  apply Forall_cons in Hsep as [H1 Hsep]. apply Forall_cons in Hsep as [H2 Hsep].
  change ((d1 :: d2 :: sep) ++ s) with (d1 :: d2 :: (sep ++ s)). cbn [splitLoop].
  unfold gap at 1. cbn [exec]. unfold ws at 1 2. rewrite H1, H2.
  erewrite star_greedy_max; [| exact Hsep | exact Hs | reflexivity].
  replace (length (d1 :: d2 :: sep ++ s) - length s)%nat with (S (S (length sep)))
    by (cbn [length]; rewrite length_app; lia).
  f_equal. change (d2 :: sep ++ s) with ((d2 :: sep) ++ s).
  apply (splitLoop_skip gap (d2 :: sep) s []).
Qed.

Lemma split_meta (size sep date : jsstring) :
  metaField size -> metaField date ->
  Forall (fun c => isWhiteSpace c = true) sep -> (2 <= length sep)%nat ->
  split gap (size ++ sep ++ date) = [size; date].
Proof.
  intros ((c & size' & -> & Hc) & Hsize & _) ((d & date' & -> & Hd) & Hdate & _) Hsep Hlen.
  change (split gap ((c :: size') ++ sep ++ d :: date'))
    with (splitLoop gap ((c :: size') ++ sep ++ d :: date') [] 0).
  rewrite splitLoop_tight by done. rewrite splitLoop_gap by done.
  pose proof (splitLoop_tight (d :: date') [] [] Hdate) as Hend.
  rewrite app_nil_r in Hend. by rewrite Hend.
Qed.

Lemma removeFirstString_head (pattern rest : jsstring) :
  removeFirstString pattern (pattern ++ rest) = rest.
Proof.
  assert (H : startsWith (pattern ++ rest) pattern = true)
    by (apply startsWith_prefix; by exists rest).
  assert (Hunfold : forall s,
            removeFirstString pattern s
            = if startsWith s pattern then drop (length pattern) s
              else match s with [] => [] | c :: s' => c :: removeFirstString pattern s' end)
    by (by intros []).
  by rewrite Hunfold, H, drop_app_length.
Qed.

Lemma blank_ws (s : jsstring) : blank s -> Forall (fun c => isWhiteSpace c = true) s.
Proof. intros H. eapply Forall_impl; [exact H|]. by intros c [Hc _]. Qed.

Lemma parseLine_format (collection : jsstring) (r : FileRow) :
  Forall (fun c => isWhiteSpace c = false) collection ->
  wellFormedRow r ->
  parseLine collection (formatRow collection r) = Some (rowEntry collection r).
Proof.
  intros Hcoll. destruct r as [pad size sep1 date sep2 rel].
  unfold wellFormedRow, parseLine, formatRow, rowEntry.
  cbn [row_pad row_size row_sep1 row_date row_sep2 row_rel].
  intros (Hpad & Hsize & _ & Hsep1 & Hlen1 & Hdate & _ & Hsep2 & Hlen2 & Hrel).
  set (region := pad ++ size ++ sep1 ++ date ++ sep2).
  set (u := collection ++ lit "/" ++ rel).
  assert (Hline : pad ++ size ++ sep1 ++ date ++ sep2 ++ lit "qmd://" ++ u
                  = region ++ lit "qmd://" ++ u).
  { subst region. by rewrite <- !app_assoc. }
  rewrite Hline.
  assert (Hu : u ≠ [] /\ Forall (fun c => isWhiteSpace c = false) u).
  { subst u. split; [by destruct collection|].
    apply Forall_app. split; [done|]. apply Forall_app. split; [|done].
    by repeat constructor. }
  destruct Hu as [Hu0 Hu].
  assert (Hsearch : search uriInLine (region ++ lit "qmd://" ++ u)
                    = Some (mkMatch (length region) (lit "qmd://" ++ u)
                              (<[1%nat := lit "qmd://" ++ u]> ∅))).
  { unfold search. rewrite searchFrom_skip; [by apply searchFrom_uri|].
    intros p1 p2 s' caps' Hsplit Hp2.
    destruct (exists_last (l := sep2)) as (sep2' & w & Hw).
    { intros ->. simpl in Hlen2. lia. }
    assert (Hws : isWhiteSpace w = true).
    { apply blank_ws in Hsep2. rewrite Hw in Hsep2.
      apply Forall_app in Hsep2 as [_ Hsep2]. by apply Forall_cons in Hsep2 as [? _]. }
    apply (no_uri_before (pad ++ size ++ sep1 ++ date ++ sep2') w u p1 p2 s' caps');
      [|done| |done].
    - destruct Hsize as (_ & _ & Hs), Hdate as (_ & _ & Hd).
      assert (Hblank : forall b, blank b -> 47 ∉ b).
      { intros b Hb Hin. unfold blank in Hb. rewrite Forall_forall in Hb.
        by destruct (Hb _ Hin) as [Hb' _]. }
      rewrite Hw in Hsep2. apply Forall_app in Hsep2 as [Hsep2 _].
      rewrite !elem_of_app. intros [H|[H|[H|[H|H]]]];
        [by apply (Hblank pad) | done | by apply (Hblank sep1) | done
        | by apply (Hblank sep2')].
    - rewrite <- Hsplit. subst region. rewrite Hw. by rewrite <- !app_assoc. }
  rewrite Hsearch. unfold group. cbn [mbind option_bind groups index].
  rewrite lookup_insert_eq. cbn [default from_option id].
  rewrite take_app_length. subst u.
  replace (lit "qmd://" ++ collection ++ lit "/" ++ rel)
    with ((lit "qmd://" ++ collection ++ lit "/") ++ rel) at 2 by (by rewrite <- !app_assoc).
  rewrite removeFirstString_head.
  assert (Hmeta : trim region = size ++ sep1 ++ date).
  { subst region.
    destruct Hsize as ((c & size' & Hs & Hc) & _ & _).
    destruct Hdate as ((d & date' & Hd & Hd') & Htight & _).
    destruct (tight_last date Htight) as (date0 & e & He & He'); [by rewrite Hd|].
    replace (pad ++ size ++ sep1 ++ date ++ sep2)
      with (pad ++ (size ++ sep1 ++ date) ++ sep2) by (by rewrite <- !app_assoc).
    apply (trim_core pad _ sep2 c e (size' ++ sep1 ++ date));
      [by apply blank_ws | by apply blank_ws | by rewrite Hs | done | | done].
    exists (size ++ sep1 ++ date0). rewrite He. by rewrite <- !app_assoc. }
  rewrite Hmeta, split_meta by (done || by apply blank_ws).
  done.
Qed.

Lemma splitOn_line (l rest : jsstring) :
  (10 ∉ l) -> splitOn 10 (l ++ 10 :: rest) = l :: splitOn 10 rest.
Proof.
  induction l as [|d l IH]; intros Hl; [done|].
  apply not_elem_of_cons in Hl as [Hd Hl]. simpl.
  destruct (N.eqb_spec d 10) as [->|_]; [done|]. by rewrite IH.
Qed.

Lemma formatRow_line (collection : jsstring) (r : FileRow) :
  Forall (fun c => isWhiteSpace c = false) collection ->
  wellFormedRow r ->
  (10 ∉ formatRow collection r) /\ truthy (formatRow collection r) = true.
Proof.
  intros Hcoll (Hpad & Hsize & Hsize10 & Hsep1 & _ & Hdate & Hdate10 & Hsep2 & _ & Hrel).
  assert (Hblank : forall b, blank b -> 10 ∉ b).
  { intros b Hb Hin. unfold blank in Hb. rewrite Forall_forall in Hb.
    by destruct (Hb _ Hin) as [_ Hb']. }
  assert (Hnonws : forall b, Forall (fun c => isWhiteSpace c = false) b -> 10 ∉ b).
  { intros b Hb Hin. rewrite Forall_forall in Hb. by specialize (Hb _ Hin). }
  unfold formatRow. split.
  - rewrite !elem_of_app. intros [H|[H|[H|[H|[H|[H|[H|[H|H]]]]]]]].
    + by apply (Hblank (row_pad r)).
    + done.
    + by apply (Hblank (row_sep1 r)).
    + done.
    + by apply (Hblank (row_sep2 r)).
    + by apply (Hnonws (lit "qmd://")); [repeat constructor|].
    + by apply (Hnonws collection).
    + by apply (Hnonws (lit "/")); [repeat constructor|].
    + by apply (Hnonws (row_rel r)).
  - destruct Hsize as ((c & s' & -> & _) & _). by destruct (row_pad r).
Qed.

Lemma listing_lines (collection : jsstring) (rows : list FileRow) :
  Forall (fun c => isWhiteSpace c = false) collection ->
  Forall wellFormedRow rows ->
  List.filter truthy (splitOn 10 (r ← rows; formatRow collection r ++ [10]))
  = map (formatRow collection) rows.
Proof.
  intros Hcoll. induction 1 as [|r rows Hr _ IH]; [done|].
  destruct (formatRow_line collection r Hcoll Hr) as [Hlf Hne].
  rewrite bind_cons, <- app_assoc. change ([10] ++ ?x) with (10 :: x).
  rewrite splitOn_line by done. cbn [List.filter map]. by rewrite Hne, IH.
Qed.

(** X18. [listFiles] reads the output of [qmd ls] as the comment in it
    says.  When qmd exits with code 0 and every line of its output is a
    size and a date, with no slash and no two white spaces in a row, and an
    address of the collection, at least two white spaces apart, the entries
    are those of the lines, in order: the size, the date, the address and
    the path under the collection.  [FilesView.load] then empties the
    filter and lists them all, one option for each line. *)
Theorem listFiles_format (spawn : list jsstring -> Result Proc)
    (toLowerCase : jsstring -> jsstring)
    (collection errText : jsstring) (rows : list FileRow) (v : FilesView) :
  Forall (fun c => isWhiteSpace c = false) collection ->
  Forall wellFormedRow rows ->
  spawn [lit "qmd"; lit "ls"; collection]
  = Ok (mkProc (r ← rows; formatRow collection r ++ [10]) errText 0) ->
  listFiles spawn collection = Ok (map (rowEntry collection) rows)
  /\ (rows ≠ [] ->
      let v' := load spawn toLowerCase collection v in
      input_value v' = []
      /\ allFiles v' = map (rowEntry collection) rows
      /\ filesList_options v'
         = map (fun r => {| so_name := row_rel r;
                            so_description := row_size r ++ lit "  " ++ row_date r;
                            so_value := lit "qmd://" ++ collection ++ lit "/" ++ row_rel r |})
             rows
      /\ shownText (statusText v')
         = String_of_Z (Z.of_nat (length rows)) ++ lit " files").
Proof.
  intros Hcoll Hrows Hspawn.
  assert (Hlist : listFiles spawn collection = Ok (map (rowEntry collection) rows)).
  { unfold listFiles, QmdCli.run. rewrite Hspawn. cbn [stdout stderr exited]. simpl negb.
    cbv iota. f_equal. rewrite listing_lines by done. clear Hspawn.
    induction Hrows as [|r rows Hr _ IH]; [done|].
    cbn [map omap list_omap]. by rewrite parseLine_format, IH. }
  split; [done|]. intros Hne v'. subst v'. unfold load. rewrite Hlist.
  destruct rows as [|r rows]; [done|]. cbn [map length Nat.eqb].
  unfold applyFilter. cbn [input_value allFiles trim trimEnd trimStart rev truthy
                            filesList_options statusText].
  repeat split; try done.
  - cbn [map]. f_equal. rewrite map_map. done.
  - unfold shownText, fg. cbn [map text concat length]. by rewrite app_nil_r, length_map.
Qed.

End FilesLoadFacts.

Ltac listed_notin :=
  let H := fresh in
  intros H; repeat (apply elem_of_cons in H as [H|H]; [discriminate H|]);
  by apply elem_of_nil in H.

Lemma listFiles_format_witness :
  FilesLoad.listFiles
    (fun _ => Ok (mkProc (lit "3.2 KB  Sep 24 15:44  qmd://notes/a.md" ++ nlx) [] 0))
    (lit "notes")
  = Ok [Files.mkFileEntry (lit "3.2 KB") (lit "Sep 24 15:44") (lit "qmd://notes/a.md")
          (lit "a.md")].
Proof.
  apply (listFiles_format
           (fun _ => Ok (mkProc (lit "3.2 KB  Sep 24 15:44  qmd://notes/a.md" ++ nlx) [] 0))
           asciiLower (lit "notes") []
           [mkFileRow [] (lit "3.2 KB") (lit "  ") (lit "Sep 24 15:44") (lit "  ")
              (lit "a.md")]
           (Files.mkFilesView [] [] [] [])).
  - repeat constructor.
  - constructor; [|constructor]. unfold wellFormedRow, metaField, blank. cbn.
    split; [constructor|].
    split; [split; [by eexists _, _ | split; [reflexivity | listed_notin]]|].
    split; [listed_notin|].
    split; [repeat constructor; discriminate|]. split; [lia|].
    split; [split; [by eexists _, _ | split; [reflexivity | listed_notin]]|].
    split; [listed_notin|].
    split; [repeat constructor; discriminate|]. split; [lia|].
    repeat constructor.
  - reflexivity.
Defined.

(** ** app.ts: the collection that is removed or renamed *)

Section ManagementFacts.
Import App.
Variable number : Type.
Variable readText : jsstring -> Result jsstring.
Variable YAML_parse_config : jsstring -> Result (QmdCli.Unchecked QmdCli.QmdConfig).
Variable nullishMessage : string -> QmdCli.Nullish -> jsstring -> jsstring.
Variable path_join : list jsstring -> jsstring.
Variable XDG_CONFIG_HOME : option jsstring.
Variable HOME : jsstring.
Variable exists_ : jsstring -> bool.
Variable readdir : jsstring -> Result (list jsstring).
Variable toLowerCase : jsstring -> jsstring.
Variable dirname : jsstring -> jsstring.
Variable basename : jsstring -> jsstring.
Variable pickPort : gset Z -> Z.
Variable watchError : jsstring -> option Error.
Variable EDITOR : option jsstring.

Implicit Types (spawn : list jsstring -> Result Proc) (a : App number).

Local Abbreviation keypress spawn :=
  (App.keypress (number := number) spawn path_join exists_ readdir toLowerCase dirname
     basename pickPort watchError EDITOR).
Local Abbreviation refreshCollections spawn :=
  (App.refreshCollections (number := number) spawn readText YAML_parse_config nullishMessage
     path_join XDG_CONFIG_HOME HOME).
Local Abbreviation deleteOnConfirm spawn :=
  (App.deleteOnConfirm (number := number) spawn readText YAML_parse_config nullishMessage
     path_join XDG_CONFIG_HOME HOME).
Local Abbreviation renameOnComplete spawn :=
  (App.renameOnComplete (number := number) spawn readText YAML_parse_config nullishMessage
     path_join XDG_CONFIG_HOME HOME).

(** Where a letter typed with the sidebar focused reaches the shortcuts of
    the collections. *)
Lemma keypress_shortcut spawn key a :
  isManagement (state (nav a)) = false ->
  (state (nav a) = st_search -> isFocused search_input (renderer a) = false) ->
  focusArea (nav a) = sidebar ->
  (key_name key = lit "d" -> keypress spawn key a = handled (enterDeleteCollection a))
  /\ (key_name key = lit "r" -> keypress spawn key a = handled (enterRenameCollection a)).
Proof.
  intros Hman Hsearch Hfocus. unfold App.keypress, named.
  rewrite Hman, Hfocus.
  split; intros ->; destruct (state (nav a)) eqn:Hst; try done;
    by rewrite Hsearch.
Qed.

Lemma switchMainView_views target a : views (switchMainView target a) = views a.
Proof. unfold switchMainView. by destruct (bool_decide _), target. Qed.

Lemma refreshCollections_processes spawn spawn' a :
  spawn [lit "qmd"; lit "collection"; lit "list"]
  = spawn' [lit "qmd"; lit "collection"; lit "list"] ->
  refreshCollections spawn a = refreshCollections spawn' a.
Proof.
  intros Hlist. unfold App.refreshCollections, QmdCli.listCollections, QmdCli.run.
  by rewrite Hlist.
Qed.

(** X19. The collection that is removed is the one that was selected when
    [d] was typed.  With a collection selected in the sidebar, the key leads
    to the confirmation, which names it; choosing [yes] there asks for the
    removal of that name, any other choice cancels.  The removal starts
    [qmd collection remove] with the name and, when that succeeds,
    [qmd collection list], and no other process.  With "All" selected the
    key does nothing. *)
Theorem delete_selected_collection spawn spawn' key (value : jsstring) a :
  isManagement (state (nav a)) = false ->
  (state (nav a) = st_search -> isFocused search_input (renderer a) = false) ->
  focusArea (nav a) = sidebar ->
  key_name key = lit "d" ->
  let a' := app (keypress spawn key a) in
  match CollectionsView.getSelectedCollection (collectionsView (views a)) with
  | None => a' = a
  | Some c =>
      state (nav a') = st_delete_collection
      /\ mainPanel_child (nav a') = st_delete_collection
      /\ focusedWidget (renderer a') = Some confirm_delete_select
      /\ shownText (ConfirmDeleteView.messageText (confirmDeleteView (views a')))
         = lit "Delete collection " ++ [34] ++ QmdCli.name c ++ [34] ++ lit "?"
      /\ ConfirmDeleteView.onItemSelected value (confirmDeleteView (views a'))
         = (if bool_decide (value = lit "yes")
            then ConfirmDeleteView.onConfirm (QmdCli.name c)
            else ConfirmDeleteView.onCancel)
      /\ (spawn [lit "qmd"; lit "collection"; lit "remove"; QmdCli.name c]
          = spawn' [lit "qmd"; lit "collection"; lit "remove"; QmdCli.name c] ->
          spawn [lit "qmd"; lit "collection"; lit "list"]
          = spawn' [lit "qmd"; lit "collection"; lit "list"] ->
          deleteOnConfirm spawn (QmdCli.name c) a'
          = deleteOnConfirm spawn' (QmdCli.name c) a')
  end.
Proof.
  intros Hman Hsearch Hfocus Hkey a'. subst a'.
  rewrite (proj1 (keypress_shortcut spawn key a Hman Hsearch Hfocus) Hkey).
  cbn [app handled]. unfold enterDeleteCollection.
  destruct (CollectionsView.getSelectedCollection _) as [c|]; [|done].
  split; [by unfold switchMainView; case_match|].
  split; [by unfold switchMainView; case_match|].
  split; [done|].
  split.
  { unfold switchMainView. case_match; cbn [views set_renderer set_title set_child
      set_state set_previousState set_nav set_confirmDeleteView set_views
      confirmDeleteView ConfirmDeleteView.show ConfirmDeleteView.messageText];
      unfold shownText, plain, boldfg;
      change (truthy (lit "Delete collection ")) with true;
      change (truthy (lit "?")) with true;
      cbn [List.app map concat text]; by rewrite <- ?app_assoc, ?app_nil_r. }
  split.
  { unfold switchMainView. by case_match. }
  intros Hremove Hlist. unfold App.deleteOnConfirm, QmdCli.removeCollection, QmdCli.run.
  rewrite Hremove. destruct (spawn' _) as [proc|e]; [|done].
  destruct (negb _); [done|]. by rewrite (refreshCollections_processes spawn spawn').
Qed.

(** X20. The collection that is renamed is the one that was selected when
    [r] was typed.  With a collection selected in the sidebar, the key leads
    to the form, empty, with the input focused; whatever is typed there, a
    name that is not blank is submitted, trimmed, with the name of that
    collection as the old one.  The renaming starts [qmd collection rename]
    with the two names and, when that succeeds, [qmd collection list], and no
    other process.  With "All" selected the key does nothing. *)
Theorem rename_selected_collection spawn spawn' key (typed : jsstring) a :
  isManagement (state (nav a)) = false ->
  (state (nav a) = st_search -> isFocused search_input (renderer a) = false) ->
  focusArea (nav a) = sidebar ->
  key_name key = lit "r" ->
  let a' := app (keypress spawn key a) in
  match CollectionsView.getSelectedCollection (collectionsView (views a)) with
  | None => a' = a
  | Some c =>
      let form := renameCollectionView (views a') in
      let filled :=
        RenameCollectionView.mk (RenameCollectionView.currentNameText form) typed
          (RenameCollectionView.statusText form)
          (RenameCollectionView.currentCollection form) in
      state (nav a') = st_rename_collection
      /\ mainPanel_child (nav a') = st_rename_collection
      /\ focusedWidget (renderer a') = Some rename_new_input
      /\ RenameCollectionView.newNameInput form = []
      /\ RenameCollectionView.statusText form = []
      /\ (trim typed ≠ [] ->
          (RenameCollectionView.submit filled).2 = Some (QmdCli.name c, trim typed))
      /\ (spawn [lit "qmd"; lit "collection"; lit "rename"; QmdCli.name c; trim typed]
          = spawn' [lit "qmd"; lit "collection"; lit "rename"; QmdCli.name c; trim typed] ->
          spawn [lit "qmd"; lit "collection"; lit "list"]
          = spawn' [lit "qmd"; lit "collection"; lit "list"] ->
          renameOnComplete spawn (QmdCli.name c) (trim typed) a'
          = renameOnComplete spawn' (QmdCli.name c) (trim typed) a')
  end.
Proof.
  intros Hman Hsearch Hfocus Hkey a'. subst a'.
  rewrite (proj2 (keypress_shortcut spawn key a Hman Hsearch Hfocus) Hkey).
  cbn [app handled]. unfold enterRenameCollection.
  destruct (CollectionsView.getSelectedCollection _) as [c|]; [|done].
  cbv zeta.
  do 5 (split; [by unfold switchMainView; case_match|]).
  split.
  { intros Htyped. unfold RenameCollectionView.submit.
    cbn [RenameCollectionView.newNameInput RenameCollectionView.currentCollection
         views set_renderer]. apply truthy_true in Htyped.
    rewrite Htyped, switchMainView_views. done. }
  intros Hrename Hlist. unfold App.renameOnComplete, QmdCli.renameCollection, QmdCli.run.
  rewrite Hrename. destruct (spawn' _) as [proc|e]; [|done].
  destruct (negb _); [done|]. by rewrite (refreshCollections_processes spawn spawn').
Qed.

End ManagementFacts.

Lemma delete_selected_collection_witness :
  let cv := CollectionsView.mk [Sample.notes]
              (CollectionsView.options (CollectionsView.update [Sample.notes]
                                          CollectionsView.initial)) 1 in
  let a : App.App unit := App.set_collectionsView cv (App.set_collections [Sample.notes] App.new) in
  let a' :=
    App.app
      (App.keypress Sample.spawn Sample.path_join Sample.exists_ Sample.readdir asciiLower
         Sample.dirname Sample.basename Sample.pickPort Sample.watchError None
         (App.mkKey (lit "d") false false) a) in
  App.state (App.nav a') = App.st_delete_collection
  /\ ConfirmDeleteView.onItemSelected (lit "yes") (App.confirmDeleteView (App.views a'))
     = ConfirmDeleteView.onConfirm (lit "notes").
Proof.
  intros cv a a'.
  pose proof (delete_selected_collection unit Sample.noFile Sample.noConfig Sample.nullishMessage
                Sample.path_join None (lit "/home/u") Sample.exists_ Sample.readdir
                asciiLower Sample.dirname Sample.basename Sample.pickPort
                Sample.watchError None Sample.spawn Sample.spawn
                (App.mkKey (lit "d") false false) (lit "yes") a) as H.
  destruct H as (H1 & _ & _ & _ & H5 & _);
    [reflexivity | discriminate | reflexivity | reflexivity |].
  split; [exact H1 | exact H5].
Defined.

Lemma rename_selected_collection_witness :
  let cv := CollectionsView.mk [Sample.notes]
              (CollectionsView.options (CollectionsView.update [Sample.notes]
                                          CollectionsView.initial)) 1 in
  let a : App.App unit := App.set_collectionsView cv (App.set_collections [Sample.notes] App.new) in
  let a' :=
    App.app
      (App.keypress Sample.spawn Sample.path_join Sample.exists_ Sample.readdir asciiLower
         Sample.dirname Sample.basename Sample.pickPort Sample.watchError None
         (App.mkKey (lit "r") false false) a) in
  App.state (App.nav a') = App.st_rename_collection
  /\ (RenameCollectionView.submit
        (RenameCollectionView.mk
           (RenameCollectionView.currentNameText (App.renameCollectionView (App.views a')))
           (lit " journal ")
           (RenameCollectionView.statusText (App.renameCollectionView (App.views a')))
           (RenameCollectionView.currentCollection
              (App.renameCollectionView (App.views a'))))).2
     = Some (lit "notes", lit "journal").
Proof.
  intros cv a a'.
  pose proof (rename_selected_collection unit Sample.noFile Sample.noConfig Sample.nullishMessage
                Sample.path_join None (lit "/home/u") Sample.exists_ Sample.readdir
                asciiLower Sample.dirname Sample.basename Sample.pickPort
                Sample.watchError None Sample.spawn Sample.spawn
                (App.mkKey (lit "r") false false) (lit " journal ") a) as H.
  destruct H as (H1 & _ & _ & _ & _ & H6 & _);
    [reflexivity | discriminate | reflexivity | reflexivity |].
  split; [exact H1 | apply H6; discriminate].
Defined.

(** ** app.ts: the keys in the forms and in the search input *)

Section FormKeys.
Import App.
Variable number : Type.
Variable spawn : list jsstring -> Result Proc.
Variable path_join : list jsstring -> jsstring.
Variable exists_ : jsstring -> bool.
Variable readdir : jsstring -> Result (list jsstring).
Variable toLowerCase : jsstring -> jsstring.
Variable dirname : jsstring -> jsstring.
Variable basename : jsstring -> jsstring.
Variable pickPort : gset Z -> Z.
Variable watchError : jsstring -> option Error.
Variable EDITOR : option jsstring.

Local Abbreviation keypress :=
  (App.keypress (number := number) spawn path_join exists_ readdir toLowerCase dirname
     basename pickPort watchError EDITOR).

Implicit Types (a : App number).

Lemma keypress_escape_management key a :
  key_name key = lit "escape" -> isManagement (state (nav a)) = true ->
  keypress key a
  = (if bool_decide (state (nav a) = st_add_collection)
        && AddCollectionView.completionVisible (addCollectionView (views a))
     then handled (set_addCollectionView
                     (AddCollectionView.hideCompletions (addCollectionView (views a)))
                     (set_renderer (focus add_path_input (renderer a)) a))
     else handled (leaveManagement a)).
Proof.
  intros Hname Hman. unfold App.keypress, named. rewrite Hname, Hman.
  destruct (state (nav a)) eqn:Hst; try done; cbn [bool_decide decide_rel andb];
    unfold AddCollectionView.handleEscape;
    try destruct (AddCollectionView.completionVisible _); try reflexivity;
    by destruct a as [? ? ? [] ? ?].
Qed.

(** X21. Escape in a form.  In the add form with the list of completions
    open, Escape closes the list, empties it, gives the focus back to the
    path and leaves what was typed as it is; the form stays.  Escape in a
    form without such a list leads to the detail view with the sidebar
    focused: so two Escapes, at most, leave the add form. *)
Theorem escape_in_forms key a :
  key_name key = lit "escape" ->
  isManagement (state (nav a)) = true ->
  let a1 := app (keypress key a) in
  let a2 := app (keypress key a1) in
  let form := addCollectionView (views a) in
  let form1 := addCollectionView (views a1) in
  (state (nav a) = st_add_collection ->
   AddCollectionView.completionVisible form = true ->
   state (nav a1) = st_add_collection
   /\ mainPanel_child (nav a1) = mainPanel_child (nav a)
   /\ focusedWidget (renderer a1) = Some add_path_input
   /\ AddCollectionView.completionVisible form1 = false
   /\ AddCollectionView.completionOptions form1 = []
   /\ AddCollectionView.pathInput form1 = AddCollectionView.pathInput form
   /\ AddCollectionView.nameInput form1 = AddCollectionView.nameInput form
   /\ AddCollectionView.patternInput form1 = AddCollectionView.patternInput form
   /\ state (nav a2) = st_detail)
  /\ (state (nav a) ≠ st_add_collection
      \/ AddCollectionView.completionVisible form = false ->
      state (nav a1) = st_detail
      /\ mainPanel_child (nav a1) = st_detail
      /\ mainPanel_title (nav a1) = lit "Collection"
      /\ focusArea (nav a1) = sidebar
      /\ focusedWidget (renderer a1) = Some collections_select).
Proof.
  intros Hname Hman a1 a2 form form1.
  assert (Hleave : forall b : App number, state (nav (leaveManagement b)) = st_detail
                             /\ mainPanel_child (nav (leaveManagement b)) = st_detail
                             /\ mainPanel_title (nav (leaveManagement b)) = lit "Collection"
                             /\ focusArea (nav (leaveManagement b)) = sidebar
                             /\ focusedWidget (renderer (leaveManagement b))
                                = Some collections_select).
  { intros b. unfold leaveManagement, showSelected, switchMainView.
    by repeat case_match. }
  split.
  - intros Hst Hvisible. subst a2 form1 a1 form.
    rewrite (keypress_escape_management key a Hname Hman), Hst, Hvisible.
    rewrite bool_decide_eq_true_2 by done. cbn [andb app handled].
    assert (Hform : AddCollectionView.hideCompletions (addCollectionView (views a))
                    = AddCollectionView.mk
                        (AddCollectionView.pathInput (addCollectionView (views a)))
                        (AddCollectionView.nameInput (addCollectionView (views a)))
                        (AddCollectionView.patternInput (addCollectionView (views a)))
                        [] (AddCollectionView.focusedField (addCollectionView (views a)))
                        false
                        (AddCollectionView.completionDir (addCollectionView (views a))) []).
    { unfold AddCollectionView.hideCompletions. by rewrite Hvisible. }
    rewrite Hform.
    set (b := set_addCollectionView _ _).
    assert (Hb : state (nav b) = st_add_collection) by exact Hst.
    do 8 (split; [done|]).
    rewrite (keypress_escape_management key b Hname) by (by rewrite Hb).
    replace (AddCollectionView.completionVisible (addCollectionView (views b)))
      with false by done.
    rewrite andb_false_r. apply Hleave.
  - intros Hnot. subst a1 form.
    rewrite (keypress_escape_management key a Hname Hman).
    destruct (bool_decide _ && _) eqn:Hboth; [|apply Hleave].
    apply andb_true_iff in Hboth as [Hst Hvisible]. apply bool_decide_eq_true in Hst.
    destruct Hnot as [Hnot | Hnot]; [done | congruence].
Qed.

(** X22. What is typed goes to the inputs.  In a form, a key other than
    Escape, and other than Tab in the add form, is left to the view: the
    application does not change and the default is not prevented.  The same
    holds in the search view with the input focused, for a key other than
    Escape, Tab and Ctrl+T.  In particular [q] typed there does not end the
    application. *)
Theorem typing_reaches_inputs key a :
  key_name key ≠ lit "escape" ->
  isManagement (state (nav a)) = true
  /\ (key_name key = lit "tab" -> state (nav a) ≠ st_add_collection)
  \/ state (nav a) = st_search
     /\ isFocused search_input (renderer a) = true
     /\ key_name key ≠ lit "tab"
     /\ (key_name key = lit "t" -> ctrl key = false) ->
  keypress key a = passed a
  /\ destroyed (renderer (app (keypress key a))) = destroyed (renderer a).
Proof.
  intros Hesc Hwhere.
  assert (Hpassed : keypress key a = passed a); [|by rewrite Hpassed].
  unfold App.keypress, named.
  rewrite (bool_decide_eq_false_2 (key_name key = lit "escape")) by done.
  destruct Hwhere as [[Hman Htab] | (Hst & Hfocus & Htab & Hctrl)].
  - rewrite Hman.
    destruct (state (nav a)) eqn:Hst; try done;
      rewrite !(bool_decide_eq_false_2 (_ = st_search)) by done; cbn [andb].
    + rewrite (bool_decide_eq_false_2 (key_name key = lit "tab")); [done|].
      intros Hname. by apply Htab.
    + rewrite (bool_decide_eq_false_2 (_ = st_add_collection)) by done.
      by rewrite andb_false_r.
    + rewrite (bool_decide_eq_false_2 (_ = st_add_collection)) by done.
      by rewrite andb_false_r.
  - rewrite Hst, Hfocus. rewrite !(bool_decide_eq_true_2 (st_search = st_search)) by done.
    cbn [andb].
    rewrite (bool_decide_eq_false_2 (key_name key = lit "tab")) by done.
    destruct (decide (key_name key = lit "t")) as [Ht|Ht].
    + by rewrite (Hctrl Ht), andb_false_r.
    + by rewrite bool_decide_eq_false_2.
Qed.

End FormKeys.

Lemma escape_in_forms_witness :
  let form :=
    AddCollectionView.mk (lit "~/do") [] [] [] 0 true (lit "~/")
      [Files.mkSelectOption (lit "docs/") (lit "dir") (lit "~/docs/")] in
  let a : App.App unit :=
    App.set_addCollectionView form (App.enterAddCollection App.new) in
  let esc :=
    App.keypress Sample.spawn Sample.path_join Sample.exists_ Sample.readdir asciiLower
      Sample.dirname Sample.basename Sample.pickPort Sample.watchError None
      (App.mkKey (lit "escape") false false) in
  App.state (App.nav (App.app (esc a))) = App.st_add_collection
  /\ AddCollectionView.pathInput (App.addCollectionView (App.views (App.app (esc a))))
     = lit "~/do"
  /\ App.state (App.nav (App.app (esc (App.app (esc a))))) = App.st_detail.
Proof.
  intros form a esc.
  destruct (escape_in_forms unit Sample.spawn Sample.path_join Sample.exists_
              Sample.readdir asciiLower Sample.dirname Sample.basename Sample.pickPort
              Sample.watchError None (App.mkKey (lit "escape") false false) a)
    as [H _]; [reflexivity | reflexivity |].
  destruct H as (H1 & _ & _ & _ & _ & H6 & _ & _ & H9); [reflexivity | reflexivity |].
  split; [exact H1|]. split; [exact H6 | exact H9].
Defined.

Lemma typing_reaches_inputs_witness :
  App.keypress Sample.spawn Sample.path_join Sample.exists_ Sample.readdir asciiLower
    Sample.dirname Sample.basename Sample.pickPort Sample.watchError None
    (App.mkKey (lit "q") false false) Sample.deleting
  = App.passed Sample.deleting.
Proof.
  apply (typing_reaches_inputs unit Sample.spawn Sample.path_join Sample.exists_
           Sample.readdir asciiLower Sample.dirname Sample.basename Sample.pickPort
           Sample.watchError None (App.mkKey (lit "q") false false) Sample.deleting).
  - discriminate.
  - left. split; [reflexivity | discriminate].
Defined.

(** ** The document that is opened *)

Section DocumentFacts.
Import App.
Variable number : Type.
Variable yaml : Frontmatter.Yaml.
Variable JSON_parse : jsstring -> Result (list (Mcp.SearchResult number)).

Implicit Types (spawn : list jsstring -> Result Proc) (a : App number).


End DocumentFacts.


(** ** mcp-client.ts: the status *)

Section StatusFacts.
Import Regex.

Lemma searchFrom_suffix r (s : jsstring) (idx : nat) (m : MatchResult) :
  searchFrom r s idx = Some m ->
  exists pre s0 s' caps',
    s = pre ++ s0 /\ Matches r s0 ∅ s' caps' /\ groups m = caps'.
Proof.
  revert idx. induction s as [|c s IH]; intros idx; rewrite searchFrom_unfold.
  - destruct (exec r [] ∅ _) eqn:H; [|done]. intros [= <-].
    apply exec_sound in H as (s' & caps' & HM & [= <-]). by exists [], [], s', caps'.
  - destruct (exec r (c :: s) ∅ _) eqn:H.
    + intros [= <-]. apply exec_sound in H as (s' & caps' & HM & [= <-]).
      by exists [], (c :: s), s', caps'.
    + intros Hm. apply IH in Hm as (pre & s0 & s' & caps' & -> & HM & Hg).
      by exists (c :: pre), s0, s', caps'.
Qed.

Lemma count_found (label : string) (output digits : jsstring) :
  group 1 (search (Mcp.countPattern label) output) = Some digits ->
  (exists pre post, output = pre ++ lit label ++ post)
  /\ digits ≠ [] /\ Forall (fun c => digit c = true) digits.
Proof.
  unfold group, search.
  destruct (searchFrom (Mcp.countPattern label) output 0) as [m|] eqn:Hm; [|done].
  simpl. apply searchFrom_suffix in Hm as (pre & s0 & s' & caps' & -> & HM & ->).
  unfold Mcp.countPattern in HM. cbn [Seqs] in HM.
  apply Matches_Seq_inv in HM as (s1 & c1 & Hlit & HM).
  apply Matches_Seq_inv in HM as (s2 & c2 & Hws & HM).
  apply Matches_Seq_inv in HM as (s3 & c3 & Hd & HM).
  apply Matches_Eps_inv in HM as [-> ->].
  apply Matches_Group_inv in Hd as (c3' & Hd & ->).
  apply Matches_Plus_inv in Hd as (ds & -> & Hd0 & Hd & ->).
  apply Matches_Str_inv in Hlit as [-> ->].
  rewrite take_prefix, lookup_insert_eq. intros [= <-].
  split; [by eexists _, _ | done].
Qed.

Lemma count_default (label : string) (output : jsstring) :
  (forall pre post, output ≠ pre ++ lit label ++ post) ->
  QmdCli.parseInt10
    (default (lit "0") (group 1 (search (Mcp.countPattern label) output))) = 0.
Proof.
  intros Hno.
  destruct (group 1 (search (Mcp.countPattern label) output)) as [digits|] eqn:Hg;
    [|reflexivity].
  apply count_found in Hg as ((pre & post & ->) & _). by destruct (Hno pre post).
Qed.

Lemma statusHeader_name (block : jsstring) (m : MatchResult) :
  matchStart Mcp.statusHeader block = Some m ->
  exists name, groups m !! 1%nat = Some name
               /\ name ≠ [] /\ Forall (fun c => isWhiteSpace c = false) name.
Proof.
  unfold matchStart. intros H.
  apply exec_sound in H as (s' & caps' & HM & [= <-]).
  unfold Mcp.statusHeader in HM. cbn [Seqs] in HM.
  apply Matches_Seq_inv in HM as (s0 & c0 & Hindent & HM).
  apply Matches_Seq_inv in HM as (s1 & c1 & Hname & HM).
  apply Matches_Seq_inv in HM as (s2 & c2 & Hws & HM).
  apply Matches_Seq_inv in HM as (s3 & c3 & Hlit & HM).
  apply Matches_Seq_inv in HM as (s4 & c4 & Hu & HM).
  apply Matches_Seq_inv in HM as (s5 & c5 & Hslash & HM).
  apply Matches_Seq_inv in HM as (s6 & c6 & Hparen & HM).
  apply Matches_Eps_inv in HM as [-> ->].
  apply Matches_Chr_inv in Hparen as [-> ->].
  assert (c5 = c4) as ->.
  { apply Matches_Opt_inv in Hslash as [Hslash|[_ ->]]; [|done].
    by apply Matches_Chr_inv in Hslash as [_ ->]. }
  apply Matches_Plus_inv in Hindent as (indent & -> & _ & _ & ->).
  apply Matches_Group_inv in Hname as (c1' & Hname & ->).
  apply Matches_Plus_inv in Hname as (name & -> & Hname0 & Hname & ->).
  apply Matches_Plus_inv in Hws as (w & -> & _ & _ & ->).
  apply Matches_Str_inv in Hlit as [-> ->].
  apply Matches_Group_inv in Hu as (c4' & Hu & ->).
  apply Matches_Plus_inv in Hu as (u & -> & _ & _ & ->).
  exists name. cbn [groups]. rewrite !take_prefix.
  split; [by rewrite lookup_insert_ne, lookup_insert_eq|].
  split; [done | by apply Forall_nonws].
Qed.

Lemma parseStatus_fold (Q : Mcp.StatusCollection -> Prop) (blocks : list jsstring) acc :
  (forall acc' block, Forall Q acc' -> Forall Q (Mcp.parseStatus_step acc' block)) ->
  Forall Q acc ->
  Forall Q (fold_left Mcp.parseStatus_step blocks acc)
  /\ (length (fold_left Mcp.parseStatus_step blocks acc)
      <= length acc + length blocks)%nat.
Proof.
  intros Hstep. revert acc. induction blocks as [|b blocks IH]; intros acc Hacc.
  - split; [done | simpl; lia].
  - destruct (IH (Mcp.parseStatus_step acc b) (Hstep _ _ Hacc)) as [H1 H2].
    split; [exact H1|]. cbn [fold_left length]. etrans; [exact H2|].
    unfold Mcp.parseStatus_step. destruct (matchStart _ b); [|lia].
    rewrite length_app. simpl. lia.
Qed.

(** X24. For [parseStatus], a number whose label the text does not have
    counts as 0: without [Pending:] nothing needs embedding, and
    without [Vectors:] there is no vector index; when nothing needs
    embedding or there is a vector index, the check that [performSearch]
    makes before a vector search or a query lets it go on.  The collections
    are at most one for each block of the text; each has a name that is not
    empty and has no white space, and its name as its path. *)
Theorem parseStatus_defaults (output : jsstring) :
  let st := Mcp.parseStatus output in
  ((forall pre post, output ≠ pre ++ lit "Total:" ++ post) -> Mcp.totalDocuments st = 0)
  /\ ((forall pre post, output ≠ pre ++ lit "Pending:" ++ post) -> Mcp.needsEmbedding st = 0)
  /\ ((forall pre post, output ≠ pre ++ lit "Vectors:" ++ post) ->
      Mcp.hasVectorIndex st = false)
  /\ (Mcp.needsEmbedding st = 0 \/ Mcp.hasVectorIndex st = true ->
      (0 <? Mcp.needsEmbedding st) && negb (Mcp.hasVectorIndex st) = false)
  /\ Forall (fun c => Mcp.sc_path c = Mcp.sc_name c
                      /\ Mcp.sc_name c ≠ []
                      /\ Forall (fun d => isWhiteSpace d = false) (Mcp.sc_name c))
       (Mcp.st_collections st)
  /\ (length (Mcp.st_collections st)
      <= length (split Mcp.statusSeparator output))%nat.
Proof.
  intros st. subst st. unfold Mcp.parseStatus.
  cbn [Mcp.totalDocuments Mcp.needsEmbedding Mcp.hasVectorIndex Mcp.st_collections].
  split; [apply count_default|]. split; [apply count_default|].
  split; [by intros H; rewrite count_default|].
  split.
  { intros [-> | ->]; [done | apply andb_false_r]. }
  apply (parseStatus_fold _ _ []); [|constructor].
  intros acc block Hacc. unfold Mcp.parseStatus_step.
  destruct (matchStart Mcp.statusHeader block) as [m|] eqn:Hm; [|done].
  apply Forall_app. split; [done|]. constructor; [|constructor].
  apply statusHeader_name in Hm as (name & Hname & Hne & Hnonws).
  unfold group. cbn [mbind option_bind Mcp.sc_path Mcp.sc_name]. rewrite Hname.
  cbn [default from_option id]. done.
Qed.

End StatusFacts.

Lemma parseStatus_defaults_witness :
  Mcp.needsEmbedding (Mcp.parseStatus (lit "n/a")) = 0
  /\ Mcp.hasVectorIndex (Mcp.parseStatus (lit "n/a")) = false.
Proof.
  destruct (parseStatus_defaults (lit "n/a")) as (_ & H2 & H3 & _).
  split; [apply H2 | apply H3]; intros pre post Heq;
    apply (f_equal length) in Heq; rewrite !length_app in Heq; simpl in Heq; lia.
Defined.

(** ** qmd-cli.ts: the address of a listed file *)

Section ResolveMore.
Import Regex.
Variable path_join : list jsstring -> jsstring.
Variable exists_ : jsstring -> bool.
Variable readdir : jsstring -> Result (list jsstring).
Variable toLowerCase : jsstring -> jsstring.

Local Abbreviation resolveQmdUri :=
  (QmdCli.resolveQmdUri path_join exists_ readdir toLowerCase).
Local Abbreviation resolveCaseInsensitive :=
  (QmdCli.resolveCaseInsensitive path_join readdir toLowerCase).

Lemma uriPattern_exact (name rel : jsstring) :
  name ≠ [] -> (47 ∉ name) ->
  rel ≠ [] -> Forall (fun c => isLineTerminator c = false) rel ->
  matchStart QmdCli.uriPattern (lit "qmd://" ++ name ++ lit "/" ++ rel)
  = Some (mkMatch 0 (lit "qmd://" ++ name ++ lit "/" ++ rel)
            (<[2%nat := rel]> (<[1%nat := name]> ∅))).
Proof.
  intros Hname Hslash Hrel Hdot.
  unfold matchStart, QmdCli.uriPattern. cbn [Seqs exec]. rewrite exec_Str.
  destruct name as [|c name]; [done|]. apply not_elem_of_cons in Hslash as [Hc Hslash].
  destruct rel as [|d rel]; [done|]. apply Forall_cons in Hdot as [Hd Hdot].
  change ((c :: name) ++ lit "/" ++ d :: rel) with (c :: name ++ 47 :: d :: rel).
  cbv iota beta.
  assert (Hp : forall e, e ≠ 47 -> negb (e =? 47) = true).
  { intros e He. by destruct (N.eqb_spec e 47). }
  rewrite (Hp c) by done.
  erewrite star_greedy_max; [| | done |].
  2:{ apply Forall_forall. intros e He. apply Hp. by intros ->. }
  2:{ cbv iota beta. rewrite N.eqb_refl. unfold dot at 1. rewrite Hd. cbn [negb].
      rewrite <- (app_nil_r rel) at 1.
      apply star_greedy_max; [|done|reflexivity].
      eapply Forall_impl; [exact Hdot|]. intros e He. unfold dot. by rewrite He. }
  cbn [length]. rewrite !Nat.sub_0_r, !firstn_all.
  change (S (length rel)) with (length (d :: rel)) at 1. rewrite firstn_all.
  change (S (length (name ++ 47 :: d :: rel)))
    with (length ((c :: name) ++ 47 :: d :: rel)).
  change (S (S (length rel))) with (length (47 :: d :: rel)).
  by rewrite take_prefix.
Qed.

(** X25. The address of a file resolves to the file.  For an address
    [qmd://name/relative], with a name without a slash and a relative path
    on one line, both not empty, [resolveQmdUri] looks at the first
    collection of that name: without such a collection, or when it has no
    path, there is no file; otherwise the file is the relative path under
    the path of the collection when it exists, and what
    [resolveCaseInsensitive] finds when it does not.  An address that does
    not begin with [qmd://] resolves to nothing. *)
Theorem resolveQmdUri_exact (uri name rel : jsstring) (cols : list QmdCli.Collection) :
  ((forall rest, uri ≠ lit "qmd://" ++ rest) -> resolveQmdUri uri cols = None)
  /\ (name ≠ [] -> (47 ∉ name) ->
      rel ≠ [] -> Forall (fun c => isLineTerminator c = false) rel ->
      resolveQmdUri (lit "qmd://" ++ name ++ lit "/" ++ rel) cols
      = match List.find (fun c => bool_decide (QmdCli.name c = name)) cols with
        | None => None
        | Some col =>
            if negb (truthy (QmdCli.path col)) then None
            else if exists_ (path_join [QmdCli.path col; rel])
                 then Some (path_join [QmdCli.path col; rel])
                 else resolveCaseInsensitive (QmdCli.path col) rel
        end).
Proof.
  split.
  - intros Hno. unfold QmdCli.resolveQmdUri.
    destruct (matchStart QmdCli.uriPattern _) as [m|] eqn:Hm; [|done].
    apply uriPattern_sound in Hm as (coll & rel' & _ & _ & Heq & _).
    by destruct (Hno (coll ++ lit "/" ++ rel')).
  - intros Hname Hslash Hrel Hdot. unfold QmdCli.resolveQmdUri.
    rewrite uriPattern_exact by done. unfold group.
    cbn [mbind option_bind groups].
    rewrite lookup_insert_ne, !lookup_insert_eq by done.
    cbn [default from_option id]. reflexivity.
Qed.

End ResolveMore.

Lemma resolveQmdUri_exact_witness :
  QmdCli.resolveQmdUri Sample.path_join Sample.exists_ Sample.readdir asciiLower
    (lit "qmd://notes/a.md") [Sample.notes]
  = Some (lit "/docs/a.md").
Proof.
  destruct (resolveQmdUri_exact Sample.path_join Sample.exists_ Sample.readdir asciiLower
              [] (lit "notes") (lit "a.md") [Sample.notes]) as [_ H].
  change (lit "qmd://notes/a.md") with (lit "qmd://" ++ lit "notes" ++ lit "/" ++ lit "a.md").
  rewrite H; [reflexivity | discriminate | listed_notin | discriminate |].
  repeat constructor.
Defined.

(** ** qmd-cli.ts: the records, field by field *)

Section RecordsFacts.
Import Regex.

(** *** Which repetition the matcher settles on *)






(** *** The leftmost match *)



(** *** A label, white space and a value *)

Local Abbreviation labelled label p :=
  (Seqs [Str label; Plus true ws; Group 1 (Plus true p)]).







Lemma matches_follows (label : jsstring) (p : N -> bool) (s0 s' : jsstring) caps' :
  Matches (labelled label p) s0 ∅ s' caps' ->
  exists rest, s0 = label ++ rest /\ follows p rest.
Proof.
  cbn [Seqs]. intros HM.
  apply Matches_Seq_inv in HM as (s1 & c1 & Hlit & HM).
  apply Matches_Seq_inv in HM as (s2 & c2 & Hws & HM).
  apply Matches_Seq_inv in HM as (s3 & c3 & Hg & HM).
  apply Matches_Str_inv in Hlit as [-> ->].
  apply Matches_Plus_inv in Hws as (w & -> & Hw0 & Hw & ->).
  apply Matches_Group_inv in Hg as (c3' & Hg & ->).
  apply Matches_Plus_inv in Hg as (g & -> & Hg0 & Hg & ->).
  destruct g as [|c g]; [done|]. apply Forall_cons in Hg as [Hc _].
  exists (w ++ (c :: g) ++ s3). split; [done|]. by exists w, c, (g ++ s3).
Qed.


(** *** The fields *)








(** *** The header *)


(** [\/?\)] at the end of the pattern. *)
Local Abbreviation closes := (Seq (Opt (Chr 47)) (Seq (Chr 41) Eps)).




(** *** The description of a block fits one record only *)








(** *** What the loop pushes is what the description says *)



Variable spawn : list jsstring -> Result Proc.
Variable readText : jsstring -> Result jsstring.
Variable YAML_parse : jsstring -> Result (QmdCli.Unchecked QmdCli.QmdConfig).
Variable nullishMessage : string -> QmdCli.Nullish -> jsstring -> jsstring.
Variable path_join : list jsstring -> jsstring.
Variable XDG_CONFIG_HOME : option jsstring.
Variable HOME : jsstring.


End RecordsFacts.

